(** * Site2QR: form-to-canvas-to-PNG generators

    A shallow embedding of the four client pages of Site2QR (poster,
    banner, business card, logo) and of the helper functions they
    duplicate: [normalizeHex], [truncateText], [drawFittedText],
    [drawRoundedRect], [getInitials], the [create*] compositing routines
    and the [handleSubmit] / [handleDownload] handlers.

    Conventions.
    - A JavaScript string is the list of its UTF-16 code units.
    - Canvas coordinates are exact rationals ([Q]); IEEE rounding of
      doubles is not modelled.  Font sizes and lengths are integers ([Z]),
      as every call site passes integer literals.
    - Angles are kept in units of [Math.PI].
    - Browser and library behaviour (text measurement, image decoding,
      the QR encoder, PNG encoding, Unicode case tables) enters through
      the record [Env]. *)

From Stdlib Require Import String Ascii List ZArith NArith QArith Bool Lia.
From Stdlib Require Import Qminmax Qround Lqa.
From Stdlib Require DecimalString HexadecimalString.
From Equations Require Import Equations.
Import ListNotations.

Set Implicit Arguments.

(** ** JavaScript strings *)

Module Js.

Definition code_unit := N.
Definition jsstring := list code_unit.

(** A string literal of the source, as code units. *)
Definition lit (s : string) : jsstring :=
  map N_of_ascii (list_ascii_of_string s).

Definition unit_eqb (a b : code_unit) : bool := N.eqb a b.

Fixpoint str_eqb (a b : jsstring) : bool :=
  match a, b with
  | [], [] => true
  | x :: a', y :: b' => unit_eqb x y && str_eqb a' b'
  | _, _ => false
  end.

(** [value.length] *)
Definition str_length (s : jsstring) : Z := Z.of_nat (List.length s).

(** WhiteSpace and LineTerminator code points of ECMAScript: what
    [String.prototype.trim] strips and what [\s] matches. *)
Definition is_space (u : code_unit) : bool :=
  ((9 <=? u) && (u <=? 13)              (* TAB LF VT FF CR *)
   || (u =? 32)                          (* SPACE *)
   || (u =? 160)                         (* NBSP *)
   || (u =? 5760)                        (* U+1680 *)
   || ((8192 <=? u) && (u <=? 8202))     (* U+2000 .. U+200A *)
   || (u =? 8232) || (u =? 8233)         (* U+2028, U+2029 *)
   || (u =? 8239) || (u =? 8287)         (* U+202F, U+205F *)
   || (u =? 12288) || (u =? 65279))%N.   (* U+3000, U+FEFF *)

Fixpoint trimStart (s : jsstring) : jsstring :=
  match s with
  | [] => []
  | u :: s' => if is_space u then trimStart s' else s
  end.

Definition trimEnd (s : jsstring) : jsstring := rev (trimStart (rev s)).

(** [value.trim()] *)
Definition trim (s : jsstring) : jsstring := trimEnd (trimStart s).

(** [a || b] on strings: the empty string is falsy. *)
Definition or_else (a b : jsstring) : jsstring :=
  match a with [] => b | _ => a end.

(** ASCII letters are mapped by subtracting 32; every other unit below
    128 is its own upper case. *)
Definition ascii_upper (u : code_unit) : code_unit :=
  if ((97 <=? u) && (u <=? 122))%N then (u - 32)%N else u.

Definition ascii_lower (u : code_unit) : code_unit :=
  if ((65 <=? u) && (u <=? 90))%N then (u + 32)%N else u.

Definition is_ascii (u : code_unit) : bool := (u <? 128)%N.

(** [value.toUpperCase()].  On a string of ASCII units the result is
    unit-wise; any other string is handed to the runtime's Unicode case
    mapping [unicodeUpper]. *)
Definition toUpperCase (unicodeUpper : jsstring -> jsstring) (s : jsstring)
  : jsstring :=
  if forallb is_ascii s then map ascii_upper s else unicodeUpper s.

Definition toLowerCase (unicodeLower : jsstring -> jsstring) (s : jsstring)
  : jsstring :=
  if forallb is_ascii s then map ascii_lower s else unicodeLower s.

(** [value.slice(start, end)]: negative indices count from the end, both
    are clamped to the string. *)
Definition slice (s : jsstring) (start end_ : Z) : jsstring :=
  let len := str_length s in
  let from := if (start <? 0)%Z then Z.max (len + start) 0 else Z.min start len in
  let to := if (end_ <? 0)%Z then Z.max (len + end_) 0 else Z.min end_ len in
  let span := Z.max (to - from) 0 in
  firstn (Z.to_nat span) (skipn (Z.to_nat from) s).

(** Character classes of the regular expressions in the source. *)
Definition is_char (c : code_unit) (u : code_unit) : bool := N.eqb u c.

Definition is_hex_digit (u : code_unit) : bool :=     (* [0-9a-fA-F] *)
  (((48 <=? u) && (u <=? 57))
   || ((97 <=? u) && (u <=? 102))
   || ((65 <=? u) && (u <=? 70)))%N.

Definition is_upper_hex_digit (u : code_unit) : bool := (* [0-9A-F] *)
  (((48 <=? u) && (u <=? 57)) || ((65 <=? u) && (u <=? 70)))%N.

(** [/^c1 c2 ... cn$/.test(s)] for a pattern that is a sequence of
    single-unit character classes between the two anchors. *)
Fixpoint regex_test (classes : list (code_unit -> bool)) (s : jsstring)
  : bool :=
  match classes, s with
  | [], [] => true
  | c :: classes', u :: s' => c u && regex_test classes' s'
  | _, _ => false
  end.

(** Decimal rendering of an integer inside a template literal. *)
Definition of_Z (z : Z) : jsstring := lit (DecimalString.NilZero.string_of_int (Z.to_int z)).

End Js.

Import Js.

Definition hash : code_unit := 35%N.

(** [const hexPattern = /^#[0-9a-fA-F]{6}$/;] *)
Definition hexPattern : list (code_unit -> bool) :=
  is_char hash :: repeat is_hex_digit 6.

(** [normalizeHex], identical on the four pages. *)
Definition normalizeHex (unicodeUpper : jsstring -> jsstring)
  (value fallback : jsstring) : jsstring :=
  let trimmed := trim value in
  if regex_test hexPattern trimmed
  then toUpperCase unicodeUpper trimmed
  else fallback.

(** [truncateText] of the poster page. *)
Definition truncateText (value : jsstring) (maxLength : Z) : jsstring :=
  if (str_length value <=? maxLength)%Z
  then value
  else slice value 0 (maxLength - 3) ++ lit "...".

Definition DEFAULT_PRIMARY : jsstring := lit "#D6B36C".
Definition DEFAULT_ACCENT : jsstring := lit "#4AA7A0".

(** ** Outcomes and the state-and-exception monad

    [M S A] is a computation over a mutable state [S] that either returns
    or throws; the state reached is kept in both cases, as it is for the
    side effects of a JavaScript function that throws half-way. *)

Inductive outcome (A : Type) : Type :=
| Ok (a : A)
| Throw (message : jsstring).
Arguments Ok {A} a.
Arguments Throw {A} message.

Definition M (S A : Type) : Type := S -> outcome A * S.

Definition ret {S A} (a : A) : M S A := fun s => (Ok a, s).

Definition bind {S A B} (m : M S A) (k : A -> M S B) : M S B :=
  fun s =>
    match m s with
    | (Ok a, s') => k a s'
    | (Throw e, s') => (Throw e, s')
    end.

Definition throw {S A} (e : jsstring) : M S A := fun s => (Throw e, s).

Definition modify {S} (f : S -> S) : M S unit := fun s => (Ok tt, f s).

(** [try { body } catch (err) { handler } finally { cleanup }] *)
Definition try_catch_finally {S A} (body : M S A) (handler : M S unit)
  (cleanup : M S unit) : M S unit :=
  fun s =>
    match body s with
    | (Ok _, s') => cleanup s'
    | (Throw _, s') => bind handler (fun _ => cleanup) s'
    end.

Declare Scope js_scope.
Delimit Scope js_scope with js.
Notation "x <- m ;; k" := (bind m (fun x => k))
  (at level 61, m at next level, right associativity) : js_scope.
Notation "m ;; k" := (bind m (fun _ => k))
  (at level 61, right associativity) : js_scope.
Open Scope js_scope.

(** ** The canvas and its 2D context *)

Record Image : Type := { src : jsstring }.

Inductive Style : Type :=
| Color (css : jsstring)
| GradientRef (g : nat).      (* the g-th gradient created on the context *)

(** One constructor per property assignment or method call that the
    source makes on a canvas, on its context, on a gradient or on an
    image element. *)
Inductive Call : Type :=
| SetWidth (w : Z)
| SetHeight (h : Z)
| GetContext (kind : jsstring)
| CreateLinearGradient (x0 y0 x1 y1 : Q)
| AddColorStop (g : nat) (offset : Q) (css : jsstring)
| SetFillStyle (s : Style)
| SetStrokeStyle (css : jsstring)
| SetLineWidth (w : Q)
| SetGlobalAlpha (a : Q)
| SetFont (f : jsstring)
| SetTextAlign (a : jsstring)
| SetTextBaseline (b : jsstring)
| Save
| Restore
| BeginPath
| ClosePath
| MoveTo (x y : Q)
| LineTo (x y : Q)
| QuadraticCurveTo (cpx cpy x y : Q)
| Arc (x y r a0 a1 : Q)
| Ellipse (x y rx ry rot a0 a1 : Q)
| Fill
| Stroke
| Clip
| FillRect (x y w h : Q)
| StrokeRect (x y w h : Q)
| MeasureText (t : jsstring)
| FillText (t : jsstring) (x y : Q)
| LoadImage (s : jsstring)
| DrawImage (img : Image) (x y w h : Q)
| ToDataURL (mime : jsstring).

(** The part of a canvas the source reads back or exports: its pixel
    dimensions, the current font of its context (read by [measureText]
    and [fillText]) with the fonts saved by [save()], and the calls made
    so far, oldest first. *)
Record Canvas : Type := {
  width : Z;
  height : Z;
  font : jsstring;
  saved : list jsstring;
  calls : list Call
}.

(** [document.createElement("canvas")] *)
Definition newCanvas : Canvas :=
  {| width := 300; height := 150; font := lit "10px sans-serif";
     saved := []; calls := [] |}.

Definition log (c : Call) (cv : Canvas) : Canvas :=
  {| width := width cv; height := height cv; font := font cv;
     saved := saved cv; calls := calls cv ++ [c] |}.

(** What a call does to the tracked part of the canvas. *)
Definition apply_call (c : Call) (cv : Canvas) : Canvas :=
  match c with
  | SetWidth w =>
      {| width := w; height := height cv; font := font cv;
         saved := saved cv; calls := calls cv |}
  | SetHeight h =>
      {| width := width cv; height := h; font := font cv;
         saved := saved cv; calls := calls cv |}
  | SetFont f =>
      {| width := width cv; height := height cv; font := f;
         saved := saved cv; calls := calls cv |}
  | Save =>
      {| width := width cv; height := height cv; font := font cv;
         saved := font cv :: saved cv; calls := calls cv |}
  | Restore =>
      match saved cv with
      | [] => cv
      | f :: rest =>
          {| width := width cv; height := height cv; font := f;
             saved := rest; calls := calls cv |}
      end
  | _ => cv
  end.

(** Perform a call: update the canvas and record the call. *)
Definition call (c : Call) : M Canvas unit :=
  modify (fun cv => log c (apply_call c cv)).

(** ** The environment *)

Record QrOptions : Type := {
  qr_width : Q;
  qr_margin : Z;
  qr_dark : jsstring;
  qr_light : jsstring
}.

(** The value of [Number(s)]. *)
Inductive Num : Type :=
| NaN
| Infinity
| NegInfinity
| Finite (q : Q).

Record Env : Type := {
  (* String.prototype.toUpperCase / toLowerCase beyond ASCII *)
  unicodeUpper : jsstring -> jsstring;
  unicodeLower : jsstring -> jsstring;
  (* Number(string) *)
  toNumber : jsstring -> Num;
  (* whether document.fonts?.ready is truthy *)
  fontsApi : bool;
  (* whether document.fonts.load(font) resolves *)
  fontsLoad : jsstring -> bool;
  (* qrcode's toDataURL(text, options); None when it rejects *)
  qrToDataURL : jsstring -> QrOptions -> option jsstring;
  (* whether canvas.getContext("2d") returns a context *)
  context2d : bool;
  (* ctx.measureText(text).width under the given ctx.font *)
  measureText : jsstring -> jsstring -> Q;
  (* whether an image element with this src fires onload *)
  imageLoads : jsstring -> bool;
  (* canvas.toDataURL(mime) of a canvas in the given state *)
  canvasToDataURL : Canvas -> jsstring -> jsstring
}.

(** ** Constraint validation of the forms

    The forms have no [noValidate] attribute, so a click on the submit
    button first runs the browser's constraint validation, and the
    [submit] event, to which [handleSubmit] listens, is only fired when
    every input satisfies its constraints.  The inputs with a constraint
    are those of type ["url"] and ["email"]; none is [required]. *)
Record Validity : Type := {
  (* whether a non-empty value is a valid absolute URL *)
  validUrl : jsstring -> bool;
  (* whether a non-empty value is a valid e-mail address *)
  validEmail : jsstring -> bool
}.

(** An input that is not [required] suffers from a type mismatch only
    when its value is not empty. *)
Definition input_ok (valid : jsstring -> bool) (value : jsstring) : bool :=
  match value with
  | [] => true
  | _ => valid value
  end.

(** [loadImage], identical on the poster, banner and business-card
    pages. *)
Definition loadImage {S} (env : Env) (record : Call -> M S unit)
  (s : jsstring) : M S Image :=
  record (LoadImage s) ;;
  if imageLoads env s
  then ret {| src := s |}
  else throw (lit "Image failed to load").

(** [canvas.getContext("2d")] followed by the null check. *)
Definition getContext (env : Env) : M Canvas unit :=
  call (GetContext (lit "2d")) ;;
  if context2d env then ret tt else throw (lit "Canvas not supported").

(** [return canvas.toDataURL("image/png")] *)
Definition toDataURL (env : Env) (mime : jsstring) : M Canvas jsstring :=
  fun cv => (Ok (canvasToDataURL env cv mime), log (ToDataURL mime) cv).

(** The template literal [`${fontWeight} ${size}px "${fontFamily}"`]. *)
Definition font_string (fontWeight size : Z) (fontFamily : jsstring)
  : jsstring :=
  of_Z fontWeight ++ lit " " ++ of_Z size ++ lit "px " ++
  [34%N] ++ fontFamily ++ [34%N].

Definition DISPLAY_FONT : jsstring := lit "Cinzel".
Definition BODY_FONT : jsstring := lit "Manrope".

(** [drawRoundedRect], identical on the poster, banner and business-card
    pages. *)
Definition drawRoundedRect (x y w h radius : Q) : M Canvas unit :=
  let safeRadius := Qmin (Qmin radius (w / 2)) (h / 2) in
  call BeginPath ;;
  call (MoveTo (x + safeRadius) y) ;;
  call (LineTo (x + w - safeRadius) y) ;;
  call (QuadraticCurveTo (x + w) y (x + w) (y + safeRadius)) ;;
  call (LineTo (x + w) (y + h - safeRadius)) ;;
  call (QuadraticCurveTo (x + w) (y + h) (x + w - safeRadius) (y + h)) ;;
  call (LineTo (x + safeRadius) (y + h)) ;;
  call (QuadraticCurveTo x (y + h) x (y + h - safeRadius)) ;;
  call (LineTo x (y + safeRadius)) ;;
  call (QuadraticCurveTo x y (x + safeRadius) y) ;;
  call ClosePath.

(** The loop of [drawFittedText], the same text on all four pages:
<<
    while (size > 14) {
      ctx.font = `${fontWeight} ${size}px "${fontFamily}"`;
      if (ctx.measureText(text).width <= maxWidth) { break; }
      size -= 2;
    }
>>
    It returns the final value of the variable [size].  The variable is
    a whole number here, as at every call of the source (16 to 60); a
    whole number up to 2^53 is a double and so is every value
    [size -= 2] gives it, above that the subtraction of a double is not
    that of the integers. *)
Equations shrinkLoop (env : Env) (text : jsstring) (maxWidth : Q)
  (fontFamily : jsstring) (fontWeight : Z) (size : Z) (cv : Canvas)
  : outcome Z * Canvas by wf (Z.to_nat (size - 14)) lt :=
  shrinkLoop env text maxWidth fontFamily fontWeight size cv
    with Z_lt_dec 14 size => {
    | right _ => (Ok size, cv)
    | left _ =>
        let f := font_string fontWeight size fontFamily in
        let cv1 := log (SetFont f) (apply_call (SetFont f) cv) in
        let cv2 := log (MeasureText text) cv1 in
        if Qle_bool (measureText env (font cv1) text) maxWidth
        then (Ok size, cv2)
        else shrinkLoop env text maxWidth fontFamily fontWeight (size - 2) cv2
    }.
Next Obligation. lia. Qed.

(** ** React state of a page and the events of a handler *)

Inductive Event (R : Type) : Type :=
| PreventDefault
| SetError (message : jsstring)
| SetLoading (b : bool)
| SetResult (r : R)
| AwaitFontsReady
| FontsLoad (f : jsstring)
| PageCall (c : Call)                    (* loadImage outside any canvas *)
| QrToDataURL (text : jsstring) (options : QrOptions)
| CanvasRun (cv : Canvas)                (* one create* call, with the canvas it left *)
| CreateLink
| SetHref (url : jsstring)
| SetDownload (name : jsstring)
| Click.
Arguments PreventDefault {R}.
Arguments SetError {R} message.
Arguments SetLoading {R} b.
Arguments SetResult {R} r.
Arguments AwaitFontsReady {R}.
Arguments FontsLoad {R} f.
Arguments PageCall {R} c.
Arguments QrToDataURL {R} text options.
Arguments CanvasRun {R} cv.
Arguments CreateLink {R}.
Arguments SetHref {R} url.
Arguments SetDownload {R} name.
Arguments Click {R}.

(** The [useState] cells a handler writes, and the trace of what it did. *)
Record Page (R : Type) : Type := {
  error : jsstring;
  loading : bool;
  result : R;
  events : list (Event R)
}.

Section PageOps.
Variable R : Type.

Definition emit (e : Event R) : M (Page R) unit :=
  modify (fun p =>
    {| error := error p; loading := loading p; result := result p;
       events := events p ++ [e] |}).

Definition setError (message : jsstring) : M (Page R) unit :=
  modify (fun p =>
    {| error := message; loading := loading p; result := result p;
       events := events p ++ [SetError message] |}).

Definition setLoading (b : bool) : M (Page R) unit :=
  modify (fun p =>
    {| error := error p; loading := b; result := result p;
       events := events p ++ [SetLoading b] |}).

Definition setResult (r : R) : M (Page R) unit :=
  modify (fun p =>
    {| error := error p; loading := loading p; result := r;
       events := events p ++ [SetResult r] |}).

(** The block guarded by [document.fonts?.ready]: wait for the font set,
    then [Promise.all] of the two [document.fonts.load] calls. *)
Definition awaitFonts (env : Env) (display body : jsstring)
  : M (Page R) unit :=
  if fontsApi env then
    emit AwaitFontsReady ;;
    emit (FontsLoad display) ;;
    emit (FontsLoad body) ;;
    if fontsLoad env display && fontsLoad env body
    then ret tt
    else throw (lit "font load rejected")
  else ret tt.

(** [await toDataURL(text, options)] of the qrcode package. *)
Definition qrEncode (env : Env) (text : jsstring) (options : QrOptions)
  : M (Page R) jsstring :=
  emit (QrToDataURL text options) ;;
  match qrToDataURL env text options with
  | Some dataUrl => ret dataUrl
  | None => throw (lit "QR encoding rejected")
  end.

(** Run a [create*] routine on a canvas of its own. *)
Definition onNewCanvas {A} (create : M Canvas A) : M (Page R) A :=
  fun p =>
    let '(o, cv) := create newCanvas in
    (o, {| error := error p; loading := loading p; result := result p;
           events := events p ++ [CanvasRun cv] |}).

End PageOps.

Arguments emit {R} e.
Arguments setError {R} message.
Arguments setLoading {R} b.
Arguments setResult {R} r.
Arguments awaitFonts {R} env display body.
Arguments qrEncode {R} env text options.
Arguments onNewCanvas {R A} create.

(** The calls [f item] for the items of a list, in list order: the
    synchronous part of [items.map(f)]. *)
Fixpoint mapM {S A B} (f : A -> M S B) (items : list A) : M S (list B) :=
  match items with
  | [] => ret []
  | item :: rest =>
      b <- f item ;;
      bs <- mapM f rest ;;
      ret (b :: bs)
  end.

(** A step of an [async] function seen from outside: whether it returned
    or threw is held in its promise, nothing is thrown to the caller. *)
Definition settle {S A} (m : M S A) : M S (outcome A) :=
  fun s => let '(o, s') := m s in (Ok o, s').

(** What [Promise.all] makes of settled promises: the array of their
    values, or a rejection when one of them rejected. *)
Fixpoint all_of {A} (settled : list (outcome A)) : outcome (list A) :=
  match settled with
  | [] => Ok []
  | Ok a :: rest =>
      match all_of rest with
      | Ok l => Ok (a :: l)
      | Throw e => Throw e
      end
  | Throw e :: _ => Throw e
  end.

(** [await Promise.all(items.map(async (item) => {
       const b = await first(item);
       const c = await second(item, b);
       return c; }))].
    [map] calls the [async] function on every item in turn, and each
    call runs up to its first [await]: the calls of [first] are all made,
    in list order, before any call of [second].  The tasks then resume in
    list order, each on its own; a task whose [first] rejected goes no
    further, but it does not stop the others, which still make their
    call of [second].  [Promise.all] resolves to the array of the
    results when every task returned and rejects when one threw.  A call
    of [second] is logged as a whole where it starts. *)
Definition promiseAll {S A B C} (first : A -> M S B)
  (second : A -> B -> M S C) (items : list A) : M S (list C) :=
  firsts <- mapM (fun item => settle (first item)) items ;;
  seconds <- mapM (fun task =>
                     match snd task with
                     | Ok b => settle (second (fst task) b)
                     | Throw e => ret (Throw e)
                     end)
                  (combine items firsts) ;;
  fun s => (all_of seconds, s).

(** [getInitials], identical on the business-card and logo pages. *)
Fixpoint split_spaces (in_separator : bool) (word : jsstring)
  (s : jsstring) : list jsstring :=
  match s with
  | [] => [rev word]
  | u :: s' =>
      if is_space u then
        if in_separator then split_spaces true word s'
        else rev word :: split_spaces true [] s'
      else split_spaces false (u :: word) s'
  end.

(** [s.split(/\s+/)] *)
Definition split (s : jsstring) : list jsstring := split_spaces false [] s.

Definition getInitials (env : Env) (value : jsstring) : jsstring :=
  let trimmed := trim value in
  match trimmed with
  | [] => lit "QR"
  | _ =>
      concat
        (map (fun word =>
                match word with
                | [] => []
                | u :: _ => toUpperCase (unicodeUpper env) [u]
                end)
             (firstn 2 (split trimmed)))
  end.

(** ** The poster page ([app/page.tsx]) *)

Module Poster.

Definition POSTER_WIDTH : Q := 1200.
Definition POSTER_HEIGHT : Q := 800.

(** *** Colour mixing *)

Definition hex_value (u : code_unit) : option Z :=
  if ((48 <=? u) && (u <=? 57))%N then Some (Z.of_N u - 48)%Z
  else if ((97 <=? u) && (u <=? 102))%N then Some (Z.of_N u - 87)%Z
  else if ((65 <=? u) && (u <=? 70))%N then Some (Z.of_N u - 55)%Z
  else None.

Fixpoint hex_prefix (s : jsstring) (acc : option Z) : option Z :=
  match s with
  | [] => acc
  | u :: s' =>
      match hex_value u with
      | Some d =>
          hex_prefix s'
            (Some (16 * match acc with Some a => a | None => 0 end + d)%Z)
      | None => acc
      end
  end.

(** [Number.parseInt(s, 16)]; [None] is [NaN]. *)
Definition parseInt16 (s : jsstring) : option Z :=
  let s0 := trimStart s in
  let '(negative, s1) :=
    match s0 with
    | 45%N :: r => (true, r)
    | 43%N :: r => (false, r)
    | _ => (false, s0)
    end in
  let s2 :=
    match s1 with
    | 48%N :: x :: r => if ((x =? 120) || (x =? 88))%N then r else s1
    | _ => s1
    end in
  match hex_prefix s2 None with
  | Some v => Some (if negative then (- v)%Z else v)
  | None => None
  end.

(** [hex.replace("#", "")]: the first ["#"] is removed. *)
Fixpoint remove_first_hash (s : jsstring) : jsstring :=
  match s with
  | [] => []
  | u :: s' => if N.eqb u hash then s' else u :: remove_first_hash s'
  end.

Record Rgb : Type := { r : option Z; g : option Z; b : option Z }.

Definition hexToRgb (hex : jsstring) : Rgb :=
  let clean := remove_first_hash hex in
  {| r := parseInt16 (slice clean 0 2);
     g := parseInt16 (slice clean 2 4);
     b := parseInt16 (slice clean 4 6) |}.

(** [value.toString(16).padStart(2, "0")] *)
Definition toHex (value : option Z) : jsstring :=
  let digits :=
    match value with
    | None => lit "NaN"
    | Some v =>
        (if (v <? 0)%Z then lit "-" else []) ++
        lit (HexadecimalString.NilZero.string_of_uint
               (N.to_hex_uint (Z.abs_N v)))
    end in
  match digits with
  | [d] => lit "0" ++ [d]
  | [] => lit "00"
  | _ => digits
  end.

Definition rgbToHex (env : Env) (r g b : option Z) : jsstring :=
  toUpperCase (unicodeUpper env) ([hash] ++ toHex r ++ toHex g ++ toHex b).

(** [Math.round(a + (b - a) * amount)], in exact arithmetic: what the
    code computes whenever the product and the sum are doubles, as they
    are for the amounts 0 and 1.  [mix_fl] below has the rounding. *)
Definition mix (amount : Q) (a b : option Z) : option Z :=
  match a, b with
  | Some a, Some b =>
      Some (Qfloor (inject_Z a + (inject_Z b - inject_Z a) * amount + (1 # 2)))
  | _, _ => None
  end.

Definition mixHex (env : Env) (first second : jsstring) (amount : Q)
  : jsstring :=
  let colorA := hexToRgb first in
  let colorB := hexToRgb second in
  rgbToHex env
    (mix amount (r colorA) (r colorB))
    (mix amount (g colorA) (g colorB))
    (mix amount (b colorA) (b colorB)).

(** The same two functions with the rounding of floating-point
    arithmetic written out.  The channels are integers and [amount] is a
    double; [b - a] is exact, the product and the sum are each rounded
    to a double by [fl], and [Math.round] is exact on a double.  With
    [fl] the identity these are [mix] and [mixHex]. *)
Definition mix_fl (fl : Q -> Q) (amount : Q) (a b : option Z) : option Z :=
  match a, b with
  | Some a, Some b =>
      Some (Qfloor (fl (inject_Z a + fl ((inject_Z b - inject_Z a) * amount))
                    + (1 # 2)))
  | _, _ => None
  end.

Definition mixHex_fl (fl : Q -> Q) (env : Env) (first second : jsstring)
  (amount : Q) : jsstring :=
  let colorA := hexToRgb first in
  let colorB := hexToRgb second in
  rgbToHex env
    (mix_fl fl amount (r colorA) (r colorB))
    (mix_fl fl amount (g colorA) (g colorB))
    (mix_fl fl amount (b colorA) (b colorB)).

(** *** Templates *)

Record Palette : Type := {
  background : jsstring;
  backgroundAlt : jsstring;
  frame : jsstring;
  text : jsstring;
  muted : jsstring;
  accent : jsstring;
  glow : jsstring;
  card : jsstring;
  cardBorder : jsstring;
  qrDark : jsstring;
  qrLight : jsstring
}.

Record PosterTemplate : Type := {
  id : jsstring;
  name : jsstring;
  description : jsstring;
  cta : jsstring;
  palette : Palette
}.

Record PosterResult : Type := {
  res_id : jsstring;
  res_name : jsstring;
  res_description : jsstring;
  posterUrl : jsstring
}.

Definition buildTemplates (env : Env) (primary accent : jsstring)
  : list PosterTemplate :=
  let baseDark := lit "#0B0B10" in
  let baseLight := lit "#F7F3EA" in
  let white := lit "#FFFFFF" in
  [ {| id := lit "gilt";
       name := lit "Gilt Plaque";
       description := lit "Classic dark board with gold framing.";
       cta := lit "Connect with us";
       palette :=
         {| background := baseDark;
            backgroundAlt := mixHex env baseDark primary 0.12;
            frame := mixHex env primary white 0.25;
            text := lit "#F8F4E6";
            muted := mixHex env (lit "#F8F4E6") (lit "#9CA3AF") 0.25;
            accent := primary;
            glow := mixHex env primary white 0.35;
            card := lit "#FDF8EE";
            cardBorder := mixHex env primary white 0.35;
            qrDark := mixHex env primary (lit "#101010") 0.4;
            qrLight := white |} |};
    {| id := lit "noir";
       name := lit "Noir Accent";
       description := lit "Deep tones with bold accent energy.";
       cta := lit "Scan the code";
       palette :=
         {| background := mixHex env baseDark accent 0.08;
            backgroundAlt := mixHex env (lit "#111827") accent 0.16;
            frame := mixHex env accent white 0.22;
            text := lit "#F3F4F6";
            muted := mixHex env (lit "#F3F4F6") (lit "#94A3B8") 0.35;
            accent := accent;
            glow := mixHex env accent white 0.28;
            card := mixHex env (lit "#F8FAFC") accent 0.08;
            cardBorder := mixHex env accent white 0.35;
            qrDark := mixHex env accent (lit "#0F172A") 0.5;
            qrLight := white |} |};
    {| id := lit "ivory";
       name := lit "Ivory Studio";
       description := lit "Light premium layout with soft framing.";
       cta := lit "Your link, beautifully";
       palette :=
         {| background := baseLight;
            backgroundAlt := mixHex env baseLight primary 0.1;
            frame := mixHex env primary (lit "#000000") 0.2;
            text := lit "#1F2937";
            muted := mixHex env (lit "#1F2937") (lit "#6B7280") 0.55;
            accent := accent;
            glow := mixHex env accent white 0.35;
            card := white;
            cardBorder := mixHex env primary white 0.5;
            qrDark := mixHex env primary (lit "#111827") 0.4;
            qrLight := white |} |} ].

(** *** Drawing *)

(** The poster's [drawFittedText] takes no alignment: it always centres
    and leaves the baseline alone. *)
Definition drawFittedText (env : Env) (text : jsstring) (maxWidth : Q)
  (fontSize : Z) (fontFamily : jsstring) (fontWeight : Z) (x y : Q)
  (color : jsstring) : M Canvas unit :=
  call (SetTextAlign (lit "center")) ;;
  call (SetFillStyle (Color color)) ;;
  _ <- shrinkLoop env text maxWidth fontFamily fontWeight fontSize ;;
  call (FillText text x y).

Record PosterPayload : Type := {
  template : PosterTemplate;
  brandName : jsstring;
  tagline : jsstring;
  url : jsstring;
  qrSize : Q;
  qrDataUrl : jsstring;
  logoImage : option Image
}.

(** The caption under the QR card: [truncateText(url, 52)]. *)
Definition displayUrl (p : PosterPayload) : jsstring := truncateText (url p) 52.

Definition createPoster (env : Env) (p : PosterPayload) : M Canvas jsstring :=
  call (SetWidth 1200) ;;
  call (SetHeight 800) ;;
  getContext env ;;
  let pal := palette (template p) in
  call (CreateLinearGradient 0 0 POSTER_WIDTH POSTER_HEIGHT) ;;
  call (AddColorStop 0 0 (background pal)) ;;
  call (AddColorStop 0 1 (backgroundAlt pal)) ;;
  call (SetFillStyle (GradientRef 0)) ;;
  call (FillRect 0 0 POSTER_WIDTH POSTER_HEIGHT) ;;

  call Save ;;
  call (SetGlobalAlpha 0.35) ;;
  call (SetFillStyle (Color (glow pal))) ;;
  call BeginPath ;;
  call (Ellipse (POSTER_WIDTH * 0.82) (POSTER_HEIGHT * 0.18) 190 120 0 0 2) ;;
  call Fill ;;
  call Restore ;;

  call Save ;;
  call (SetGlobalAlpha 0.2) ;;
  call (SetFillStyle (Color (accent pal))) ;;
  call BeginPath ;;
  call (Ellipse (POSTER_WIDTH * 0.18) (POSTER_HEIGHT * 0.86) 220 140 0 0 2) ;;
  call Fill ;;
  call Restore ;;

  call (SetLineWidth 6) ;;
  call (SetStrokeStyle (frame pal)) ;;
  call (StrokeRect 28 28 (POSTER_WIDTH - 56) (POSTER_HEIGHT - 56)) ;;

  call (SetLineWidth 2) ;;
  call (SetStrokeStyle (lit "rgba(255, 255, 255, 0.12)")) ;;
  call (StrokeRect 52 52 (POSTER_WIDTH - 104) (POSTER_HEIGHT - 104)) ;;

  match logoImage p with
  | Some logo =>
      let logoSize : Q := 88 in
      let logoX : Q := 110 in
      let logoY : Q := 110 in
      call Save ;;
      call BeginPath ;;
      call (Arc logoX logoY (logoSize / 2) 0 2) ;;
      call ClosePath ;;
      call Clip ;;
      call (DrawImage logo (logoX - logoSize / 2) (logoY - logoSize / 2)
              logoSize logoSize) ;;
      call Restore ;;
      call (SetStrokeStyle (frame pal)) ;;
      call (SetLineWidth 3) ;;
      call BeginPath ;;
      call (Arc logoX logoY (logoSize / 2 + 3) 0 2) ;;
      call Stroke
  | None => ret tt
  end ;;

  drawFittedText env (brandName p) (POSTER_WIDTH - 200) 48 DISPLAY_FONT 700
    (POSTER_WIDTH / 2) 128 (text pal) ;;
  drawFittedText env (tagline p) (POSTER_WIDTH - 240) 22 BODY_FONT 500
    (POSTER_WIDTH / 2) 162 (muted pal) ;;

  call (SetFont (font_string 600 26 DISPLAY_FONT)) ;;
  call (SetTextAlign (lit "center")) ;;
  call (SetFillStyle (Color (accent pal))) ;;
  call (FillText (cta (template p)) (POSTER_WIDTH / 2) 220) ;;

  let cardWidth := qrSize p + 90 in
  let cardHeight := qrSize p + 90 in
  let cardX := (POSTER_WIDTH - cardWidth) / 2 in
  let cardY : Q := 260 in

  drawRoundedRect cardX cardY cardWidth cardHeight 28 ;;
  call (SetFillStyle (Color (card pal))) ;;
  call Fill ;;

  call (SetLineWidth 3) ;;
  call (SetStrokeStyle (cardBorder pal)) ;;
  call Stroke ;;

  qrImage <- loadImage env call (qrDataUrl p) ;;
  call (DrawImage qrImage (cardX + 45) (cardY + 45) (qrSize p) (qrSize p)) ;;

  call (SetFont (font_string 500 20 BODY_FONT)) ;;
  call (SetFillStyle (Color (muted pal))) ;;
  call (SetTextAlign (lit "center")) ;;
  call (FillText (displayUrl p) (POSTER_WIDTH / 2) (cardY + cardHeight + 50)) ;;

  call (SetFont (font_string 600 18 BODY_FONT)) ;;
  call (SetFillStyle (Color (text pal))) ;;
  call (FillText (name (template p)) (POSTER_WIDTH / 2) (POSTER_HEIGHT - 62)) ;;

  toDataURL env (lit "image/png").

(** *** The page component [Home] *)

Record Form : Type := {
  f_url : jsstring;
  f_brandName : jsstring;
  f_tagline : jsstring;
  f_primaryColor : jsstring;
  f_accentColor : jsstring;
  f_size : jsstring;
  f_logoUrl : option jsstring
}.

Definition normalizedPrimary (env : Env) (f : Form) : jsstring :=
  normalizeHex (unicodeUpper env) (f_primaryColor f) DEFAULT_PRIMARY.
Definition normalizedAccent (env : Env) (f : Form) : jsstring :=
  normalizeHex (unicodeUpper env) (f_accentColor f) DEFAULT_ACCENT.

Definition templates (env : Env) (f : Form) : list PosterTemplate :=
  buildTemplates env (normalizedPrimary env f) (normalizedAccent env f).

(** [Math.min(Math.max(Number(size) || 260, 200), 360)] *)
Definition resolveQrSize (n : Num) : Q :=
  match n with
  | NaN => 260
  | Infinity => 360
  | NegInfinity => 200
  | Finite q =>
      Qmin (Qmax (if Qeq_bool q 0 then 260 else q) 200) 360
  end.

Definition validationError : jsstring :=
  lit "Please enter a URL to generate posters.".
Definition generationError : jsstring :=
  lit "Could not generate branded posters. Please try again.".

(** The options of the [toDataURL] call for one template. *)
Definition qrOptions (size : Q) (t : PosterTemplate) : QrOptions :=
  {| qr_width := size; qr_margin := 1;
     qr_dark := qrDark (palette t); qr_light := qrLight (palette t) |}.

(** The body of the [try] block. *)
Definition generate (env : Env) (f : Form) (trimmedUrl : jsstring)
  : M (Page (list PosterResult)) unit :=
  awaitFonts env (font_string 700 48 DISPLAY_FONT)
                 (font_string 500 20 BODY_FONT) ;;
  logo <- match f_logoUrl f with
          | Some (u :: rest) =>
              img <- loadImage env (fun c => emit (PageCall c)) (u :: rest) ;;
              ret (Some img)
          | _ => ret None
          end ;;
  let size := resolveQrSize (toNumber env (f_size f)) in
  let resolvedBrand := or_else (trim (f_brandName f)) (lit "Your Brand") in
  let resolvedTagline := or_else (trim (f_tagline f)) (lit "Scan to connect") in
  nextPosters <-
    promiseAll
      (fun t => qrEncode env trimmedUrl (qrOptions size t))
      (fun t dataUrl =>
         png <- onNewCanvas
                  (createPoster env
                     {| template := t;
                        brandName := resolvedBrand;
                        tagline := resolvedTagline;
                        url := trimmedUrl;
                        qrSize := size;
                        qrDataUrl := dataUrl;
                        logoImage := logo |}) ;;
         ret {| res_id := id t; res_name := name t;
                res_description := description t; posterUrl := png |})
      (templates env f) ;;
  setResult nextPosters.

Definition handleSubmit (env : Env) (f : Form)
  : M (Page (list PosterResult)) unit :=
  emit PreventDefault ;;
  setError [] ;;
  let trimmedUrl := trim (f_url f) in
  match trimmedUrl with
  | [] => setError validationError
  | _ =>
      setLoading true ;;
      setResult [] ;;
      try_catch_finally
        (generate env f trimmedUrl)
        (setError generationError)
        (setLoading false)
  end.

(** [<form onSubmit={handleSubmit}>] with its [<Input type="url">] and
    its submit button, [disabled] while loading: what a click on the
    button does. *)
Definition form_submit (browser : Validity) (env : Env) (f : Form)
  : M (Page (list PosterResult)) unit :=
  fun p =>
    if loading p then ret tt p
    else if input_ok (validUrl browser) (f_url f) then handleSubmit env f p
    else ret tt p.

(** [poster.name.replace(/\s+/g, "-")] *)
Fixpoint dash_spaces (in_separator : bool) (s : jsstring) : jsstring :=
  match s with
  | [] => []
  | u :: s' =>
      if is_space u then
        if in_separator then dash_spaces true s'
        else lit "-" ++ dash_spaces true s'
      else u :: dash_spaces false s'
  end.

Definition handleDownload (env : Env) (poster : PosterResult)
  : M (Page (list PosterResult)) unit :=
  emit CreateLink ;;
  emit (SetHref (posterUrl poster)) ;;
  let fileSafeName :=
    toLowerCase (unicodeLower env) (dash_spaces false (res_name poster)) in
  emit (SetDownload (fileSafeName ++ lit ".png")) ;;
  emit Click.

End Poster.

(** ** Helpers shared by the banner, business-card and logo pages

    The three files carry textually identical copies of this
    [drawFittedText]; it is embedded once. *)

(** [ctx.measureText(text).width] *)
Definition measure (env : Env) (text : jsstring) : M Canvas Q :=
  fun cv => (Ok (measureText env (font cv) text), log (MeasureText text) cv).

Definition drawFittedText (env : Env) (text : jsstring) (maxWidth : Q)
  (fontSize : Z) (fontFamily : jsstring) (fontWeight : Z) (x y : Q)
  (color : jsstring) (align : jsstring) : M Canvas unit :=
  call (SetTextAlign align) ;;
  call (SetTextBaseline (lit "alphabetic")) ;;
  call (SetFillStyle (Color color)) ;;
  _ <- shrinkLoop env text maxWidth fontFamily fontWeight fontSize ;;
  call (FillText text x y).

(** The download handlers of the banner, business-card and logo pages
    differ only in the file name. *)
Definition downloadAs (fileName : jsstring) : M (Page (option jsstring)) unit :=
  fun p =>
    match result p with
    | Some (u :: rest) =>
        (emit CreateLink ;;
         emit (SetHref (u :: rest)) ;;
         emit (SetDownload fileName) ;;
         emit Click) p
    | _ => ret tt p
    end.

(** ** The banner page ([app/banner/page.tsx]) *)

Module Banner.

Definition BANNER_WIDTH : Q := 1600.
Definition BANNER_HEIGHT : Q := 600.

Record BannerPayload : Type := {
  brandName : jsstring;
  headline : jsstring;
  subheadline : jsstring;
  cta : jsstring;
  url : jsstring;
  primary : jsstring;
  accent : jsstring;
  qrDataUrl : jsstring
}.

Definition createBanner (env : Env) (p : BannerPayload) : M Canvas jsstring :=
  call (SetWidth 1600) ;;
  call (SetHeight 600) ;;
  getContext env ;;

  call (CreateLinearGradient 0 0 BANNER_WIDTH BANNER_HEIGHT) ;;
  call (AddColorStop 0 0 (lit "#0B0B10")) ;;
  call (AddColorStop 0 1 (primary p)) ;;
  call (SetFillStyle (GradientRef 0)) ;;
  call (FillRect 0 0 BANNER_WIDTH BANNER_HEIGHT) ;;

  call Save ;;
  call (SetGlobalAlpha 0.3) ;;
  call (SetFillStyle (Color (accent p))) ;;
  call BeginPath ;;
  call (Ellipse (BANNER_WIDTH * 0.85) (BANNER_HEIGHT * 0.2) 260 160 0 0 2) ;;
  call Fill ;;
  call Restore ;;

  call Save ;;
  call (SetGlobalAlpha 0.2) ;;
  call (SetFillStyle (Color (primary p))) ;;
  call BeginPath ;;
  call (Ellipse (BANNER_WIDTH * 0.18) (BANNER_HEIGHT * 0.82) 320 180 0 0 2) ;;
  call Fill ;;
  call Restore ;;

  call (SetLineWidth 4) ;;
  call (SetStrokeStyle (lit "rgba(255, 255, 255, 0.18)")) ;;
  call (StrokeRect 28 28 (BANNER_WIDTH - 56) (BANNER_HEIGHT - 56)) ;;

  call (SetLineWidth 1) ;;
  call (SetStrokeStyle (lit "rgba(255, 255, 255, 0.08)")) ;;
  call (StrokeRect 50 50 (BANNER_WIDTH - 100) (BANNER_HEIGHT - 100)) ;;

  let leftX : Q := 120 in
  let rightWidth : Q := 320 in
  let rightX := BANNER_WIDTH - rightWidth - 120 in
  let leftWidth := rightX - leftX - 20 in

  call (SetFont (font_string 600 16 BODY_FONT)) ;;
  call (SetTextAlign (lit "left")) ;;
  call (SetTextBaseline (lit "alphabetic")) ;;
  call (SetFillStyle (Color (lit "rgba(248, 244, 230, 0.7)"))) ;;
  call (FillText (brandName p) leftX 140) ;;

  drawFittedText env (headline p) leftWidth 60 DISPLAY_FONT 700 leftX 230
    (lit "#F8F4E6") (lit "left") ;;
  drawFittedText env (subheadline p) leftWidth 26 BODY_FONT 500 leftX 300
    (lit "rgba(248, 244, 230, 0.75)") (lit "left") ;;

  call (SetFont (font_string 600 18 BODY_FONT)) ;;
  ctaTextWidth <- measure env (cta p) ;;
  let ctaWidth := ctaTextWidth + 56 in
  let ctaHeight : Q := 50 in
  let ctaY : Q := 350 in

  drawRoundedRect leftX ctaY ctaWidth ctaHeight 999 ;;
  call (SetFillStyle (Color (accent p))) ;;
  call Fill ;;

  call (SetFillStyle (Color (lit "#0B0B10"))) ;;
  call (SetTextAlign (lit "left")) ;;
  call (SetTextBaseline (lit "middle")) ;;
  call (FillText (cta p) (leftX + 28) (ctaY + ctaHeight / 2)) ;;

  drawFittedText env (url p) leftWidth 16 BODY_FONT 500 leftX
    (BANNER_HEIGHT - 80) (lit "rgba(248, 244, 230, 0.6)") (lit "left") ;;

  let cardX := rightX in
  let cardY : Q := 130 in
  let cardWidth := rightWidth in
  let cardHeight : Q := 340 in

  drawRoundedRect cardX cardY cardWidth cardHeight 28 ;;
  call (SetFillStyle (Color (lit "#F8F4E6"))) ;;
  call Fill ;;

  call (SetLineWidth 2) ;;
  call (SetStrokeStyle (lit "rgba(255, 255, 255, 0.2)")) ;;
  call Stroke ;;

  qrImage <- loadImage env call (qrDataUrl p) ;;
  let qrSize : Q := 200 in
  let qrX := cardX + (cardWidth - qrSize) / 2 in
  let qrY := cardY + 50 in
  call (DrawImage qrImage qrX qrY qrSize qrSize) ;;

  call (SetFont (font_string 600 14 BODY_FONT)) ;;
  call (SetFillStyle (Color (lit "#0F172A"))) ;;
  call (SetTextAlign (lit "center")) ;;
  call (SetTextBaseline (lit "alphabetic")) ;;
  call (FillText (lit "Scan to visit") (cardX + cardWidth / 2)
          (cardY + cardHeight - 40)) ;;

  toDataURL env (lit "image/png").

Record Form : Type := {
  f_brandName : jsstring;
  f_headline : jsstring;
  f_subheadline : jsstring;
  f_cta : jsstring;
  f_url : jsstring;
  f_primaryColor : jsstring;
  f_accentColor : jsstring
}.

Definition normalizedPrimary (env : Env) (f : Form) : jsstring :=
  normalizeHex (unicodeUpper env) (f_primaryColor f) DEFAULT_PRIMARY.
Definition normalizedAccent (env : Env) (f : Form) : jsstring :=
  normalizeHex (unicodeUpper env) (f_accentColor f) DEFAULT_ACCENT.

Definition validationError : jsstring :=
  lit "Please enter a URL to embed in the banner QR code.".
Definition generationError : jsstring :=
  lit "Could not generate the banner. Please try again.".

Definition qrOptions : QrOptions :=
  {| qr_width := 240; qr_margin := 1;
     qr_dark := lit "#0F172A"; qr_light := lit "#FFFFFF" |}.

Definition payload (env : Env) (f : Form) (trimmedUrl dataUrl : jsstring)
  : BannerPayload :=
  {| brandName := or_else (trim (f_brandName f)) (lit "Your Brand");
     headline := or_else (trim (f_headline f)) (lit "Your headline");
     subheadline :=
       or_else (trim (f_subheadline f)) (lit "Your banner subheadline");
     cta := or_else (trim (f_cta f)) (lit "Scan now");
     url := trimmedUrl;
     primary := normalizedPrimary env f;
     accent := normalizedAccent env f;
     qrDataUrl := dataUrl |}.

(** The body of the [try] block. *)
Definition generate (env : Env) (f : Form) (trimmedUrl : jsstring)
  : M (Page (option jsstring)) unit :=
  awaitFonts env (font_string 700 60 DISPLAY_FONT)
                 (font_string 500 24 BODY_FONT) ;;
  dataUrl <- qrEncode env trimmedUrl qrOptions ;;
  nextBanner <- onNewCanvas (createBanner env (payload env f trimmedUrl dataUrl)) ;;
  setResult (Some nextBanner).

Definition handleSubmit (env : Env) (f : Form)
  : M (Page (option jsstring)) unit :=
  emit PreventDefault ;;
  setError [] ;;
  let trimmedUrl := trim (f_url f) in
  match trimmedUrl with
  | [] => setError validationError
  | _ =>
      setLoading true ;;
      setResult None ;;
      try_catch_finally
        (generate env f trimmedUrl)
        (setError generationError)
        (setLoading false)
  end.

(** [<form onSubmit={handleSubmit}>] with its [<Input type="url">] and
    its submit button, [disabled] while loading: what a click on the
    button does. *)
Definition form_submit (browser : Validity) (env : Env) (f : Form)
  : M (Page (option jsstring)) unit :=
  fun p =>
    if loading p then ret tt p
    else if input_ok (validUrl browser) (f_url f) then handleSubmit env f p
    else ret tt p.

Definition handleDownload : M (Page (option jsstring)) unit :=
  downloadAs (lit "banner.png").

End Banner.

(** ** The business-card page *)

Module BusinessCard.

Definition CARD_WIDTH : Q := 1050.
Definition CARD_HEIGHT : Q := 600.

Record CardPayload : Type := {
  brandName : jsstring;
  fullName : jsstring;
  role : jsstring;
  email : jsstring;
  phone : jsstring;
  website : jsstring;
  primary : jsstring;
  accent : jsstring;
  qrDataUrl : jsstring
}.

Definition createBusinessCard (env : Env) (p : CardPayload)
  : M Canvas jsstring :=
  call (SetWidth 1050) ;;
  call (SetHeight 600) ;;
  getContext env ;;

  call (CreateLinearGradient 0 0 CARD_WIDTH CARD_HEIGHT) ;;
  call (AddColorStop 0 0 (lit "#0B0B10")) ;;
  call (AddColorStop 0 1 (primary p)) ;;
  call (SetFillStyle (GradientRef 0)) ;;
  call (FillRect 0 0 CARD_WIDTH CARD_HEIGHT) ;;

  call Save ;;
  call (SetGlobalAlpha 0.3) ;;
  call (SetFillStyle (Color (accent p))) ;;
  call BeginPath ;;
  call (Ellipse (CARD_WIDTH * 0.82) (CARD_HEIGHT * 0.2) 240 140 0 0 2) ;;
  call Fill ;;
  call Restore ;;

  let panelX : Q := 70 in
  let panelY : Q := 70 in
  let panelWidth := CARD_WIDTH - 140 in
  let panelHeight := CARD_HEIGHT - 140 in

  drawRoundedRect panelX panelY panelWidth panelHeight 36 ;;
  call (SetFillStyle (Color (lit "#F9F6EF"))) ;;
  call Fill ;;

  call (SetLineWidth 3) ;;
  call (SetStrokeStyle (accent p)) ;;
  call Stroke ;;

  let rightWidth : Q := 300 in
  let rightX := panelX + panelWidth - rightWidth in

  call Save ;;
  drawRoundedRect panelX panelY panelWidth panelHeight 36 ;;
  call Clip ;;
  call (SetFillStyle (Color (lit "rgba(15, 23, 42, 0.06)"))) ;;
  call (FillRect rightX panelY rightWidth panelHeight) ;;
  call Restore ;;

  let textX := panelX + 90 in
  let textWidth := rightX - textX - 40 in

  let markSize : Q := 58 in
  let markX := panelX + 90 in
  let markY := panelY + 95 in

  call (SetFillStyle (Color (accent p))) ;;
  call BeginPath ;;
  call (Arc markX markY (markSize / 2) 0 2) ;;
  call Fill ;;

  call (SetFillStyle (Color (lit "#0B0B10"))) ;;
  call (SetFont (font_string 700 24 DISPLAY_FONT)) ;;
  call (SetTextAlign (lit "center")) ;;
  call (SetTextBaseline (lit "middle")) ;;
  call (FillText (getInitials env (brandName p)) markX (markY + 1)) ;;

  call (SetTextAlign (lit "left")) ;;
  call (SetTextBaseline (lit "alphabetic")) ;;
  call (SetFont (font_string 600 16 BODY_FONT)) ;;
  call (SetFillStyle (Color (lit "#0F172A"))) ;;
  call (FillText (brandName p) (markX + 50) (panelY + 102)) ;;

  drawFittedText env (fullName p) textWidth 44 DISPLAY_FONT 700 textX
    (panelY + 175) (lit "#0F172A") (lit "left") ;;

  call (SetFont (font_string 500 20 BODY_FONT)) ;;
  call (SetFillStyle (Color (lit "#475569"))) ;;
  call (FillText (role p) textX (panelY + 210)) ;;

  call (SetStrokeStyle (lit "rgba(15, 23, 42, 0.15)")) ;;
  call (SetLineWidth 1) ;;
  call BeginPath ;;
  call (MoveTo textX (panelY + 232)) ;;
  call (LineTo (rightX - 40) (panelY + 232)) ;;
  call Stroke ;;

  call (SetFont (font_string 500 18 BODY_FONT)) ;;
  call (SetFillStyle (Color (lit "#0F172A"))) ;;
  call (FillText (email p) textX (panelY + 270)) ;;

  call (SetFillStyle (Color (lit "#475569"))) ;;
  call (FillText (phone p) textX (panelY + 300)) ;;
  call (FillText (website p) textX (panelY + 330)) ;;

  let qrSize : Q := 200 in
  let qrX := rightX + (rightWidth - qrSize) / 2 in
  let qrY := panelY + 90 in

  drawRoundedRect (qrX - 18) (qrY - 18) (qrSize + 36) (qrSize + 36) 24 ;;
  call (SetFillStyle (Color (lit "#FFFFFF"))) ;;
  call Fill ;;
  call (SetStrokeStyle (lit "rgba(15, 23, 42, 0.12)")) ;;
  call (SetLineWidth 2) ;;
  call Stroke ;;

  qrImage <- loadImage env call (qrDataUrl p) ;;
  call (DrawImage qrImage qrX qrY qrSize qrSize) ;;

  call (SetFont (font_string 600 14 BODY_FONT)) ;;
  call (SetFillStyle (Color (lit "#0F172A"))) ;;
  call (SetTextAlign (lit "center")) ;;
  call (FillText (lit "Scan for contact") (rightX + rightWidth / 2)
          (qrY + qrSize + 40)) ;;

  toDataURL env (lit "image/png").

Record Form : Type := {
  f_brandName : jsstring;
  f_fullName : jsstring;
  f_role : jsstring;
  f_email : jsstring;
  f_phone : jsstring;
  f_website : jsstring;
  f_primaryColor : jsstring;
  f_accentColor : jsstring
}.

Definition normalizedPrimary (env : Env) (f : Form) : jsstring :=
  normalizeHex (unicodeUpper env) (f_primaryColor f) DEFAULT_PRIMARY.
Definition normalizedAccent (env : Env) (f : Form) : jsstring :=
  normalizeHex (unicodeUpper env) (f_accentColor f) DEFAULT_ACCENT.

Definition validationError : jsstring :=
  lit "Please enter a website URL to generate a QR code.".
Definition generationError : jsstring :=
  lit "Could not generate the business card. Please try again.".

Definition qrOptions : QrOptions :=
  {| qr_width := 240; qr_margin := 1;
     qr_dark := lit "#0F172A"; qr_light := lit "#FFFFFF" |}.

Definition payload (env : Env) (f : Form) (trimmedWebsite dataUrl : jsstring)
  : CardPayload :=
  {| brandName := or_else (trim (f_brandName f)) (lit "Your Brand");
     fullName := or_else (trim (f_fullName f)) (lit "Your Name");
     role := or_else (trim (f_role f)) (lit "Role");
     email := or_else (trim (f_email f)) (lit "hello@yourbrand.com");
     phone := or_else (trim (f_phone f)) (lit "+1 (555) 555-5555");
     website := trimmedWebsite;
     primary := normalizedPrimary env f;
     accent := normalizedAccent env f;
     qrDataUrl := dataUrl |}.

(** The body of the [try] block. *)
Definition generate (env : Env) (f : Form) (trimmedWebsite : jsstring)
  : M (Page (option jsstring)) unit :=
  awaitFonts env (font_string 700 44 DISPLAY_FONT)
                 (font_string 600 18 BODY_FONT) ;;
  dataUrl <- qrEncode env trimmedWebsite qrOptions ;;
  nextCard <- onNewCanvas
                (createBusinessCard env (payload env f trimmedWebsite dataUrl)) ;;
  setResult (Some nextCard).

Definition handleSubmit (env : Env) (f : Form)
  : M (Page (option jsstring)) unit :=
  emit PreventDefault ;;
  setError [] ;;
  let trimmedWebsite := trim (f_website f) in
  match trimmedWebsite with
  | [] => setError validationError
  | _ =>
      setLoading true ;;
      setResult None ;;
      try_catch_finally
        (generate env f trimmedWebsite)
        (setError generationError)
        (setLoading false)
  end.

(** [<form onSubmit={handleSubmit}>] with its [<Input type="email">],
    its [<Input type="url">] and its submit button, [disabled] while
    loading: what a click on the button does. *)
Definition form_submit (browser : Validity) (env : Env) (f : Form)
  : M (Page (option jsstring)) unit :=
  fun p =>
    if loading p then ret tt p
    else if input_ok (validEmail browser) (f_email f) &&
            input_ok (validUrl browser) (f_website f)
    then handleSubmit env f p
    else ret tt p.

Definition handleDownload : M (Page (option jsstring)) unit :=
  downloadAs (lit "business-card.png").

End BusinessCard.

(** ** The logo page *)

Module Logo.

Definition LOGO_WIDTH : Q := 1000.
Definition LOGO_HEIGHT : Q := 600.

Inductive Layout : Type := horizontal | stacked.
Inductive Tone : Type := light | dark.

Record LogoPayload : Type := {
  brandName : jsstring;
  tagline : jsstring;
  primary : jsstring;
  accent : jsstring;
  layout : Layout;
  tone : Tone
}.

Definition is_light (t : Tone) : bool :=
  match t with light => true | dark => false end.

Definition createLogo (env : Env) (p : LogoPayload) : M Canvas jsstring :=
  call (SetWidth 1000) ;;
  call (SetHeight 600) ;;
  getContext env ;;

  let background :=
    if is_light (tone p) then lit "#F9F6EF" else lit "#0B0B10" in
  let textColor :=
    if is_light (tone p) then lit "#0F172A" else lit "#F8F4E6" in
  let mutedColor :=
    if is_light (tone p) then lit "rgba(15, 23, 42, 0.6)"
    else lit "rgba(248, 244, 230, 0.7)" in
  let markText :=
    if is_light (tone p) then lit "#0B0B10" else lit "#F8F4E6" in
  let strokeColor :=
    if is_light (tone p) then lit "rgba(15, 23, 42, 0.15)"
    else lit "rgba(248, 244, 230, 0.2)" in

  call (SetFillStyle (Color background)) ;;
  call (FillRect 0 0 LOGO_WIDTH LOGO_HEIGHT) ;;

  call Save ;;
  call (SetGlobalAlpha (if is_light (tone p) then 0.2 else 0.15)) ;;
  call (SetFillStyle (Color (accent p))) ;;
  call BeginPath ;;
  call (Ellipse (LOGO_WIDTH * 0.75) (LOGO_HEIGHT * 0.2) 220 140 0 0 2) ;;
  call Fill ;;
  call Restore ;;

  let initials := getInitials env (brandName p) in
  let markSize : Q := 180 in
  call (CreateLinearGradient 0 0 markSize markSize) ;;
  call (AddColorStop 0 0 (accent p)) ;;
  call (AddColorStop 0 1 (primary p)) ;;

  match layout p with
  | horizontal =>
      let markX : Q := 220 in
      let markY := LOGO_HEIGHT / 2 in

      call (SetFillStyle (GradientRef 0)) ;;
      call BeginPath ;;
      call (Arc markX markY (markSize / 2) 0 2) ;;
      call Fill ;;

      call (SetLineWidth 6) ;;
      call (SetStrokeStyle strokeColor) ;;
      call Stroke ;;

      call (SetFillStyle (Color markText)) ;;
      call (SetFont (font_string 700 64 DISPLAY_FONT)) ;;
      call (SetTextAlign (lit "center")) ;;
      call (SetTextBaseline (lit "middle")) ;;
      call (FillText initials markX (markY + 2)) ;;

      let textX := markX + markSize / 2 + 60 in
      let textWidth := LOGO_WIDTH - textX - 80 in

      drawFittedText env (brandName p) textWidth 56 DISPLAY_FONT 700 textX
        (LOGO_HEIGHT / 2 - 10) textColor (lit "left") ;;

      match tagline p with
      | [] => ret tt
      | _ =>
          call (SetFont (font_string 500 20 BODY_FONT)) ;;
          call (SetFillStyle (Color mutedColor)) ;;
          call (SetTextAlign (lit "left")) ;;
          call (SetTextBaseline (lit "alphabetic")) ;;
          call (FillText (tagline p) textX (LOGO_HEIGHT / 2 + 26))
      end
  | stacked =>
      let markX := LOGO_WIDTH / 2 in
      let markY : Q := 220 in

      call (SetFillStyle (GradientRef 0)) ;;
      call BeginPath ;;
      call (Arc markX markY (markSize / 2) 0 2) ;;
      call Fill ;;

      call (SetLineWidth 6) ;;
      call (SetStrokeStyle strokeColor) ;;
      call Stroke ;;

      call (SetFillStyle (Color markText)) ;;
      call (SetFont (font_string 700 64 DISPLAY_FONT)) ;;
      call (SetTextAlign (lit "center")) ;;
      call (SetTextBaseline (lit "middle")) ;;
      call (FillText initials markX (markY + 2)) ;;

      drawFittedText env (brandName p) (LOGO_WIDTH - 160) 58 DISPLAY_FONT 700
        (LOGO_WIDTH / 2) 360 textColor (lit "center") ;;

      match tagline p with
      | [] => ret tt
      | _ =>
          call (SetFont (font_string 500 20 BODY_FONT)) ;;
          call (SetFillStyle (Color mutedColor)) ;;
          call (SetTextAlign (lit "center")) ;;
          call (SetTextBaseline (lit "alphabetic")) ;;
          call (FillText (tagline p) (LOGO_WIDTH / 2) 392)
      end
  end ;;

  toDataURL env (lit "image/png").

Record Form : Type := {
  f_brandName : jsstring;
  f_tagline : jsstring;
  f_layout : Layout;
  f_tone : Tone;
  f_primaryColor : jsstring;
  f_accentColor : jsstring
}.

Definition normalizedPrimary (env : Env) (f : Form) : jsstring :=
  normalizeHex (unicodeUpper env) (f_primaryColor f) DEFAULT_PRIMARY.
Definition normalizedAccent (env : Env) (f : Form) : jsstring :=
  normalizeHex (unicodeUpper env) (f_accentColor f) DEFAULT_ACCENT.

Definition generationError : jsstring :=
  lit "Could not generate the logo. Please try again.".

Definition payload (env : Env) (f : Form) : LogoPayload :=
  {| brandName := or_else (trim (f_brandName f)) (lit "Your Brand");
     tagline := trim (f_tagline f);
     primary := normalizedPrimary env f;
     accent := normalizedAccent env f;
     layout := f_layout f;
     tone := f_tone f |}.

(** The body of the [try] block. *)
Definition generate (env : Env) (f : Form)
  : M (Page (option jsstring)) unit :=
  awaitFonts env (font_string 700 58 DISPLAY_FONT)
                 (font_string 500 20 BODY_FONT) ;;
  nextLogo <- onNewCanvas (createLogo env (payload env f)) ;;
  setResult (Some nextLogo).

Definition handleSubmit (env : Env) (f : Form)
  : M (Page (option jsstring)) unit :=
  emit PreventDefault ;;
  setError [] ;;
  setLoading true ;;
  setResult None ;;
  try_catch_finally
    (generate env f)
    (setError generationError)
    (setLoading false).

Definition handleDownload : M (Page (option jsstring)) unit :=
  downloadAs (lit "logo.png").

End Logo.

(** ** Vocabulary of the statements *)

(** A string matching [^#[0-9a-fA-F]{6}$]. *)
Definition HexColor (s : jsstring) : Prop :=
  exists digits,
    s = hash :: digits /\ List.length digits = 6%nat /\
    Forall (fun u => is_hex_digit u = true) digits.

(** A string matching [^#[0-9A-F]{6}$]. *)
Definition UpperHexColor (s : jsstring) : Prop :=
  exists digits,
    s = hash :: digits /\ List.length digits = 6%nat /\
    Forall (fun u => is_upper_hex_digit u = true) digits.

(** What one run of the shrink loop returns, appends to the call log and
    leaves as current font; by [shrinkLoop_run] none of the three depends
    on the canvas the loop starts from, except that a loop that never
    enters its body leaves the font it found. *)
Definition loop_final (env : Env) (text : jsstring) (maxWidth : Q)
  (fontFamily : jsstring) (fontWeight size : Z) : Z :=
  match fst (shrinkLoop env text maxWidth fontFamily fontWeight size newCanvas) with
  | Ok n => n
  | Throw _ => size
  end.

Definition loop_calls (env : Env) (text : jsstring) (maxWidth : Q)
  (fontFamily : jsstring) (fontWeight size : Z) : list Call :=
  calls (snd (shrinkLoop env text maxWidth fontFamily fontWeight size newCanvas)).

Definition loop_font (env : Env) (text : jsstring) (maxWidth : Q)
  (fontFamily : jsstring) (fontWeight size : Z) (before : jsstring)
  : jsstring :=
  if Z_lt_dec 14 size
  then font (snd (shrinkLoop env text maxWidth fontFamily fontWeight size newCanvas))
  else before.

(** Classes of calls. *)
Definition is_text_probe (c : Call) : bool :=
  match c with SetFont _ | MeasureText _ => true | _ => false end.

Definition is_resize (c : Call) : bool :=
  match c with SetWidth _ | SetHeight _ => true | _ => false end.

Definition is_image_or_export (c : Call) : bool :=
  match c with
  | LoadImage _ | DrawImage _ _ _ _ _ | ToDataURL _ => true
  | _ => false
  end.

Definition is_draw_image (c : Call) : bool :=
  match c with DrawImage _ _ _ _ _ => true | _ => false end.

Definition is_export (c : Call) : bool :=
  match c with ToDataURL _ => true | _ => false end.


Definition png : jsstring := lit "image/png".

(** An environment in which every text is 2000 pixels wide, whatever the
    font: nothing fits a 1020-pixel column. *)
Definition wide_env : Env :=
  {| unicodeUpper := fun s => s;
     unicodeLower := fun s => s;
     toNumber := fun _ => NaN;
     fontsApi := true;
     fontsLoad := fun _ => true;
     qrToDataURL := fun text _ => Some (lit "data:image/png;qr," ++ text);
     context2d := true;
     measureText := fun _ _ => 2000;
     imageLoads := fun _ => true;
     canvasToDataURL := fun cv _ => lit "data:image/png;" ++ of_Z (width cv) |}.

(** The page state once a validated submission has cleared the error,
    raised the loading flag and cleared the previous result. *)
Definition started {R} (cleared : R) (p : Page R) : Page R :=
  {| error := [];
     loading := true;
     result := cleared;
     events := events p ++
               [PreventDefault; SetError []; SetLoading true; SetResult cleared] |}.

(** The page state after a submission whose URL field trims to the empty
    string. *)
Definition rejected {R} (message : jsstring) (p : Page R) : Page R :=
  {| error := message;
     loading := loading p;
     result := result p;
     events := events p ++ [PreventDefault; SetError []; SetError message] |}.

(** Events that are not QR encodings of anything but [text]. *)
Definition encodes_only {R} (text : jsstring) (e : Event R) : Prop :=
  match e with
  | QrToDataURL t _ => t = text
  | SetError _ | SetLoading _ | CreateLink | SetHref _ | SetDownload _
  | Click | PreventDefault => False
  | _ => True
  end.

(** [m] leaves the three state cells alone and only appends events that
    satisfy [P]. *)
Definition quiet {R A} (P : Event R -> Prop) (m : M (Page R) A) : Prop :=
  forall p,
    error (snd (m p)) = error p /\
    loading (snd (m p)) = loading p /\
    result (snd (m p)) = result p /\
    exists es, events (snd (m p)) = events p ++ es /\ Forall P es.

(** [m] is quiet except that it may set the result, and then only when it
    returns normally. *)
Definition sets_result_on_return {R A} (P : Event R -> Prop)
  (m : M (Page R) A) : Prop :=
  forall p,
    error (snd (m p)) = error p /\
    loading (snd (m p)) = loading p /\
    (forall e, fst (m p) = Throw e -> result (snd (m p)) = result p) /\
    exists es, events (snd (m p)) = events p ++ es /\ Forall P es.

(** A browser without a 2D canvas context. *)
Definition no_canvas_env : Env :=
  {| unicodeUpper := fun s => s;
     unicodeLower := fun s => s;
     toNumber := fun _ => Finite 300;
     fontsApi := true;
     fontsLoad := fun _ => true;
     qrToDataURL := fun text _ => Some (lit "data:image/png;qr," ++ text);
     context2d := false;
     measureText := fun _ text => inject_Z (9 * str_length text);
     imageLoads := fun _ => true;
     canvasToDataURL := fun cv _ => lit "data:image/png;" ++ of_Z (width cv) |}.

(** A browser in which everything works and a glyph is 9 pixels wide at
    any size. *)
Definition plain_env : Env :=
  {| unicodeUpper := fun s => s;
     unicodeLower := fun s => s;
     toNumber := fun _ => Finite 300;
     fontsApi := true;
     fontsLoad := fun _ => true;
     qrToDataURL := fun text _ => Some (lit "data:image/png;qr," ++ text);
     context2d := true;
     measureText := fun _ text => inject_Z (9 * str_length text);
     imageLoads := fun _ => true;
     canvasToDataURL := fun cv _ => lit "data:image/png;" ++ of_Z (width cv) |}.

(** The browser of [plain_env] with an encoder that rejects the request
    of the first poster template of the default colours and answers
    every other one. *)
Definition choosy_env : Env :=
  {| unicodeUpper := fun s => s;
     unicodeLower := fun s => s;
     toNumber := fun _ => Finite 300;
     fontsApi := true;
     fontsLoad := fun _ => true;
     qrToDataURL := fun text options =>
       if str_eqb (qr_dark options)
            (Poster.mixHex plain_env DEFAULT_PRIMARY (lit "#101010") 0.4)
       then None
       else Some (lit "data:image/png;qr," ++ text);
     context2d := true;
     measureText := fun _ text => inject_Z (9 * str_length text);
     imageLoads := fun _ => true;
     canvasToDataURL := fun cv _ => lit "data:image/png;" ++ of_Z (width cv) |}.


(** A page at rest showing [r]. *)
Definition idle {R} (r : R) : Page R :=
  {| error := []; loading := false; result := r; events := [] |}.

Definition poster_form (url : jsstring) : Poster.Form :=
  {| Poster.f_url := url;
     Poster.f_brandName := lit "Site2QR Studio";
     Poster.f_tagline := lit "Scan to connect";
     Poster.f_primaryColor := DEFAULT_PRIMARY;
     Poster.f_accentColor := DEFAULT_ACCENT;
     Poster.f_size := lit "260";
     Poster.f_logoUrl := None |}.

Definition banner_form (url : jsstring) : Banner.Form :=
  {| Banner.f_brandName := lit "Site2QR Studio";
     Banner.f_headline := lit "Instant QR banners";
     Banner.f_subheadline :=
       lit "Turn walk-bys into visitors with a scannable banner.";
     Banner.f_cta := lit "Scan to explore";
     Banner.f_url := url;
     Banner.f_primaryColor := DEFAULT_PRIMARY;
     Banner.f_accentColor := DEFAULT_ACCENT |}.


Definition logo_form : Logo.Form :=
  {| Logo.f_brandName := lit "Site2QR";
     Logo.f_tagline := lit "Scan. Share. Shine.";
     Logo.f_layout := Logo.horizontal;
     Logo.f_tone := Logo.light;
     Logo.f_primaryColor := DEFAULT_PRIMARY;
     Logo.f_accentColor := DEFAULT_ACCENT |}.

(** A finished [create*] run on a canvas of fixed size [W] x [H]: the
    canvas it leaves has that size, the only assignments to
    [canvas.width] and [canvas.height] in the whole run are the two
    initial ones, and the canvas handed to the PNG encoder has that size. *)
Definition fixed_size (env : Env) (run : outcome jsstring * Canvas)
  (W H : Z) : Prop :=
  width (snd run) = W /\
  height (snd run) = H /\
  filter is_resize (calls (snd run)) = [SetWidth W; SetHeight H] /\
  forall r, fst run = Ok r ->
    exists exported,
      r = canvasToDataURL env exported png /\
      width exported = W /\ height exported = H.


(** The events of the font-loading block and whether it returns. *)
Definition font_events {R} (env : Env) (display body : jsstring)
  : list (Event R) :=
  if fontsApi env
  then [AwaitFontsReady; FontsLoad display; FontsLoad body]
  else [].

Definition fonts_ok (env : Env) (display body : jsstring) : bool :=
  negb (fontsApi env) || (fontsLoad env display && fontsLoad env body).

Definition with_events {R} (p : Page R) (es : list (Event R)) : Page R :=
  {| error := error p; loading := loading p; result := result p;
     events := events p ++ es |}.

Definition with_result {R} (p : Page R) (r : R) (es : list (Event R))
  : Page R :=
  {| error := error p; loading := loading p; result := r;
     events := events p ++ es |}.

(** *** A banner or business-card submission in closed form *)


(** The page a validated submission leaves, from what its generation
    did. *)
Definition submitted {R} (cleared : R) (message : jsstring) (p : Page R)
  (generation : outcome R * list (Event R)) : Page R :=
  {| error := match fst generation with Ok _ => [] | Throw _ => message end;
     loading := false;
     result := match fst generation with Ok r => r | Throw _ => cleared end;
     events :=
       events p ++
       [PreventDefault; SetError []; SetLoading true; SetResult cleared] ++
       snd generation ++
       match fst generation with
       | Ok r => [SetResult r]
       | Throw _ => [SetError message]
       end ++
       [SetLoading false] |}.


(** *** A poster submission, task by task *)

(** The payload [handleSubmit] of the poster page hands to
    [createPoster] for template [t] once the encoder has answered
    [dataUrl]. *)
Definition submitted_poster (env : Env) (f : Poster.Form) (text : jsstring)
  (logo : option Image) (t : Poster.PosterTemplate) (dataUrl : jsstring)
  : Poster.PosterPayload :=
  {| Poster.template := t;
     Poster.brandName := or_else (trim (Poster.f_brandName f)) (lit "Your Brand");
     Poster.tagline := or_else (trim (Poster.f_tagline f)) (lit "Scan to connect");
     Poster.url := text;
     Poster.qrSize := Poster.resolveQrSize (toNumber env (Poster.f_size f));
     Poster.qrDataUrl := dataUrl;
     Poster.logoImage := logo |}.

(** The poster run of template [t], if the encoder answered. *)
Definition poster_run (env : Env) (f : Poster.Form) (text : jsstring)
  (logo : option Image) (t : Poster.PosterTemplate)
  : option (outcome jsstring * Canvas) :=
  match qrToDataURL env text
          (Poster.qrOptions
             (Poster.resolveQrSize (toNumber env (Poster.f_size f))) t) with
  | Some dataUrl =>
      Some (Poster.createPoster env
              (submitted_poster env f text logo t dataUrl) newCanvas)
  | None => None
  end.

(** What the task of template [t] settles to. *)
Definition poster_result (env : Env) (f : Poster.Form) (text : jsstring)
  (logo : option Image) (t : Poster.PosterTemplate)
  : outcome Poster.PosterResult :=
  match poster_run env f text logo t with
  | Some (Ok png, _) =>
      Ok {| Poster.res_id := Poster.id t; Poster.res_name := Poster.name t;
            Poster.res_description := Poster.description t;
            Poster.posterUrl := png |}
  | Some (Throw e, _) => Throw e
  | None => Throw (lit "QR encoding rejected")
  end.

(** The canvas event of the task of template [t]: none when the encoder
    rejected. *)
Definition poster_canvas (env : Env) (f : Poster.Form) (text : jsstring)
  (logo : option Image) (t : Poster.PosterTemplate)
  : list (Event (list Poster.PosterResult)) :=
  match poster_run env f text logo t with
  | Some (_, cv) => [CanvasRun cv]
  | None => []
  end.

(** The requests of a poster submission: one per template, in order. *)
Definition poster_requests_of (env : Env) (f : Poster.Form) (text : jsstring)
  : list (Event (list Poster.PosterResult)) :=
  map (fun t =>
         QrToDataURL text
           (Poster.qrOptions
              (Poster.resolveQrSize (toNumber env (Poster.f_size f))) t))
      (Poster.templates env f).

(** The logo a poster submission loads, if it gets that far. *)
Definition poster_logo (env : Env) (f : Poster.Form) : outcome (option Image) :=
  match Poster.f_logoUrl f with
  | Some (c :: rest) =>
      if imageLoads env (c :: rest)
      then Ok (Some {| src := c :: rest |})
      else Throw (lit "Image failed to load")
  | _ => Ok None
  end.

(** The events of the steps before the templates are gone through. *)
Definition poster_setup (env : Env) (f : Poster.Form)
  : list (Event (list Poster.PosterResult)) :=
  font_events env (font_string 700 48 DISPLAY_FONT)
                  (font_string 500 20 BODY_FONT) ++
  if fonts_ok env (font_string 700 48 DISPLAY_FONT)
                  (font_string 500 20 BODY_FONT)
  then match Poster.f_logoUrl f with
       | Some (c :: rest) => [PageCall (LoadImage (c :: rest))]
       | _ => []
       end
  else [].

(** The outcome and the events of the body of the [try] block of the
    poster page. *)
Definition poster_generation (env : Env) (f : Poster.Form) (text : jsstring)
  : outcome (list Poster.PosterResult) *
    list (Event (list Poster.PosterResult)) :=
  if fonts_ok env (font_string 700 48 DISPLAY_FONT)
                  (font_string 500 20 BODY_FONT)
  then
    match poster_logo env f with
    | Ok logo =>
        (all_of (map (poster_result env f text logo) (Poster.templates env f)),
         poster_setup env f ++ poster_requests_of env f text ++
         flat_map (poster_canvas env f text logo) (Poster.templates env f))
    | Throw e => (Throw e, poster_setup env f)
    end
  else (Throw (lit "font load rejected"), poster_setup env f).

(** A PNG data URL that embeds the QR code of [text]: it is the export of
    a canvas on which the image the encoder returned for [text] had been
    loaded and drawn, as a square, as the last image before the export. *)
Definition embeds_qr (env : Env) (text : jsstring) (options : QrOptions)
  (cv : Canvas) (dataUrl : jsstring) : Prop :=
  exists qr before earlier x y s,
    qrToDataURL env text options = Some qr /\
    cv = log (ToDataURL png) before /\
    dataUrl = canvasToDataURL env before png /\
    filter is_image_or_export (calls before) =
      earlier ++ [LoadImage qr; DrawImage {| src := qr |} x y s s] /\
    forallb is_draw_image earlier = true.

(** A sequence of generation rounds for [text]: each round asks the QR
    encoder for [text] and then runs a canvas that draws the answer and
    is exported last. *)
Inductive rounds {R} (env : Env) (text : jsstring)
  : list (Event R) -> list jsstring -> Prop :=
| rounds_nil : rounds env text [] []
| rounds_cons options cv dataUrl rest urls :
    embeds_qr env text options cv dataUrl ->
    rounds env text rest urls ->
    rounds env text (QrToDataURL text options :: CanvasRun cv :: rest)
      (dataUrl :: urls).

(** The canvases of a batch of requests: one canvas per request, in the
    order of the requests, each embedding the answer to its own
    request. *)
Inductive embedded {R} (env : Env) (text : jsstring)
  : list QrOptions -> list (Event R) -> list jsstring -> Prop :=
| embedded_nil : embedded env text [] [] []
| embedded_cons options requests cv canvases dataUrl urls :
    embeds_qr env text options cv dataUrl ->
    embedded env text requests canvases urls ->
    embedded env text (options :: requests) (CanvasRun cv :: canvases)
      (dataUrl :: urls).

Definition is_qr_event {R} (e : Event R) : bool :=
  match e with QrToDataURL _ _ => true | _ => false end.

Definition is_download_event {R} (e : Event R) : bool :=
  match e with
  | CreateLink | SetHref _ | SetDownload _ | Click => true
  | _ => false
  end.

Definition is_setup_event {R} (e : Event R) : bool :=
  match e with
  | AwaitFontsReady | FontsLoad _ | PageCall _ => true
  | _ => false
  end.

(** The trace of a submission that passed validation and whose
    generation returned: the four state updates of the preamble, the
    font (and logo) loading, then [n] rounds for [text], then the result
    and the loading flag. *)
Definition generation_sequence {R} (env : Env) (text : jsstring)
  (cleared : R) (n : nat) (holds : list jsstring -> R -> Prop)
  (p final : Page R) : Prop :=
  exists setup es urls r,
    events final =
      events p ++
      [PreventDefault; SetError []; SetLoading true; SetResult cleared] ++
      setup ++ es ++ [SetResult r; SetLoading false] /\
    forallb is_setup_event setup = true /\
    rounds env text es urls /\
    List.length urls = n /\
    result final = r /\
    holds urls r.

(** The trace of a validated submission of the poster page whose
    generation returned: the four state updates of the preamble, the
    font (and logo) loading, then the [n] requests to the QR encoder for
    [text], all of them before the first canvas, then the [n] canvases,
    then the result and the loading flag. *)
Definition batch_sequence {R} (env : Env) (text : jsstring)
  (cleared : R) (n : nat) (holds : list jsstring -> R -> Prop)
  (p final : Page R) : Prop :=
  exists setup requests canvases urls r,
    events final =
      events p ++
      [PreventDefault; SetError []; SetLoading true; SetResult cleared] ++
      setup ++ map (QrToDataURL text) requests ++ canvases ++
      [SetResult r; SetLoading false] /\
    forallb is_setup_event setup = true /\
    embedded env text requests canvases urls /\
    List.length urls = n /\
    result final = r /\
    holds urls r.

(** What a submit handler appended to the trace contains no step of a
    download. *)
Definition never_downloads {R} (p final : Page R) : Prop :=
  exists es,
    events final = events p ++ es /\
    forallb (fun e => negb (is_download_event e)) es = true.

(** A poster payload for the first template with a QR code of the given
    size. *)
Definition poster_payload (size : Q) : Poster.PosterPayload :=
  {| Poster.template :=
       hd {| Poster.id := []; Poster.name := []; Poster.description := [];
             Poster.cta := [];
             Poster.palette :=
               {| Poster.background := []; Poster.backgroundAlt := [];
                  Poster.frame := []; Poster.text := []; Poster.muted := [];
                  Poster.accent := []; Poster.glow := []; Poster.card := [];
                  Poster.cardBorder := []; Poster.qrDark := [];
                  Poster.qrLight := [] |} |}
          (Poster.buildTemplates plain_env DEFAULT_PRIMARY DEFAULT_ACCENT);
     Poster.brandName := lit "Site2QR Studio";
     Poster.tagline := lit "Scan to connect";
     Poster.url := lit "https://site2qr.com";
     Poster.qrSize := size;
     Poster.qrDataUrl := lit "data:image/png;qr,https://site2qr.com";
     Poster.logoImage := None |}.






(** Two environments in which a compositing routine sees the same
    browser: the same answers from [measureText], the same availability
    of the 2D context, the same image decoding, case mapping and PNG
    encoder.  Everything else (fonts, QR encoder, number parsing) may
    differ. *)
Definition same_canvas_platform (e1 e2 : Env) : Prop :=
  (forall f t, measureText e1 f t = measureText e2 f t) /\
  context2d e1 = context2d e2 /\
  (forall s, imageLoads e1 s = imageLoads e2 s) /\
  (forall s, unicodeUpper e1 s = unicodeUpper e2 s) /\
  (forall cv mime, canvasToDataURL e1 cv mime = canvasToDataURL e2 cv mime).

(** [plain_env] with another font loader and QR encoder. *)
Definition other_page_env : Env :=
  {| unicodeUpper := fun s => s;
     unicodeLower := fun s => rev s;
     toNumber := fun _ => NaN;
     fontsApi := false;
     fontsLoad := fun _ => false;
     qrToDataURL := fun _ _ => None;
     context2d := true;
     measureText := fun _ text => inject_Z (9 * str_length text);
     imageLoads := fun _ => true;
     canvasToDataURL := fun cv _ => lit "data:image/png;" ++ of_Z (width cv) |}.

Definition banner_payload : Banner.BannerPayload :=
  Banner.payload plain_env (banner_form (lit "https://site2qr.com"))
    (lit "https://site2qr.com") (lit "data:image/png;qr,https://site2qr.com").

(** Whether [text] fits [maxWidth] at a given size. *)
Definition fits (env : Env) (text : jsstring) (maxWidth : Q)
  (fontFamily : jsstring) (fontWeight size : Z) : bool :=
  Qle_bool (measureText env (font_string fontWeight size fontFamily) text)
    maxWidth.

(** The coordinates a call draws at, if it draws. *)
Definition geometry (c : Call) : list (list Q) :=
  match c with
  | CreateLinearGradient x0 y0 x1 y1 => [[x0; y0; x1; y1]]
  | MoveTo x y | LineTo x y => [[x; y]]
  | QuadraticCurveTo cpx cpy x y => [[cpx; cpy; x; y]]
  | Arc x y r a0 a1 => [[x; y; r; a0; a1]]
  | Ellipse x y rx ry rot a0 a1 => [[x; y; rx; ry; rot; a0; a1]]
  | FillRect x y w h | StrokeRect x y w h => [[x; y; w; h]]
  | FillText _ x y => [[x; y]]
  | DrawImage _ x y w h => [[x; y; w; h]]
  | _ => []
  end.

(** The layout of a run: the coordinates of its drawing calls, in
    order. *)
Definition layout_of (cs : list Call) : list (list Q) := flat_map geometry cs.

(** ** Vocabulary of the further properties *)

(** The code units [0 .. n-1]. *)
Definition units_below (n : nat) : list code_unit := map N.of_nat (seq 0 n).

(** A pair of hex digits parses to a channel value in [0, 255] that
    prints back, upper-cased, as the same two digits upper-cased. *)
Definition channel_parses (u1 u2 : code_unit) : bool :=
  implb (is_hex_digit u1 && is_hex_digit u2)
    match Poster.parseInt16 [u1; u2] with
    | Some v =>
        (0 <=? v)%Z && (v <=? 255)%Z &&
        forallb is_ascii (Poster.toHex (Some v)) &&
        str_eqb (map ascii_upper (Poster.toHex (Some v)))
                [ascii_upper u1; ascii_upper u2]
    | None => false
    end.

(** A channel value in [0, 255] prints as two ASCII units whose upper
    case are upper-case hex digits that parse back to the value. *)
Definition channel_prints (n : code_unit) : bool :=
  match Poster.toHex (Some (Z.of_N n)) with
  | [a; b] =>
      is_ascii a && is_ascii b &&
      is_upper_hex_digit (ascii_upper a) &&
      is_upper_hex_digit (ascii_upper b) &&
      match Poster.parseInt16 [ascii_upper a; ascii_upper b] with
      | Some v => (v =? Z.of_N n)%Z
      | None => false
      end
  | _ => false
  end.

(** What the theorems on [mixHex_fl] ask of the rounding [fl] of a
    floating-point operation: it is monotone, and it leaves the integers
    between -255 and 255 as they are.  Rounding to the nearest double is
    such a function. *)
Definition monotone (fl : Q -> Q) : Prop :=
  forall x y, x <= y -> fl x <= fl y.

Definition keeps_small_integers (fl : Q -> Q) : Prop :=
  forall n : Z, (-255 <= n <= 255)%Z -> fl (inject_Z n) == inject_Z n.

(** Rounding to the nearest multiple of 1/16, halves upwards. *)
Definition to_sixteenth (q : Q) : Q :=
  inject_Z (Qfloor (q * 16 + (1 # 2))) / 16.

(** Every colour of a palette is a well-formed upper-case hex colour. *)
Definition palette_well_formed (pal : Poster.Palette) : Prop :=
  UpperHexColor (Poster.background pal) /\
  UpperHexColor (Poster.backgroundAlt pal) /\
  UpperHexColor (Poster.frame pal) /\
  UpperHexColor (Poster.text pal) /\
  UpperHexColor (Poster.muted pal) /\
  UpperHexColor (Poster.accent pal) /\
  UpperHexColor (Poster.glow pal) /\
  UpperHexColor (Poster.card pal) /\
  UpperHexColor (Poster.cardBorder pal) /\
  UpperHexColor (Poster.qrDark pal) /\
  UpperHexColor (Poster.qrLight pal).

(** A channel of [hexToRgb] that is a number in [0, 255]. *)
Definition channel_in_range (c : option Z) : Prop :=
  exists v, c = Some v /\ (0 <= v <= 255)%Z.

(** The points a path call names: end points and control points. *)
Definition path_points (c : Call) : list (Q * Q) :=
  match c with
  | MoveTo x y | LineTo x y => [(x, y)]
  | QuadraticCurveTo cpx cpy x y => [(cpx, cpy); (x, y)]
  | _ => []
  end.

(** A point of the rectangle with corner [(x, y)] and sides [w], [h]. *)
Definition in_box (x y w h : Q) (pt : Q * Q) : Prop :=
  x <= fst pt /\ fst pt <= x + w /\ y <= snd pt /\ snd pt <= y + h.

(** The point a path starts from and the point it has reached. *)
Definition path_start (cs : list Call) : option (Q * Q) :=
  match cs with
  | BeginPath :: MoveTo x y :: _ => Some (x, y)
  | _ => None
  end.

Fixpoint path_end (cs : list Call) (at_ : option (Q * Q)) : option (Q * Q) :=
  match cs with
  | [] => at_
  | MoveTo x y :: cs' | LineTo x y :: cs'
  | QuadraticCurveTo _ _ x y :: cs' => path_end cs' (Some (x, y))
  | _ :: cs' => path_end cs' at_
  end.

(** The texts a run prints, in order. *)
Definition text_of (c : Call) : list jsstring :=
  match c with FillText t _ _ => [t] | _ => [] end.

Definition texts (cs : list Call) : list jsstring := flat_map text_of cs.

(** The depth of the state stack after a list of calls, from depth [d];
    [None] when a [restore] finds the stack empty. *)
Fixpoint depth_after (cs : list Call) (d : nat) : option nat :=
  match cs with
  | [] => Some d
  | Save :: cs' => depth_after cs' (S d)
  | Restore :: cs' =>
      match d with
      | O => None
      | S d' => depth_after cs' d'
      end
  | _ :: cs' => depth_after cs' d
  end.

Definition is_save_restore (c : Call) : bool :=
  match c with Save | Restore => true | _ => false end.












(** Every text a canvas run printed is non-empty. *)
Definition prints_no_blank {R} (e : Event R) : Prop :=
  match e with
  | CanvasRun cv => Forall (fun t => t <> []) (texts (calls cv))
  | _ => True
  end.


(** ** The uploaded logo of the poster page

    [handleLogoChange], [handleLogoClear] and the cleanup of the effect
    on [logoUrl], over the browser's store of object URLs. *)

Module LogoUpload.

Inductive UrlCall : Type :=
| CreateObjectURL (u : jsstring)
| RevokeObjectURL (u : jsstring).

(** [logoUrl] is the React state; [live] holds the object URLs created
    and not yet revoked; [minted] counts the calls of
    [URL.createObjectURL]. *)
Record Urls : Type := {
  logoUrl : option jsstring;
  live : list jsstring;
  minted : nat;
  url_calls : list UrlCall
}.

Definition initial : Urls :=
  {| logoUrl := None; live := []; minted := 0; url_calls := [] |}.

(** [URL.revokeObjectURL(u)]; revoking a URL that is not live is
    harmless. *)
Definition revokeObjectURL (u : jsstring) (st : Urls) : Urls :=
  {| logoUrl := logoUrl st;
     live := filter (fun v => negb (str_eqb v u)) (live st);
     minted := minted st;
     url_calls := url_calls st ++ [RevokeObjectURL u] |}.

(** [if (previous) { URL.revokeObjectURL(previous); }]: [null] and the
    empty string are falsy. *)
Definition revoke_if (previous : option jsstring) (st : Urls) : Urls :=
  match previous with
  | Some (c :: rest) => revokeObjectURL (c :: rest) st
  | _ => st
  end.

Definition same_url (a b : option jsstring) : bool :=
  match a, b with
  | None, None => true
  | Some u, Some v => str_eqb u v
  | _, _ => false
  end.

(** [setLogoUrl((previous) => { if (previous) revoke; return next; })],
    followed by what React does when the state has changed: the cleanup
    of the effect registered for the old [logoUrl] runs, with the old
    value. *)
Definition setLogoUrl (next : option jsstring) (st : Urls) : Urls :=
  let previous := logoUrl st in
  let st1 := revoke_if previous st in
  let st2 := {| logoUrl := next; live := live st1; minted := minted st1;
                url_calls := url_calls st1 |} in
  if same_url previous next then st2 else revoke_if previous st2.

(** [handleLogoChange]: [file] tells whether [event.target.files?.[0]]
    is a file; [objectUrl n] is the URL the browser mints at its [n]-th
    call. *)
Definition handleLogoChange (objectUrl : nat -> jsstring) (file : bool)
  (st : Urls) : Urls :=
  if file then
    let u := objectUrl (minted st) in
    setLogoUrl (Some u)
      {| logoUrl := logoUrl st; live := u :: live st;
         minted := S (minted st);
         url_calls := url_calls st ++ [CreateObjectURL u] |}
  else st.

Definition handleLogoClear (st : Urls) : Urls := setLogoUrl None st.

(** The cleanup of the effect when the component unmounts. *)
Definition unmount (st : Urls) : Urls := revoke_if (logoUrl st) st.

Inductive Action : Type :=
| LogoChange (file : bool)
| LogoClear.

Definition act (objectUrl : nat -> jsstring) (a : Action) (st : Urls) : Urls :=
  match a with
  | LogoChange file => handleLogoChange objectUrl file st
  | LogoClear => handleLogoClear st
  end.

Definition run (objectUrl : nat -> jsstring) (actions : list Action)
  (st : Urls) : Urls :=
  fold_left (fun s a => act objectUrl a s) actions st.

(** What is live is exactly the logo in use, and that one was minted. *)
Definition tidy (objectUrl : nat -> jsstring) (st : Urls) : Prop :=
  live st = match logoUrl st with Some u => [u] | None => [] end /\
  match logoUrl st with
  | Some u => exists k, (k < minted st)%nat /\ u = objectUrl k
  | None => True
  end.

End LogoUpload.


(** The texts a run prints, with the point each is printed at. *)
Definition text_line (c : Call) : list (jsstring * Q * Q) :=
  match c with FillText t x y => [(t, x, y)] | _ => [] end.

Definition text_lines (cs : list Call) : list (jsstring * Q * Q) :=
  flat_map text_line cs.

(** * Proofs *)

Unset Implicit Arguments.

(** ** The monad *)

Lemma bind_ok {S A B} (m : M S A) (k : A -> M S B) s a s' :
  m s = (Ok a, s') -> bind m k s = k a s'.
Proof. intros H. unfold bind. rewrite H. reflexivity. Qed.

Lemma bind_throw {S A B} (m : M S A) (k : A -> M S B) s e s' :
  m s = (Throw e, s') -> bind m k s = (Throw e, s').
Proof. intros H. unfold bind. rewrite H. reflexivity. Qed.

(** ** The shrink loop *)

Lemma shrinkLoop_step env text maxWidth fontFamily fontWeight size cv :
  shrinkLoop env text maxWidth fontFamily fontWeight size cv =
  if Z_lt_dec 14 size then
    let f := font_string fontWeight size fontFamily in
    let cv1 := log (SetFont f) (apply_call (SetFont f) cv) in
    let cv2 := log (MeasureText text) cv1 in
    if Qle_bool (measureText env f text) maxWidth
    then (Ok size, cv2)
    else shrinkLoop env text maxWidth fontFamily fontWeight (size - 2) cv2
  else (Ok size, cv).
Proof.
  simp shrinkLoop. destruct (Z_lt_dec 14 size); reflexivity.
Qed.

(** The loop returns; what it returns and appends does not depend on the
    canvas it starts from, and it only assigns the font and measures. *)
Lemma shrinkLoop_frame env text maxWidth fontFamily fontWeight :
  forall (n : nat) (size : Z), (Z.to_nat (size - 14) <= n)%nat ->
  exists final extra f,
    forallb is_text_probe extra = true /\
    forall cv,
      shrinkLoop env text maxWidth fontFamily fontWeight size cv =
      (Ok final,
       {| width := width cv; height := height cv;
          font := if Z_lt_dec 14 size then f else font cv;
          saved := saved cv; calls := calls cv ++ extra |}).
Proof.
  induction n as [|n IH]; intros size Hn.
  - exists size, [], []. split; [reflexivity|]. intros cv.
    rewrite shrinkLoop_step.
    destruct (Z_lt_dec 14 size); [lia|].
    rewrite app_nil_r. destruct cv; reflexivity.
  - destruct (Z_lt_dec 14 size) as [Hlt|Hge].
    + destruct (IH (size - 2)%Z ltac:(lia)) as (final & extra & f & Hprobe & Hrec).
      set (fs := font_string fontWeight size fontFamily).
      destruct (Qle_bool (measureText env fs text) maxWidth) eqn:Hfit.
      * exists size, [SetFont fs; MeasureText text], fs.
        split; [reflexivity|]. intros cv.
        rewrite shrinkLoop_step.
        destruct (Z_lt_dec 14 size); [|lia].
        cbv zeta. fold fs. rewrite Hfit.
        unfold log, apply_call; cbn. rewrite <- app_assoc. reflexivity.
      * exists final, (SetFont fs :: MeasureText text :: extra),
          (if Z_lt_dec 14 (size - 2) then f else fs).
        split; [exact Hprobe|]. intros cv.
        rewrite shrinkLoop_step.
        destruct (Z_lt_dec 14 size); [|lia].
        cbv zeta. fold fs. rewrite Hfit. rewrite Hrec.
        unfold log, apply_call; cbn.
        rewrite <- !app_assoc. reflexivity.
    + exists size, [], []. split; [reflexivity|]. intros cv.
      rewrite shrinkLoop_step.
      destruct (Z_lt_dec 14 size); [lia|].
      rewrite app_nil_r. destruct cv; reflexivity.
Qed.

Lemma shrinkLoop_run env text maxWidth fontFamily fontWeight size cv :
  shrinkLoop env text maxWidth fontFamily fontWeight size cv =
  (Ok (loop_final env text maxWidth fontFamily fontWeight size),
   {| width := width cv; height := height cv;
      font := loop_font env text maxWidth fontFamily fontWeight size (font cv);
      saved := saved cv;
      calls := calls cv ++ loop_calls env text maxWidth fontFamily fontWeight size |}).
Proof.
  destruct (shrinkLoop_frame env text maxWidth fontFamily fontWeight
              (Z.to_nat (size - 14)) size (le_n _))
    as (final & extra & f & _ & Hrun).
  unfold loop_final, loop_calls, loop_font.
  rewrite (Hrun newCanvas), (Hrun cv). cbn.
  destruct (Z_lt_dec 14 size); reflexivity.
Qed.

Lemma loop_calls_probe env text maxWidth fontFamily fontWeight size :
  forallb is_text_probe
    (loop_calls env text maxWidth fontFamily fontWeight size) = true.
Proof.
  destruct (shrinkLoop_frame env text maxWidth fontFamily fontWeight
              (Z.to_nat (size - 14)) size (le_n _))
    as (final & extra & f & Hprobe & Hrun).
  unfold loop_calls. rewrite (Hrun newCanvas). cbn. exact Hprobe.
Qed.

(** A class of calls that excludes font assignments and measurements
    sees nothing of the loop. *)
Lemma filter_loop_calls (key : Call -> bool)
  env text maxWidth fontFamily fontWeight size :
  (forall c, is_text_probe c = true -> key c = false) ->
  filter key (loop_calls env text maxWidth fontFamily fontWeight size) = [].
Proof.
  intros Hkey.
  pose proof (loop_calls_probe env text maxWidth fontFamily fontWeight size) as H.
  induction (loop_calls env text maxWidth fontFamily fontWeight size) as [|c l IH].
  - reflexivity.
  - cbn in H. apply andb_prop in H as [Hc Hl].
    cbn. rewrite (Hkey c Hc). apply IH, Hl.
Qed.

Lemma probe_not_resize c : is_text_probe c = true -> is_resize c = false.
Proof. destruct c; cbn; congruence. Qed.

Lemma probe_not_image c : is_text_probe c = true -> is_image_or_export c = false.
Proof. destruct c; cbn; congruence. Qed.

(** ** Symbolic execution of the compositing routines *)

Ltac exec_step H :=
  cbv beta iota zeta delta
    [bind call modify log apply_call ret throw getContext drawRoundedRect
     loadImage toDataURL measure drawFittedText Poster.drawFittedText
     width height font saved calls src fst snd newCanvas] in H;
  cbn [app] in H;
  try rewrite shrinkLoop_run in H.

Ltac exec H := repeat (progress exec_step H).

Ltac filter_calls :=
  cbv [calls];
  repeat first
    [ progress cbn [filter app is_resize is_image_or_export]
    | rewrite filter_app
    | rewrite (filter_loop_calls is_resize) by (exact probe_not_resize)
    | rewrite (filter_loop_calls is_image_or_export)
        by (exact probe_not_image) ].

(** Name the canvas a finished run left (before the export, when there
    was one) and close the equation that describes the run. *)
Ltac name_canvas H :=
  lazymatch type of H with
  | _ = (Ok (canvasToDataURL _ ?cv _), _) => exists cv
  | _ = (Throw _, ?cv) => exists cv
  end.

(** Name the corner at which the last image was drawn, if any. *)
Ltac name_corner H :=
  first
    [ lazymatch type of H with
      | context [DrawImage _ ?x ?y _ _] => exists x, y
      end
    | exists 0, 0 ].

Lemma createBanner_trace env p :
  exists before x y,
    Banner.createBanner env p newCanvas =
      (if context2d env && imageLoads env (Banner.qrDataUrl p)
       then (Ok (canvasToDataURL env before png), log (ToDataURL png) before)
       else (Throw (if context2d env then lit "Image failed to load"
                    else lit "Canvas not supported"), before)) /\
    width before = 1600%Z /\ height before = 600%Z /\
    filter is_resize (calls before) = [SetWidth 1600; SetHeight 600] /\
    filter is_image_or_export (calls before) =
      (if context2d env then
         LoadImage (Banner.qrDataUrl p) ::
         (if imageLoads env (Banner.qrDataUrl p)
          then [DrawImage {| src := Banner.qrDataUrl p |} x y 200 200]
          else [])
       else []).
Proof.
  pose proof (@eq_refl _ (Banner.createBanner env p newCanvas)) as Hrun.
  unfold Banner.createBanner at 2 in Hrun.
  destruct (context2d env) eqn:Hctx; exec_step Hrun; rewrite Hctx in Hrun;
    exec Hrun.
  - destruct (imageLoads env (Banner.qrDataUrl p)) eqn:Himg; exec Hrun;
      name_canvas Hrun; name_corner Hrun;
      (split; [exact Hrun|]); clear Hrun;
      (split; [reflexivity|]); (split; [reflexivity|]);
      split; filter_calls; reflexivity.
  - name_canvas Hrun. exists 0, 0.
    (split; [exact Hrun|]). repeat split; reflexivity.
Qed.

Lemma createBusinessCard_trace env p :
  exists before x y,
    BusinessCard.createBusinessCard env p newCanvas =
      (if context2d env && imageLoads env (BusinessCard.qrDataUrl p)
       then (Ok (canvasToDataURL env before png), log (ToDataURL png) before)
       else (Throw (if context2d env then lit "Image failed to load"
                    else lit "Canvas not supported"), before)) /\
    width before = 1050%Z /\ height before = 600%Z /\
    filter is_resize (calls before) = [SetWidth 1050; SetHeight 600] /\
    filter is_image_or_export (calls before) =
      (if context2d env then
         LoadImage (BusinessCard.qrDataUrl p) ::
         (if imageLoads env (BusinessCard.qrDataUrl p)
          then [DrawImage {| src := BusinessCard.qrDataUrl p |} x y 200 200]
          else [])
       else []).
Proof.
  pose proof (@eq_refl _ (BusinessCard.createBusinessCard env p newCanvas))
    as Hrun.
  unfold BusinessCard.createBusinessCard at 2 in Hrun.
  destruct (context2d env) eqn:Hctx; exec_step Hrun; rewrite Hctx in Hrun;
    exec Hrun.
  - destruct (imageLoads env (BusinessCard.qrDataUrl p)) eqn:Himg; exec Hrun;
      name_canvas Hrun; name_corner Hrun;
      (split; [exact Hrun|]); clear Hrun;
      (split; [reflexivity|]); (split; [reflexivity|]);
      split; filter_calls; reflexivity.
  - name_canvas Hrun. exists 0, 0.
    (split; [exact Hrun|]). repeat split; reflexivity.
Qed.

Lemma createPoster_trace env p :
  exists before,
    Poster.createPoster env p newCanvas =
      (if context2d env && imageLoads env (Poster.qrDataUrl p)
       then (Ok (canvasToDataURL env before png), log (ToDataURL png) before)
       else (Throw (if context2d env then lit "Image failed to load"
                    else lit "Canvas not supported"), before)) /\
    width before = 1200%Z /\ height before = 800%Z /\
    filter is_resize (calls before) = [SetWidth 1200; SetHeight 800] /\
    filter is_image_or_export (calls before) =
      (if context2d env then
         match Poster.logoImage p with
         | Some logo => [DrawImage logo (110 - 88 / 2) (110 - 88 / 2) 88 88]
         | None => []
         end ++
         LoadImage (Poster.qrDataUrl p) ::
         (if imageLoads env (Poster.qrDataUrl p)
          then [DrawImage {| src := Poster.qrDataUrl p |}
                  ((Poster.POSTER_WIDTH - (Poster.qrSize p + 90)) / 2 + 45)
                  (260 + 45) (Poster.qrSize p) (Poster.qrSize p)]
          else [])
       else []).
Proof.
  pose proof (@eq_refl _ (Poster.createPoster env p newCanvas)) as Hrun.
  unfold Poster.createPoster at 2 in Hrun.
  destruct (context2d env) eqn:Hctx; exec_step Hrun; rewrite Hctx in Hrun;
    exec Hrun.
  - destruct (Poster.logoImage p) as [logo|]; exec Hrun;
      destruct (imageLoads env (Poster.qrDataUrl p)) eqn:Himg; exec Hrun;
      name_canvas Hrun;
      (split; [exact Hrun|]); clear Hrun;
      (split; [reflexivity|]); (split; [reflexivity|]);
      split; filter_calls; reflexivity.
  - name_canvas Hrun.
    (split; [exact Hrun|]). repeat split; reflexivity.
Qed.

Lemma createLogo_trace env p :
  exists before,
    Logo.createLogo env p newCanvas =
      (if context2d env
       then (Ok (canvasToDataURL env before png), log (ToDataURL png) before)
       else (Throw (lit "Canvas not supported"), before)) /\
    width before = 1000%Z /\ height before = 600%Z /\
    filter is_resize (calls before) = [SetWidth 1000; SetHeight 600] /\
    filter is_image_or_export (calls before) = [].
Proof.
  pose proof (@eq_refl _ (Logo.createLogo env p newCanvas)) as Hrun.
  unfold Logo.createLogo at 2 in Hrun.
  destruct (context2d env) eqn:Hctx; exec_step Hrun; rewrite Hctx in Hrun;
    exec Hrun.
  - destruct (Logo.layout p); exec Hrun;
      destruct (Logo.tagline p) as [|u rest]; exec Hrun;
      name_canvas Hrun;
      (split; [exact Hrun|]); clear Hrun;
      (split; [reflexivity|]); (split; [reflexivity|]);
      split; filter_calls; reflexivity.
  - name_canvas Hrun.
    (split; [exact Hrun|]). repeat split; reflexivity.
Qed.

(** ** String helpers *)

Lemma regex_test_Forall2 classes s :
  regex_test classes s = true <->
  Forall2 (fun (c : code_unit -> bool) u => c u = true) classes s.
Proof.
  revert s. induction classes as [|c classes IH]; intros [|u s]; cbn.
  - split; [constructor | reflexivity].
  - split; [discriminate | intros H; inversion H].
  - split; [discriminate | intros H; inversion H].
  - rewrite andb_true_iff, IH. split.
    + intros [Hc Hs]. constructor; assumption.
    + intros H. inversion H; subst. split; assumption.
Qed.

Lemma Forall2_repeat (c : code_unit -> bool) n s :
  Forall2 (fun (c : code_unit -> bool) u => c u = true) (repeat c n) s <->
  List.length s = n /\ Forall (fun u => c u = true) s.
Proof.
  revert s. induction n as [|n IH]; intros [|u s]; cbn.
  - split; [intros _; split; [reflexivity | constructor] | constructor].
  - split; [intros H; inversion H | intros [H _]; discriminate].
  - split; [intros H; inversion H | intros [H _]; discriminate].
  - split.
    + intros H. inversion H; subst.
      match goal with HF : Forall2 _ (repeat c n) s |- _ =>
        apply IH in HF; destruct HF as [Hlen Hall] end.
      split; [congruence | constructor; assumption].
    + intros [Hlen Hall]. inversion Hall; subst.
      constructor; [assumption | apply IH; split; [congruence | assumption]].
Qed.

(** The regular expression of the source accepts exactly [HexColor]. *)
Lemma hexPattern_iff s : regex_test hexPattern s = true <-> HexColor s.
Proof.
  unfold hexPattern, HexColor. rewrite regex_test_Forall2. split.
  - intros H. inversion H as [|c u cs digits Hu Hrest]; subst.
    apply N.eqb_eq in Hu. subst u.
    apply (Forall2_repeat is_hex_digit 6) in Hrest. exists digits. tauto.
  - intros (digits & -> & Hlen & Hall).
    constructor; [apply N.eqb_refl | apply (Forall2_repeat is_hex_digit 6); tauto].
Qed.

Lemma hex_digit_upper u :
  is_hex_digit u = true ->
  is_ascii u = true /\ is_upper_hex_digit (ascii_upper u) = true.
Proof.
  unfold is_hex_digit, is_ascii, is_upper_hex_digit, ascii_upper.
  intros H. rewrite !orb_true_iff, !andb_true_iff, !N.leb_le in H.
  destruct ((97 <=? u) && (u <=? 122))%N eqn:E.
  - rewrite andb_true_iff, !N.leb_le in E.
    rewrite N.ltb_lt, orb_true_iff, !andb_true_iff, !N.leb_le. lia.
  - rewrite andb_false_iff, !N.leb_gt in E.
    rewrite N.ltb_lt, orb_true_iff, !andb_true_iff, !N.leb_le. lia.
Qed.

(** Upper-casing a hex colour never consults the Unicode tables and
    yields an upper-case hex colour. *)
Lemma toUpperCase_hex up s :
  HexColor s ->
  toUpperCase up s = map ascii_upper s /\ UpperHexColor (toUpperCase up s).
Proof.
  intros (digits & -> & Hlen & Hall).
  assert (Hascii : forallb is_ascii (hash :: digits) = true).
  { cbn. apply forallb_forall. intros u Hu.
    rewrite Forall_forall in Hall. apply hex_digit_upper, Hall, Hu. }
  unfold toUpperCase. rewrite Hascii. split; [reflexivity|].
  exists (map ascii_upper digits). cbn. split; [reflexivity|].
  split; [rewrite length_map; exact Hlen|].
  apply Forall_map. eapply Forall_impl; [|exact Hall].
  intros u Hu. apply hex_digit_upper, Hu.
Qed.

Lemma normalizeHex_upper up value fallback :
  UpperHexColor fallback -> UpperHexColor (normalizeHex up value fallback).
Proof.
  intros Hfb. unfold normalizeHex.
  destruct (regex_test hexPattern (trim value)) eqn:E; [|exact Hfb].
  apply toUpperCase_hex, hexPattern_iff, E.
Qed.

Lemma DEFAULT_PRIMARY_upper : UpperHexColor DEFAULT_PRIMARY.
Proof.
  exists (lit "D6B36C"). split; [reflexivity|]. split; [reflexivity|].
  repeat constructor.
Qed.

Lemma DEFAULT_ACCENT_upper : UpperHexColor DEFAULT_ACCENT.
Proof.
  exists (lit "4AA7A0"). split; [reflexivity|]. split; [reflexivity|].
  repeat constructor.
Qed.

(** C8.  [normalizeHex] returns the upper-cased trimmed input exactly
    when the trimmed input matches [^#[0-9a-fA-F]{6}$], and the fallback
    unchanged otherwise; with a fallback matching [#[0-9A-F]{6}] the
    result matches [#[0-9A-F]{6}], hence the [primary] and [accent]
    colours every page hands to its drawing routine are well-formed
    six-digit hex colours. *)
Theorem normalizeHex_well_formed :
  forall (up : jsstring -> jsstring) (value fallback : jsstring),
    (HexColor (trim value) ->
       normalizeHex up value fallback = toUpperCase up (trim value) /\
       toUpperCase up (trim value) = map ascii_upper (trim value)) /\
    (~ HexColor (trim value) -> normalizeHex up value fallback = fallback) /\
    (UpperHexColor fallback ->
       UpperHexColor (normalizeHex up value fallback)) /\
    (forall env (f : Poster.Form),
       UpperHexColor (Poster.normalizedPrimary env f) /\
       UpperHexColor (Poster.normalizedAccent env f)) /\
    (forall env (f : Banner.Form) u d,
       UpperHexColor (Banner.primary (Banner.payload env f u d)) /\
       UpperHexColor (Banner.accent (Banner.payload env f u d))) /\
    (forall env (f : BusinessCard.Form) u d,
       UpperHexColor (BusinessCard.primary (BusinessCard.payload env f u d)) /\
       UpperHexColor (BusinessCard.accent (BusinessCard.payload env f u d))) /\
    (forall env (f : Logo.Form),
       UpperHexColor (Logo.primary (Logo.payload env f)) /\
       UpperHexColor (Logo.accent (Logo.payload env f))).
Proof.
  intros up value fallback.
  split; [|split; [|split; [|repeat split]]].
  - intros Hhex. unfold normalizeHex.
    apply hexPattern_iff in Hhex as Htest. rewrite Htest.
    split; [reflexivity | apply toUpperCase_hex, Hhex].
  - intros Hno. unfold normalizeHex.
    destruct (regex_test hexPattern (trim value)) eqn:E; [|reflexivity].
    exfalso. apply Hno, hexPattern_iff, E.
  - apply normalizeHex_upper.
  - apply normalizeHex_upper, DEFAULT_PRIMARY_upper.
  - apply normalizeHex_upper, DEFAULT_ACCENT_upper.
  - apply normalizeHex_upper, DEFAULT_PRIMARY_upper.
  - apply normalizeHex_upper, DEFAULT_ACCENT_upper.
  - apply normalizeHex_upper, DEFAULT_PRIMARY_upper.
  - apply normalizeHex_upper, DEFAULT_ACCENT_upper.
  - apply normalizeHex_upper, DEFAULT_PRIMARY_upper.
  - apply normalizeHex_upper, DEFAULT_ACCENT_upper.
Qed.

Lemma lower_hex_color : HexColor (trim (lit "  #a0b1c2 ")).
Proof.
  exists (lit "a0b1c2"). split; [reflexivity|]. split; [reflexivity|].
  repeat constructor.
Qed.

Lemma not_hex_color : ~ HexColor (trim (lit "teal")).
Proof. intros (digits & H & _). discriminate H. Qed.

(** C8 at the inputs ["  #a0b1c2 "] (accepted and upper-cased) and
    ["teal"] (replaced by the default). *)
Lemma normalizeHex_well_formed_witness :
  normalizeHex (fun s => s) (lit "  #a0b1c2 ") DEFAULT_PRIMARY = lit "#A0B1C2" /\
  normalizeHex (fun s => s) (lit "teal") DEFAULT_ACCENT = lit "#4AA7A0" /\
  UpperHexColor (normalizeHex (fun s => s) (lit "teal") DEFAULT_ACCENT).
Proof.
  split; [|split].
  - destruct (normalizeHex_well_formed (fun s => s) (lit "  #a0b1c2 ")
                DEFAULT_PRIMARY) as [H _].
    destruct (H lower_hex_color) as [Heq _]. rewrite Heq. reflexivity.
  - destruct (normalizeHex_well_formed (fun s => s) (lit "teal")
                DEFAULT_ACCENT) as (_ & H & _).
    rewrite (H not_hex_color). reflexivity.
  - destruct (normalizeHex_well_formed (fun s => s) (lit "teal")
                DEFAULT_ACCENT) as (_ & _ & H & _).
    exact (H DEFAULT_ACCENT_upper).
Defined.

(** ** [truncateText] *)

Lemma str_length_app a b : str_length (a ++ b) = (str_length a + str_length b)%Z.
Proof. unfold str_length. rewrite length_app. lia. Qed.

(** A non-negative end index not past the end of the string makes
    [slice(0, end)] the prefix of that length. *)
Lemma slice_prefix s n :
  (0 <= n <= str_length s)%Z -> slice s 0 n = firstn (Z.to_nat n) s.
Proof.
  intros Hn. unfold slice.
  destruct (0 <? 0)%Z eqn:E0; [discriminate|].
  destruct (n <? 0)%Z eqn:En; [apply Z.ltb_lt in En; lia|].
  rewrite (Z.min_l 0) by lia. rewrite (Z.min_l n) by lia.
  rewrite Z.sub_0_r, (Z.max_l n) by lia. reflexivity.
Qed.

Lemma truncateText_long value maxLength :
  (3 <= maxLength < str_length value)%Z ->
  truncateText value maxLength =
    firstn (Z.to_nat (maxLength - 3)) value ++ lit "..." /\
  str_length (firstn (Z.to_nat (maxLength - 3)) value) = (maxLength - 3)%Z.
Proof.
  intros H. unfold truncateText.
  destruct (str_length value <=? maxLength)%Z eqn:E;
    [apply Z.leb_le in E; lia|].
  rewrite slice_prefix by lia. split; [reflexivity|].
  unfold str_length in *. rewrite length_firstn. lia.
Qed.

Lemma truncateText_bound value maxLength :
  (3 <= maxLength)%Z -> (str_length (truncateText value maxLength) <= maxLength)%Z.
Proof.
  intros H. destruct (Z_le_gt_dec (str_length value) maxLength) as [Hle|Hgt].
  - unfold truncateText. apply Z.leb_le in Hle as E. rewrite E. exact Hle.
  - destruct (truncateText_long value maxLength ltac:(lia)) as [-> Hlen].
    rewrite str_length_app, Hlen. cbn. lia.
Qed.

(** C9.  For [maxLength >= 3], [truncateText] returns its argument if
    and only if the argument has at most [maxLength] code units;
    otherwise it returns exactly [maxLength] code units: the first
    [maxLength - 3] units of the argument followed by ["..."].  The
    poster's URL caption is [truncateText(url, 52)] and so never exceeds
    52 code units. *)
Theorem truncateText_spec :
  forall (value : jsstring) (maxLength : Z),
    (3 <= maxLength)%Z ->
    (truncateText value maxLength = value <->
       (str_length value <= maxLength)%Z) /\
    ((maxLength < str_length value)%Z ->
       str_length (truncateText value maxLength) = maxLength /\
       exists kept dropped,
         truncateText value maxLength = kept ++ lit "..." /\
         str_length kept = (maxLength - 3)%Z /\
         value = kept ++ dropped) /\
    (forall p : Poster.PosterPayload,
       (str_length (Poster.displayUrl p) <= 52)%Z).
Proof.
  intros value maxLength Hmax. split; [|split].
  - split.
    + intros Heq.
      destruct (Z_le_gt_dec (str_length value) maxLength) as [Hle|Hgt];
        [exact Hle|].
      destruct (truncateText_long value maxLength ltac:(lia)) as [Hshape Hlen].
      apply (f_equal str_length) in Heq.
      rewrite Hshape, str_length_app, Hlen in Heq. cbn in Heq. lia.
    + intros Hle. unfold truncateText. apply Z.leb_le in Hle.
      rewrite Hle. reflexivity.
  - intros Hgt.
    destruct (truncateText_long value maxLength ltac:(lia)) as [Hshape Hlen].
    split.
    + rewrite Hshape, str_length_app, Hlen. cbn. lia.
    + exists (firstn (Z.to_nat (maxLength - 3)) value),
             (skipn (Z.to_nat (maxLength - 3)) value).
      split; [exact Hshape|]. split; [exact Hlen|].
      symmetry. apply firstn_skipn.
  - intros p. unfold Poster.displayUrl. apply truncateText_bound. lia.
Qed.

(** C9 at a ten-unit string cut to five units. *)
Lemma truncateText_spec_witness :
  truncateText (lit "abcdefghij") 5 = lit "ab..." /\
  str_length (truncateText (lit "abcdefghij") 5) = 5%Z.
Proof.
  split; [reflexivity|].
  assert (H3 : (3 <= 5)%Z) by lia.
  destruct (truncateText_spec (lit "abcdefghij") 5 H3) as (_ & Hlong & _).
  assert (Hgt : (5 < str_length (lit "abcdefghij"))%Z) by (vm_compute; reflexivity).
  exact (proj1 (Hlong Hgt)).
Defined.

(** ** Handlers: what they may touch *)

Section Quiet.
Context {R : Type}.
Variable P : Event R -> Prop.

Lemma quiet_ret {A} (a : A) : quiet P (ret a).
Proof.
  intros p. cbn. repeat split. exists []. rewrite app_nil_r. split; constructor.
Qed.

Lemma quiet_throw {A} e : quiet P (@throw (Page R) A e).
Proof.
  intros p. cbn. repeat split. exists []. rewrite app_nil_r. split; constructor.
Qed.

Lemma quiet_emit e : P e -> quiet P (emit e).
Proof.
  intros He p. cbn. repeat split. exists [e]. split; [reflexivity|].
  constructor; [exact He | constructor].
Qed.

Lemma quiet_bind {A B} (m : M (Page R) A) (k : A -> M (Page R) B) :
  quiet P m -> (forall a, quiet P (k a)) -> quiet P (bind m k).
Proof.
  intros Hm Hk p. unfold bind.
  destruct (Hm p) as (He & Hl & Hr & es & Hes & HP).
  destruct (m p) as [[a|e] p1]; cbn in *.
  - destruct (Hk a p1) as (He' & Hl' & Hr' & es' & Hes' & HP').
    repeat split; try congruence.
    exists (es ++ es'). rewrite Hes', Hes, app_assoc. split; [reflexivity|].
    apply Forall_app; split; assumption.
  - repeat split; try assumption. exists es. split; assumption.
Qed.

Lemma quiet_if {A} (c : bool) (m1 m2 : M (Page R) A) :
  quiet P m1 -> quiet P m2 -> quiet P (if c then m1 else m2).
Proof. destruct c; trivial. Qed.

Lemma quiet_awaitFonts env display body :
  P AwaitFontsReady -> (forall f, P (FontsLoad f)) ->
  quiet P (awaitFonts env display body).
Proof.
  intros H1 H2. unfold awaitFonts. apply quiet_if; [|apply quiet_ret].
  repeat (apply quiet_bind; [apply quiet_emit; auto | intros _]).
  apply quiet_if; [apply quiet_ret | apply quiet_throw].
Qed.

Lemma quiet_qrEncode env text options :
  P (QrToDataURL text options) -> quiet P (qrEncode env text options).
Proof.
  intros H. unfold qrEncode.
  apply quiet_bind; [apply quiet_emit, H | intros _].
  destruct (qrToDataURL env text options); [apply quiet_ret | apply quiet_throw].
Qed.

Lemma quiet_onNewCanvas {A} (create : M Canvas A) :
  (forall cv, P (CanvasRun cv)) -> quiet P (onNewCanvas create).
Proof.
  intros H p. unfold onNewCanvas.
  destruct (create newCanvas) as [o cv]. cbn. repeat split.
  exists [CanvasRun cv]. split; [reflexivity|].
  constructor; [apply H | constructor].
Qed.

Lemma quiet_loadImage env s :
  (forall c, P (PageCall c)) ->
  quiet P (loadImage env (fun c => emit (PageCall c)) s).
Proof.
  intros H. unfold loadImage.
  apply quiet_bind; [apply quiet_emit, H | intros _].
  apply quiet_if; [apply quiet_ret | apply quiet_throw].
Qed.

Lemma quiet_mapM {A B} (f : A -> M (Page R) B) (items : list A) :
  (forall a, quiet P (f a)) -> quiet P (mapM f items).
Proof.
  intros Hf. induction items as [|a items IH]; cbn.
  - apply quiet_ret.
  - apply quiet_bind; [apply Hf | intros b].
    apply quiet_bind; [apply IH | intros bs]. apply quiet_ret.
Qed.

Lemma quiet_settle {A} (m : M (Page R) A) : quiet P m -> quiet P (settle m).
Proof.
  intros Hm p. unfold settle. specialize (Hm p).
  destruct (m p) as [o p']. exact Hm.
Qed.

(** The tasks of a [Promise.all]: every first step is judged on its own,
    every second step knowing what the first returned. *)
Lemma quiet_promiseAll {A B C} (Q : A -> B -> Prop) (first : A -> M (Page R) B)
  (second : A -> B -> M (Page R) C) (items : list A) :
  (forall a, In a items -> quiet P (first a)) ->
  (forall a p b, fst (first a p) = Ok b -> Q a b) ->
  (forall a b, In a items -> Q a b -> quiet P (second a b)) ->
  quiet P (promiseAll first second items).
Proof.
  intros Hfirst HQ Hsecond. unfold promiseAll.
  assert (Hfirsts :
    forall its, (forall a, In a its -> In a items) ->
      quiet P (mapM (fun item => settle (first item)) its) /\
      forall p os,
        fst (mapM (fun item => settle (first item)) its p) = Ok os ->
        Forall2 (fun a o => forall b, o = Ok b -> Q a b) its os).
  { induction its as [|a its IH]; intros Hin.
    - split; [apply quiet_ret|]. cbn. intros p os H. injection H as <-.
      constructor.
    - destruct (IH (fun a' H => Hin a' (or_intror H))) as [Hq Hrel].
      split.
      + cbn [mapM]. apply quiet_bind;
          [apply quiet_settle, Hfirst, Hin; left; reflexivity | intros o].
        apply quiet_bind; [exact Hq | intros os; apply quiet_ret].
      + intros p os. cbn [mapM]. unfold bind at 1, settle at 1.
        pose proof (HQ a p) as Ha.
        destruct (first a p) as [o p1]. cbn [fst] in Ha.
        unfold bind at 1. specialize (Hrel p1).
        destruct (mapM (fun item => settle (first item)) its p1)
          as [[os'|e] p2]; cbn [fst] in *; [|discriminate].
        unfold ret. cbn [fst]. intros H. injection H as <-.
        constructor; [|apply Hrel; reflexivity].
        intros b ->. apply Ha. reflexivity. }
  destruct (Hfirsts items (fun a H => H)) as [Hq Hrel].
  intros p. unfold bind.
  destruct (Hq p) as (He & Hl & Hr & es & Hes & HP).
  specialize (Hrel p).
  destruct (mapM (fun item => settle (first item)) items p) as [[os|e] p1];
    cbn [fst snd] in *.
  - specialize (Hrel os eq_refl).
    assert (Hseconds :
      quiet P (mapM (fun task =>
                       match snd task with
                       | Ok b => settle (second (fst task) b)
                       | Throw e => ret (Throw e)
                       end) (combine items os))).
    { assert (Hpairs : forall a o, In (a, o) (combine items os) ->
                In a items /\ forall b, o = Ok b -> Q a b).
      { clear -Hrel. induction Hrel as [|a o its os' Hao _ IH]; cbn.
        - intros a o [].
        - intros a' o' [H|H].
          + injection H as <- <-. split; [left; reflexivity | exact Hao].
          + destruct (IH a' o' H) as [Hin HQ']. split; [right; exact Hin | exact HQ']. }
      revert Hpairs. generalize (combine items os). intros tasks.
      induction tasks as [|[a o] tasks IH]; intros Hpairs; cbn [mapM].
      - apply quiet_ret.
      - apply quiet_bind.
        + cbn [fst snd]. destruct (Hpairs a o (or_introl eq_refl)) as [Hin HQ'].
          destruct o as [b|e']; [|apply quiet_ret].
          apply quiet_settle, Hsecond; [exact Hin | apply HQ'; reflexivity].
        + intros c. apply quiet_bind; [|intros cs; apply quiet_ret].
          apply IH. intros a' o' H. apply Hpairs. right. exact H. }
    destruct (Hseconds p1) as (He' & Hl' & Hr' & es' & Hes' & HP').
    destruct (mapM _ (combine items os) p1) as [[cs|e] p2]; cbv beta;
      cbn [fst snd] in *.
    + repeat split; try congruence.
      exists (es ++ es'). rewrite Hes', Hes, app_assoc. split; [reflexivity|].
      apply Forall_app; split; assumption.
    + repeat split; try congruence.
      exists (es ++ es'). rewrite Hes', Hes, app_assoc. split; [reflexivity|].
      apply Forall_app; split; assumption.
  - repeat split; try assumption. exists es. split; assumption.
Qed.

Lemma sets_result_setResult r :
  P (SetResult r) -> sets_result_on_return P (setResult r).
Proof.
  intros H p. cbn. repeat split.
  - intros e He. discriminate He.
  - exists [SetResult r]. split; [reflexivity|].
    constructor; [exact H | constructor].
Qed.

Lemma sets_result_bind {A B} (m : M (Page R) A) (k : A -> M (Page R) B) :
  quiet P m -> (forall a, sets_result_on_return P (k a)) ->
  sets_result_on_return P (bind m k).
Proof.
  intros Hm Hk p. unfold bind.
  destruct (Hm p) as (He & Hl & Hr & es & Hes & HP).
  destruct (m p) as [[a|e] p1]; cbn in *.
  - destruct (Hk a p1) as (He' & Hl' & Hr' & es' & Hes' & HP').
    repeat split; try congruence.
    + intros e Hthrow. rewrite (Hr' e Hthrow). exact Hr.
    + exists (es ++ es'). rewrite Hes', Hes, app_assoc. split; [reflexivity|].
      apply Forall_app; split; assumption.
  - split; [assumption|]. split; [assumption|].
    split; [intros; assumption|]. exists es. split; assumption.
Qed.

End Quiet.

(** A [try]/[catch]/[finally] around a body that only sets the result on
    return: on a throw the error message is the handler's and the result
    is the one the body found; in both cases the loading flag is down. *)
Lemma try_generate {R} (P : Event R -> Prop) (body : M (Page R) unit)
  (message : jsstring) (p : Page R) :
  sets_result_on_return P body ->
  let final := snd (try_catch_finally body (setError message)
                      (setLoading false) p) in
  loading final = false /\
  (forall e, fst (body p) = Throw e ->
     error final = message /\ result final = result p) /\
  (forall a, fst (body p) = Ok a ->
     error final = error p /\ result final = result (snd (body p))) /\
  exists es,
    events (snd (body p)) = events p ++ es /\ Forall P es /\
    events final =
      events p ++ es ++
      match fst (body p) with
      | Ok _ => [SetLoading false]
      | Throw _ => [SetError message; SetLoading false]
      end.
Proof.
  intros Hbody. unfold try_catch_finally.
  destruct (Hbody p) as (He & Hl & Hr & es & Hes & HP).
  destruct (body p) as [[a|e] p1]; cbn in *.
  - split; [reflexivity|]. split; [intros e H; discriminate H|].
    split; [intros _ _; split; [exact He | reflexivity]|].
    exists es. split; [exact Hes|]. split; [exact HP|].
    rewrite Hes, <- app_assoc. reflexivity.
  - split; [reflexivity|].
    split; [intros e' _; split; [reflexivity | apply (Hr e); reflexivity]|].
    split; [intros a H; discriminate H|].
    exists es. split; [exact Hes|]. split; [exact HP|].
    rewrite Hes, <- !app_assoc. reflexivity.
Qed.

(** ** [trim] and whitespace-only strings *)


Lemma trimStart_head s u rest : trimStart s = u :: rest -> is_space u = false.
Proof.
  induction s as [|v s IH]; cbn; [discriminate|].
  destruct (is_space v) eqn:E; [exact IH|]. intros H. congruence.
Qed.

Lemma forallb_rev {A} (f : A -> bool) l : forallb f (rev l) = forallb f l.
Proof.
  induction l as [|a l IH]; cbn; [reflexivity|].
  rewrite forallb_app, IH. cbn. rewrite andb_true_r. apply andb_comm.
Qed.


(** ** The four [generate] bodies *)

Lemma Banner_generate_quiet env f u :
  sets_result_on_return (encodes_only u) (Banner.generate env f u).
Proof.
  unfold Banner.generate.
  apply sets_result_bind;
    [apply quiet_awaitFonts; [exact I | intros; exact I] | intros _].
  apply sets_result_bind; [apply quiet_qrEncode; reflexivity | intros d].
  apply sets_result_bind; [apply quiet_onNewCanvas; intros; exact I | intros r].
  apply sets_result_setResult. exact I.
Qed.

Lemma BusinessCard_generate_quiet env f u :
  sets_result_on_return (encodes_only u) (BusinessCard.generate env f u).
Proof.
  unfold BusinessCard.generate.
  apply sets_result_bind;
    [apply quiet_awaitFonts; [exact I | intros; exact I] | intros _].
  apply sets_result_bind; [apply quiet_qrEncode; reflexivity | intros d].
  apply sets_result_bind; [apply quiet_onNewCanvas; intros; exact I | intros r].
  apply sets_result_setResult. exact I.
Qed.

Lemma Logo_generate_quiet env f u :
  sets_result_on_return (encodes_only u) (Logo.generate env f).
Proof.
  unfold Logo.generate.
  apply sets_result_bind;
    [apply quiet_awaitFonts; [exact I | intros; exact I] | intros _].
  apply sets_result_bind; [apply quiet_onNewCanvas; intros; exact I | intros r].
  apply sets_result_setResult. exact I.
Qed.

Lemma Poster_generate_quiet env f u :
  sets_result_on_return (encodes_only u) (Poster.generate env f u).
Proof.
  unfold Poster.generate.
  apply sets_result_bind;
    [apply quiet_awaitFonts; [exact I | intros; exact I] | intros _].
  apply sets_result_bind.
  { destruct (Poster.f_logoUrl f) as [[|c rest]|]; try apply quiet_ret.
    apply quiet_bind; [apply quiet_loadImage; intros; exact I | intros img].
    apply quiet_ret. }
  intros logo.
  apply sets_result_bind.
  { apply (quiet_promiseAll _ (fun _ _ => True)).
    - intros t _. apply quiet_qrEncode. reflexivity.
    - intros; exact I.
    - intros t d _ _.
      apply quiet_bind; [apply quiet_onNewCanvas; intros; exact I | intros r].
      apply quiet_ret. }
  intros posters. apply sets_result_setResult. exact I.
Qed.

(** ** The four [handleSubmit] handlers after validation *)

Lemma Banner_handleSubmit_started env f p u rest :
  trim (Banner.f_url f) = u :: rest ->
  Banner.handleSubmit env f p =
  try_catch_finally (Banner.generate env f (u :: rest))
    (setError Banner.generationError) (setLoading false) (started None p).
Proof.
  intros H. unfold Banner.handleSubmit. rewrite H.
  unfold bind, emit, setError, setLoading, setResult, modify, started; cbn.
  rewrite <- !app_assoc. reflexivity.
Qed.

Lemma BusinessCard_handleSubmit_started env f p u rest :
  trim (BusinessCard.f_website f) = u :: rest ->
  BusinessCard.handleSubmit env f p =
  try_catch_finally (BusinessCard.generate env f (u :: rest))
    (setError BusinessCard.generationError) (setLoading false)
    (started None p).
Proof.
  intros H. unfold BusinessCard.handleSubmit. rewrite H.
  unfold bind, emit, setError, setLoading, setResult, modify, started; cbn.
  rewrite <- !app_assoc. reflexivity.
Qed.

Lemma Poster_handleSubmit_started env f p u rest :
  trim (Poster.f_url f) = u :: rest ->
  Poster.handleSubmit env f p =
  try_catch_finally (Poster.generate env f (u :: rest))
    (setError Poster.generationError) (setLoading false) (started [] p).
Proof.
  intros H. unfold Poster.handleSubmit. rewrite H.
  unfold bind, emit, setError, setLoading, setResult, modify, started; cbn.
  rewrite <- !app_assoc. reflexivity.
Qed.

Lemma Logo_handleSubmit_started env f p :
  Logo.handleSubmit env f p =
  try_catch_finally (Logo.generate env f)
    (setError Logo.generationError) (setLoading false) (started None p).
Proof.
  unfold Logo.handleSubmit.
  unfold bind, emit, setError, setLoading, setResult, modify, started; cbn.
  rewrite <- !app_assoc. reflexivity.
Qed.

Lemma Banner_handleSubmit_rejected env f p :
  trim (Banner.f_url f) = [] ->
  Banner.handleSubmit env f p = (Ok tt, rejected Banner.validationError p).
Proof.
  intros H. unfold Banner.handleSubmit. rewrite H.
  unfold bind, emit, setError, modify, rejected; cbn.
  rewrite <- !app_assoc. reflexivity.
Qed.

Lemma BusinessCard_handleSubmit_rejected env f p :
  trim (BusinessCard.f_website f) = [] ->
  BusinessCard.handleSubmit env f p =
  (Ok tt, rejected BusinessCard.validationError p).
Proof.
  intros H. unfold BusinessCard.handleSubmit. rewrite H.
  unfold bind, emit, setError, modify, rejected; cbn.
  rewrite <- !app_assoc. reflexivity.
Qed.

Lemma Poster_handleSubmit_rejected env f p :
  trim (Poster.f_url f) = [] ->
  Poster.handleSubmit env f p = (Ok tt, rejected Poster.validationError p).
Proof.
  intros H. unfold Poster.handleSubmit. rewrite H.
  unfold bind, emit, setError, modify, rejected; cbn.
  rewrite <- !app_assoc. reflexivity.
Qed.

(** ** Error handling of the submit handlers *)

Lemma caught {R} (P : Event R -> Prop) (body : M (Page R) unit)
  (message : jsstring) (p : Page R) e :
  sets_result_on_return P body ->
  fst (body p) = Throw e ->
  let final := snd (try_catch_finally body (setError message)
                      (setLoading false) p) in
  error final = message /\ result final = result p /\ loading final = false.
Proof.
  intros Hbody Hthrow.
  destruct (try_generate P body message p Hbody) as (Hl & Ht & _).
  destruct (Ht e Hthrow) as [He Hr]. cbv zeta. tauto.
Qed.

(** C4.  On each of the four pages, if the body of the [try] block
    throws, the handler leaves the page with its fixed error message, with
    the result still cleared (empty list on the poster page, [null] on the
    others) and with the loading flag down; the loading flag is down after
    every submission that passed validation, whether generation returned
    or threw. *)
Theorem generation_failure_is_caught :
  (forall env f p u rest e,
     trim (Poster.f_url f) = u :: rest ->
     fst (Poster.generate env f (u :: rest) (started [] p)) = Throw e ->
     let final := snd (Poster.handleSubmit env f p) in
     error final = Poster.generationError /\
     result final = [] /\ loading final = false) /\
  (forall env f p u rest e,
     trim (Banner.f_url f) = u :: rest ->
     fst (Banner.generate env f (u :: rest) (started None p)) = Throw e ->
     let final := snd (Banner.handleSubmit env f p) in
     error final = Banner.generationError /\
     result final = None /\ loading final = false) /\
  (forall env f p u rest e,
     trim (BusinessCard.f_website f) = u :: rest ->
     fst (BusinessCard.generate env f (u :: rest) (started None p)) = Throw e ->
     let final := snd (BusinessCard.handleSubmit env f p) in
     error final = BusinessCard.generationError /\
     result final = None /\ loading final = false) /\
  (forall env f p e,
     fst (Logo.generate env f (started None p)) = Throw e ->
     let final := snd (Logo.handleSubmit env f p) in
     error final = Logo.generationError /\
     result final = None /\ loading final = false) /\
  (forall env f p,
     trim (Poster.f_url f) <> [] ->
     loading (snd (Poster.handleSubmit env f p)) = false) /\
  (forall env f p,
     trim (Banner.f_url f) <> [] ->
     loading (snd (Banner.handleSubmit env f p)) = false) /\
  (forall env f p,
     trim (BusinessCard.f_website f) <> [] ->
     loading (snd (BusinessCard.handleSubmit env f p)) = false) /\
  (forall env f p, loading (snd (Logo.handleSubmit env f p)) = false).
Proof.
  split; [|split; [|split; [|split; [|split; [|split; [|split]]]]]].
  - intros env f p u rest e Hurl Hthrow.
    rewrite (Poster_handleSubmit_started env f p u rest Hurl).
    exact (caught _ _ _ _ e (Poster_generate_quiet env f (u :: rest)) Hthrow).
  - intros env f p u rest e Hurl Hthrow.
    rewrite (Banner_handleSubmit_started env f p u rest Hurl).
    exact (caught _ _ _ _ e (Banner_generate_quiet env f (u :: rest)) Hthrow).
  - intros env f p u rest e Hurl Hthrow.
    rewrite (BusinessCard_handleSubmit_started env f p u rest Hurl).
    exact (caught _ _ _ _ e
             (BusinessCard_generate_quiet env f (u :: rest)) Hthrow).
  - intros env f p e Hthrow.
    rewrite (Logo_handleSubmit_started env f p).
    exact (caught _ _ _ _ e (Logo_generate_quiet env f []) Hthrow).
  - intros env f p Hurl.
    destruct (trim (Poster.f_url f)) as [|u rest] eqn:E; [congruence|].
    rewrite (Poster_handleSubmit_started env f p u rest E).
    apply (try_generate _ _ Poster.generationError (started [] p)
             (Poster_generate_quiet env f (u :: rest))).
  - intros env f p Hurl.
    destruct (trim (Banner.f_url f)) as [|u rest] eqn:E; [congruence|].
    rewrite (Banner_handleSubmit_started env f p u rest E).
    apply (try_generate _ _ Banner.generationError (started None p)
             (Banner_generate_quiet env f (u :: rest))).
  - intros env f p Hurl.
    destruct (trim (BusinessCard.f_website f)) as [|u rest] eqn:E;
      [congruence|].
    rewrite (BusinessCard_handleSubmit_started env f p u rest E).
    apply (try_generate _ _ BusinessCard.generationError (started None p)
             (BusinessCard_generate_quiet env f (u :: rest))).
  - intros env f p.
    rewrite (Logo_handleSubmit_started env f p).
    apply (try_generate _ _ Logo.generationError (started None p)
             (Logo_generate_quiet env f [])).
Qed.

(** C4 on the banner, business-card, poster and logo pages of a browser
    without a 2D context: [getContext] returns [null], [create*] throws,
    and the handler reports the page's fixed message. *)
Lemma generation_failure_is_caught_witness :
  error (snd (Banner.handleSubmit no_canvas_env
                (banner_form (lit " https://site2qr.com "))
                (idle (Some (lit "data:old"))))) = Banner.generationError /\
  result (snd (Banner.handleSubmit no_canvas_env
                 (banner_form (lit " https://site2qr.com "))
                 (idle (Some (lit "data:old"))))) = None /\
  loading (snd (Logo.handleSubmit no_canvas_env logo_form (idle None))) = false.
Proof.
  destruct generation_failure_is_caught
    as (_ & Hbanner & _ & _ & _ & _ & _ & Hlogo).
  assert (Hurl : trim (Banner.f_url (banner_form (lit " https://site2qr.com ")))
                 = 104%N :: lit "ttps://site2qr.com") by reflexivity.
  assert (Hthrow :
            fst (Banner.generate no_canvas_env
                   (banner_form (lit " https://site2qr.com "))
                   (104%N :: lit "ttps://site2qr.com")
                   (started None (idle (Some (lit "data:old")))))
            = Throw (lit "Canvas not supported")) by reflexivity.
  destruct (Hbanner no_canvas_env _ (idle (Some (lit "data:old"))) _ _ _
              Hurl Hthrow) as (He & Hr & _).
  split; [exact He|]. split; [exact Hr|].
  exact (Hlogo no_canvas_env logo_form (idle None)).
Defined.

(** ** Validation of the URL field *)

Lemma validated_trace {R} (P : Event R -> Prop) (body : M (Page R) unit)
  (message : jsstring) (p : Page R) :
  sets_result_on_return P body ->
  exists es tail,
    events (snd (try_catch_finally body (setError message)
                   (setLoading false) p)) = events p ++ es ++ tail /\
    Forall P es /\
    (tail = [SetLoading false] \/
     tail = [SetError message; SetLoading false]).
Proof.
  intros Hbody.
  destruct (try_generate P body message p Hbody)
    as (_ & _ & _ & es & _ & HP & Hev).
  exists es. eexists. split; [exact Hev|]. split; [exact HP|].
  destruct (fst (body p)); [left | right]; reflexivity.
Qed.


(** ** What the trace lemmas say about a run *)

Lemma filter_log key c cv :
  filter key (calls (log c cv)) =
  filter key (calls cv) ++ (if key c then [c] else []).
Proof. unfold log; cbn. rewrite filter_app. reflexivity. Qed.

(** The shape shared by the four compositing routines: either the export
    of the canvas [before], or a throw that leaves [before]. *)
Lemma fixed_size_of_trace env run (ok : bool) e before W H :
  run = (if ok
         then (Ok (canvasToDataURL env before png), log (ToDataURL png) before)
         else (Throw e, before)) ->
  width before = W -> height before = H ->
  filter is_resize (calls before) = [SetWidth W; SetHeight H] ->
  fixed_size env run W H.
Proof.
  intros -> Hw Hh Hf. unfold fixed_size.
  destruct ok; cbn [fst snd].
  - split; [exact Hw|]. split; [exact Hh|]. split.
    + rewrite filter_log, Hf. reflexivity.
    + intros r Hr. injection Hr as <-. exists before. tauto.
  - split; [exact Hw|]. split; [exact Hh|]. split; [exact Hf|].
    intros r Hr. discriminate Hr.
Qed.

(** C3.  Each generator works on a canvas of fixed pixel size, whatever
    the payload and the environment: 1050 x 600 for the business card,
    1600 x 600 for the banner, 1000 x 600 for the logo and 1200 x 800 for
    the poster.  The size is assigned once, before any drawing, no later
    call changes it, and the canvas that is exported has it. *)
Theorem canvas_dimensions_fixed :
  forall env,
    (forall p, fixed_size env
                 (BusinessCard.createBusinessCard env p newCanvas) 1050 600) /\
    (forall p, fixed_size env (Banner.createBanner env p newCanvas) 1600 600) /\
    (forall p, fixed_size env (Logo.createLogo env p newCanvas) 1000 600) /\
    (forall p, fixed_size env (Poster.createPoster env p newCanvas) 1200 800).
Proof.
  intros env. split; [|split; [|split]]; intros p.
  - destruct (createBusinessCard_trace env p)
      as (before & x & y & Hrun & Hw & Hh & Hf & _).
    exact (fixed_size_of_trace env _ _ _ before _ _ Hrun Hw Hh Hf).
  - destruct (createBanner_trace env p)
      as (before & x & y & Hrun & Hw & Hh & Hf & _).
    exact (fixed_size_of_trace env _ _ _ before _ _ Hrun Hw Hh Hf).
  - destruct (createLogo_trace env p) as (before & Hrun & Hw & Hh & Hf & _).
    exact (fixed_size_of_trace env _ _ _ before _ _ Hrun Hw Hh Hf).
  - destruct (createPoster_trace env p) as (before & Hrun & Hw & Hh & Hf & _).
    exact (fixed_size_of_trace env _ _ _ before _ _ Hrun Hw Hh Hf).
Qed.

(** C3 on a banner in a working browser: the run returns, and the canvas
    handed to the PNG encoder measures 1600 x 600. *)
Lemma canvas_dimensions_fixed_witness :
  exists exported,
    fst (Banner.createBanner plain_env banner_payload newCanvas) =
      Ok (canvasToDataURL plain_env exported png) /\
    width exported = 1600%Z /\ height exported = 600%Z.
Proof.
  destruct (canvas_dimensions_fixed plain_env) as (_ & Hbanner & _).
  destruct (Hbanner banner_payload) as (_ & _ & _ & Hexport).
  assert (Hok : fst (Banner.createBanner plain_env banner_payload newCanvas)
                = Ok (lit "data:image/png;1600")) by (vm_compute; reflexivity).
  destruct (Hexport _ Hok) as (exported & Hr & Hw & Hh).
  exists exported. rewrite Hok, Hr. auto.
Defined.

(** ** Square QR images *)



(** ** The steps of a [generate] body in closed form *)

Lemma with_events_nil {R} (p : Page R) : with_events p [] = p.
Proof. destruct p. unfold with_events; cbn. rewrite app_nil_r. reflexivity. Qed.

Lemma with_events_app {R} (p : Page R) es es' :
  with_events (with_events p es) es' = with_events p (es ++ es').
Proof. unfold with_events; cbn. rewrite app_assoc. reflexivity. Qed.

Lemma awaitFonts_run {R} env display body (p : Page R) :
  awaitFonts env display body p =
  ((if fonts_ok env display body then Ok tt
    else Throw (lit "font load rejected")),
   with_events p (font_events env display body)).
Proof.
  unfold awaitFonts, fonts_ok, font_events.
  destruct (fontsApi env); cbn.
  - unfold bind, emit, modify, with_events; cbn.
    rewrite <- !app_assoc.
    destruct (fontsLoad env display && fontsLoad env body); reflexivity.
  - rewrite with_events_nil. reflexivity.
Qed.

Lemma qrEncode_run {R} env text options (p : Page R) :
  qrEncode env text options p =
  (match qrToDataURL env text options with
   | Some dataUrl => Ok dataUrl
   | None => Throw (lit "QR encoding rejected")
   end,
   with_events p [QrToDataURL text options]).
Proof.
  unfold qrEncode, bind, emit, modify, with_events; cbn.
  destruct (qrToDataURL env text options); reflexivity.
Qed.

Lemma onNewCanvas_run {R A} (create : M Canvas A) (p : Page R) :
  onNewCanvas create p =
  (fst (create newCanvas), with_events p [CanvasRun (snd (create newCanvas))]).
Proof.
  unfold onNewCanvas. destruct (create newCanvas); reflexivity.
Qed.

(** ** A successful run embeds the QR image *)

Lemma trace_embeds env text options run (ok : bool) e before qr earlier x y s r cv :
  run = (if ok
         then (Ok (canvasToDataURL env before png), log (ToDataURL png) before)
         else (Throw e, before)) ->
  run = (Ok r, cv) ->
  qrToDataURL env text options = Some qr ->
  (ok = true ->
   filter is_image_or_export (calls before) =
     earlier ++ [LoadImage qr; DrawImage {| src := qr |} x y s s]) ->
  forallb is_draw_image earlier = true ->
  embeds_qr env text options cv r.
Proof.
  intros Hrun Hok Hqr Hf Hearlier. rewrite Hrun in Hok.
  destruct ok; [|discriminate Hok].
  injection Hok as <- <-.
  exists qr, before, earlier, x, y, s.
  split; [exact Hqr|]. split; [reflexivity|]. split; [reflexivity|].
  split; [exact (Hf eq_refl) | exact Hearlier].
Qed.

Lemma createBanner_embeds env text options p r cv :
  Banner.createBanner env p newCanvas = (Ok r, cv) ->
  qrToDataURL env text options = Some (Banner.qrDataUrl p) ->
  embeds_qr env text options cv r.
Proof.
  intros Hok Hqr.
  destruct (createBanner_trace env p) as (before & x & y & Hrun & _ & _ & _ & Hf).
  eapply (trace_embeds env text options _ _ _ before _ [] x y 200);
    [exact Hrun | exact Hok | exact Hqr | | reflexivity].
  intros Hb. apply andb_prop in Hb as [Hc Hi]. rewrite Hc, Hi in Hf. exact Hf.
Qed.

Lemma createBusinessCard_embeds env text options p r cv :
  BusinessCard.createBusinessCard env p newCanvas = (Ok r, cv) ->
  qrToDataURL env text options = Some (BusinessCard.qrDataUrl p) ->
  embeds_qr env text options cv r.
Proof.
  intros Hok Hqr.
  destruct (createBusinessCard_trace env p)
    as (before & x & y & Hrun & _ & _ & _ & Hf).
  eapply (trace_embeds env text options _ _ _ before _ [] x y 200);
    [exact Hrun | exact Hok | exact Hqr | | reflexivity].
  intros Hb. apply andb_prop in Hb as [Hc Hi]. rewrite Hc, Hi in Hf. exact Hf.
Qed.

Lemma createPoster_embeds env text options p r cv :
  Poster.createPoster env p newCanvas = (Ok r, cv) ->
  qrToDataURL env text options = Some (Poster.qrDataUrl p) ->
  embeds_qr env text options cv r.
Proof.
  intros Hok Hqr.
  destruct (createPoster_trace env p) as (before & Hrun & _ & _ & _ & Hf).
  eapply (trace_embeds env text options _ _ _ before _
            (match Poster.logoImage p with
             | Some logo => [DrawImage logo (110 - 88 / 2) (110 - 88 / 2) 88 88]
             | None => []
             end));
    [exact Hrun | exact Hok | exact Hqr | | ].
  - intros Hb. apply andb_prop in Hb as [Hc Hi]. rewrite Hc, Hi in Hf.
    exact Hf.
  - destruct (Poster.logoImage p); reflexivity.
Qed.

(** ** Rounds *)

Lemma rounds_app {R} env text (es es' : list (Event R)) urls urls' :
  rounds env text es urls -> rounds env text es' urls' ->
  rounds env text (es ++ es') (urls ++ urls').
Proof.
  induction 1 as [|o cv d rest us He Hrest IH]; intros H'; cbn.
  - exact H'.
  - constructor; [exact He | apply IH, H'].
Qed.

Lemma rounds_no_download {R} env text (es : list (Event R)) urls :
  rounds env text es urls ->
  forallb (fun e => negb (is_download_event e)) es = true.
Proof. induction 1; cbn; auto. Qed.

Lemma rounds_length {R} env text (es : list (Event R)) urls :
  rounds env text es urls -> List.length es = (2 * List.length urls)%nat.
Proof. induction 1; cbn; lia. Qed.

(** Every URL of a sequence of rounds is the export of a canvas that
    embeds the QR code. *)
Lemma rounds_embed {R} env text (es : list (Event R)) urls :
  rounds env text es urls ->
  Forall (fun dataUrl =>
            exists options cv,
              In (CanvasRun cv) es /\ embeds_qr env text options cv dataUrl)
         urls.
Proof.
  induction 1 as [|o cv d rest us He Hrest IH]; constructor.
  - exists o, cv. split; [right; left; reflexivity | exact He].
  - eapply Forall_impl; [|exact IH].
    intros a (o' & cv' & Hin & He'). exists o', cv'.
    split; [right; right; exact Hin | exact He'].
Qed.

(** ** [Promise.all] in closed form *)

Lemma mapM_logged {R A B} (f : A -> M (Page R) B) (val : A -> B)
  (evs : A -> list (Event R)) (items : list A) :
  (forall a p, f a p = (Ok (val a), with_events p (evs a))) ->
  forall p,
    mapM f items p = (Ok (map val items), with_events p (flat_map evs items)).
Proof.
  intros Hf. induction items as [|a items IH]; intros p; cbn [mapM map flat_map].
  - unfold ret. rewrite with_events_nil. reflexivity.
  - unfold bind at 1. rewrite Hf. unfold bind at 1. rewrite IH.
    unfold ret. rewrite with_events_app. reflexivity.
Qed.

Lemma map_combine_map {A B C} (g : A -> B) (h : A * B -> C) (items : list A) :
  map h (combine items (map g items)) = map (fun a => h (a, g a)) items.
Proof.
  induction items as [|a items IH]; cbn; [reflexivity|]. rewrite IH. reflexivity.
Qed.

Lemma flat_map_combine_map {A B C} (g : A -> B) (h : A * B -> list C)
  (items : list A) :
  flat_map h (combine items (map g items)) =
  flat_map (fun a => h (a, g a)) items.
Proof.
  induction items as [|a items IH]; cbn; [reflexivity|]. rewrite IH. reflexivity.
Qed.

Lemma flat_map_singleton {A B} (g : A -> B) (items : list A) :
  flat_map (fun a => [g a]) items = map g items.
Proof.
  induction items as [|a items IH]; cbn; [reflexivity|]. rewrite IH. reflexivity.
Qed.

(** Tasks whose two steps only append events: all first steps, then the
    second steps of the tasks whose first step returned. *)
Lemma promiseAll_run {R A B C} (first : A -> M (Page R) B)
  (second : A -> B -> M (Page R) C)
  (o1 : A -> outcome B) (e1 : A -> list (Event R))
  (o2 : A -> B -> outcome C) (e2 : A -> B -> list (Event R))
  (items : list A) :
  (forall a p, first a p = (o1 a, with_events p (e1 a))) ->
  (forall a b p, second a b p = (o2 a b, with_events p (e2 a b))) ->
  forall p,
    promiseAll first second items p =
    (all_of (map (fun a => match o1 a with
                           | Ok b => o2 a b
                           | Throw e => Throw e
                           end) items),
     with_events p
       (flat_map e1 items ++
        flat_map (fun a => match o1 a with
                           | Ok b => e2 a b
                           | Throw _ => []
                           end) items)).
Proof.
  intros H1 H2 p. unfold promiseAll. unfold bind at 1.
  rewrite (mapM_logged _ o1 e1).
  2:{ intros a q. unfold settle. rewrite H1. reflexivity. }
  unfold bind at 1.
  rewrite (mapM_logged _
             (fun task : A * outcome B =>
                match snd task with
                | Ok b => o2 (fst task) b
                | Throw e => Throw e
                end)
             (fun task : A * outcome B =>
                match snd task with
                | Ok b => e2 (fst task) b
                | Throw _ => []
                end)).
  2:{ intros [a [b|e]] q; cbn [fst snd].
      - unfold settle. rewrite H2. reflexivity.
      - unfold ret. rewrite with_events_nil. reflexivity. }
  rewrite map_combine_map, flat_map_combine_map, with_events_app.
  reflexivity.
Qed.

(** ** The poster page: three requests, then the canvases *)

Lemma poster_second_run env f u logo t d (p : Page (list Poster.PosterResult)) :
  (png <- onNewCanvas
            (Poster.createPoster env (submitted_poster env f u logo t d)) ;;
   ret {| Poster.res_id := Poster.id t; Poster.res_name := Poster.name t;
          Poster.res_description := Poster.description t;
          Poster.posterUrl := png |}) p =
  (match fst (Poster.createPoster env (submitted_poster env f u logo t d)
                newCanvas) with
   | Ok png =>
       Ok {| Poster.res_id := Poster.id t; Poster.res_name := Poster.name t;
             Poster.res_description := Poster.description t;
             Poster.posterUrl := png |}
   | Throw e => Throw e
   end,
   with_events p
     [CanvasRun (snd (Poster.createPoster env
                        (submitted_poster env f u logo t d) newCanvas))]).
Proof.
  unfold bind. rewrite onNewCanvas_run.
  destruct (fst (Poster.createPoster env _ newCanvas)); reflexivity.
Qed.

Lemma poster_batch_run env f u logo (p : Page (list Poster.PosterResult)) :
  promiseAll
    (fun t => qrEncode env u
                (Poster.qrOptions
                   (Poster.resolveQrSize (toNumber env (Poster.f_size f))) t))
    (fun t d =>
       png <- onNewCanvas
                (Poster.createPoster env (submitted_poster env f u logo t d)) ;;
       ret {| Poster.res_id := Poster.id t; Poster.res_name := Poster.name t;
              Poster.res_description := Poster.description t;
              Poster.posterUrl := png |})
    (Poster.templates env f) p =
  (all_of (map (poster_result env f u logo) (Poster.templates env f)),
   with_events p
     (poster_requests_of env f u ++
      flat_map (poster_canvas env f u logo) (Poster.templates env f))).
Proof.
  rewrite (promiseAll_run _ _
             (fun t => match qrToDataURL env u
                               (Poster.qrOptions
                                  (Poster.resolveQrSize
                                     (toNumber env (Poster.f_size f))) t) with
                       | Some d => Ok d
                       | None => Throw (lit "QR encoding rejected")
                       end)
             (fun t => [QrToDataURL u
                          (Poster.qrOptions
                             (Poster.resolveQrSize
                                (toNumber env (Poster.f_size f))) t)])
             (fun t d =>
                match fst (Poster.createPoster env
                             (submitted_poster env f u logo t d) newCanvas) with
                | Ok png =>
                    Ok {| Poster.res_id := Poster.id t;
                          Poster.res_name := Poster.name t;
                          Poster.res_description := Poster.description t;
                          Poster.posterUrl := png |}
                | Throw e => Throw e
                end)
             (fun t d =>
                [CanvasRun (snd (Poster.createPoster env
                                   (submitted_poster env f u logo t d)
                                   newCanvas))])).
  2:{ intros t q. apply qrEncode_run. }
  2:{ intros t d q. apply poster_second_run. }
  f_equal.
  - f_equal. apply map_ext. intros t. unfold poster_result, poster_run.
    destruct (qrToDataURL env u _) as [d|]; [|reflexivity].
    destruct (Poster.createPoster env _ newCanvas) as [[png|e] cv]; reflexivity.
  - apply f_equal. apply (f_equal2 (@app _)).
    + unfold poster_requests_of. apply flat_map_singleton.
    + apply flat_map_ext. intros t. unfold poster_canvas, poster_run.
      destruct (qrToDataURL env u _) as [d|]; [|reflexivity].
      destruct (Poster.createPoster env _ newCanvas) as [o cv]; reflexivity.
Qed.

(** The whole body of the [try] block of the poster page. *)
Lemma Poster_generate_run env f u (p : Page (list Poster.PosterResult)) :
  Poster.generate env f u p =
  if fonts_ok env (font_string 700 48 DISPLAY_FONT)
                  (font_string 500 20 BODY_FONT)
  then
    match poster_logo env f with
    | Ok logo =>
        let es := poster_setup env f ++ poster_requests_of env f u ++
                  flat_map (poster_canvas env f u logo) (Poster.templates env f) in
        match all_of (map (poster_result env f u logo)
                        (Poster.templates env f)) with
        | Ok rs => (Ok tt, with_result p rs (es ++ [SetResult rs]))
        | Throw e => (Throw e, with_events p es)
        end
    | Throw e => (Throw e, with_events p (poster_setup env f))
    end
  else (Throw (lit "font load rejected"), with_events p (poster_setup env f)).
Proof.
  unfold Poster.generate, poster_setup.
  unfold bind at 1. rewrite awaitFonts_run.
  destruct (fonts_ok env _ _); [|rewrite app_nil_r; reflexivity].
  unfold bind at 1.
  assert (Hlogo :
    (match Poster.f_logoUrl f with
     | Some (c :: rest) =>
         img <- loadImage env (fun c0 => emit (PageCall c0)) (c :: rest) ;;
         ret (Some img)
     | _ => ret None
     end)
      (with_events p (font_events env (font_string 700 48 DISPLAY_FONT)
                        (font_string 500 20 BODY_FONT))) =
    (poster_logo env f,
     with_events p
       (font_events env (font_string 700 48 DISPLAY_FONT)
          (font_string 500 20 BODY_FONT) ++
        match Poster.f_logoUrl f with
        | Some (c :: rest) => [PageCall (LoadImage (c :: rest))]
        | _ => []
        end))).
  { unfold poster_logo. destruct (Poster.f_logoUrl f) as [[|c rest]|].
    - rewrite app_nil_r. reflexivity.
    - unfold loadImage, bind, emit, modify, ret, throw, with_events; cbn.
      destruct (imageLoads env (c :: rest)); rewrite <- !app_assoc; reflexivity.
    - rewrite app_nil_r. reflexivity. }
  rewrite Hlogo. destruct (poster_logo env f) as [logo|e]; [|reflexivity].
  cbv zeta. unfold bind at 1.
  change (promiseAll _ _ (Poster.templates env f))
    with (promiseAll
            (fun t => qrEncode (R := list Poster.PosterResult) env u
                        (Poster.qrOptions
                           (Poster.resolveQrSize (toNumber env (Poster.f_size f)))
                           t))
            (fun t d =>
               png <- onNewCanvas
                        (Poster.createPoster env
                           (submitted_poster env f u logo t d)) ;;
               ret {| Poster.res_id := Poster.id t;
                      Poster.res_name := Poster.name t;
                      Poster.res_description := Poster.description t;
                      Poster.posterUrl := png |})
            (Poster.templates env f)).
  rewrite poster_batch_run.
  destruct (all_of _) as [rs|e].
  - unfold setResult, modify, with_result, with_events; cbn.
    rewrite <- !app_assoc. reflexivity.
  - rewrite with_events_app, <- !app_assoc. reflexivity.
Qed.

(** When every task returned, every canvas embeds the answer to its own
    request and the posters carry the template names. *)
Lemma poster_batch_embedded env f u logo :
  forall ts rs,
    all_of (map (poster_result env f u logo) ts) = Ok rs ->
    embedded (R := list Poster.PosterResult) env u
      (map (Poster.qrOptions
              (Poster.resolveQrSize (toNumber env (Poster.f_size f)))) ts)
      (flat_map (poster_canvas env f u logo) ts)
      (map Poster.posterUrl rs) /\
    map Poster.res_name rs = map Poster.name ts.
Proof.
  induction ts as [|t ts IH]; intros rs Hall; cbn in Hall.
  - injection Hall as <-. split; [constructor | reflexivity].
  - unfold poster_result at 1, poster_run in Hall.
    cbn [map flat_map]. unfold poster_canvas at 1, poster_run.
    destruct (qrToDataURL env u _) as [d|] eqn:Hqr; [|discriminate Hall].
    destruct (Poster.createPoster env _ newCanvas) as [[png|e] cv] eqn:Hcreate;
      [|discriminate Hall].
    destruct (all_of (map (poster_result env f u logo) ts)) as [rs'|e];
      [|discriminate Hall].
    injection Hall as <-. destruct (IH rs' eq_refl) as [Hemb Hnames].
    split.
    + cbn. constructor; [|exact Hemb].
      eapply createPoster_embeds; [exact Hcreate | exact Hqr].
    + cbn. rewrite Hnames. reflexivity.
Qed.


Lemma embedded_length {R} env text requests (canvases : list (Event R)) urls :
  embedded env text requests canvases urls ->
  List.length canvases = List.length requests /\
  List.length urls = List.length requests.
Proof. induction 1; cbn; [split; reflexivity | lia]. Qed.

(** ** A returning [generate] in closed form *)

Lemma Banner_generate_ok env f u p p' :
  Banner.generate env f u p = (Ok tt, p') ->
  exists r cv,
    p' = with_result p (Some r)
           (font_events env (font_string 700 60 DISPLAY_FONT)
                            (font_string 500 24 BODY_FONT) ++
            [QrToDataURL u Banner.qrOptions; CanvasRun cv; SetResult (Some r)]) /\
    embeds_qr env u Banner.qrOptions cv r.
Proof.
  unfold Banner.generate. intros Hrun.
  unfold bind at 1 in Hrun. rewrite awaitFonts_run in Hrun.
  destruct (fonts_ok env _ _); [|discriminate Hrun].
  unfold bind at 1 in Hrun. rewrite qrEncode_run in Hrun.
  destruct (qrToDataURL env u Banner.qrOptions) as [d|] eqn:Hqr;
    [|discriminate Hrun].
  unfold bind at 1 in Hrun. rewrite onNewCanvas_run in Hrun.
  destruct (Banner.createBanner env _ newCanvas) as [[r|e] cv] eqn:Hcreate;
    cbn [fst snd] in Hrun; [|discriminate Hrun].
  unfold setResult, modify in Hrun. injection Hrun as <-.
  exists r, cv. split.
  - unfold with_result, with_events; cbn. rewrite <- !app_assoc. reflexivity.
  - eapply createBanner_embeds; [exact Hcreate | exact Hqr].
Qed.

Lemma BusinessCard_generate_ok env f u p p' :
  BusinessCard.generate env f u p = (Ok tt, p') ->
  exists r cv,
    p' = with_result p (Some r)
           (font_events env (font_string 700 44 DISPLAY_FONT)
                            (font_string 600 18 BODY_FONT) ++
            [QrToDataURL u BusinessCard.qrOptions; CanvasRun cv;
             SetResult (Some r)]) /\
    embeds_qr env u BusinessCard.qrOptions cv r.
Proof.
  unfold BusinessCard.generate. intros Hrun.
  unfold bind at 1 in Hrun. rewrite awaitFonts_run in Hrun.
  destruct (fonts_ok env _ _); [|discriminate Hrun].
  unfold bind at 1 in Hrun. rewrite qrEncode_run in Hrun.
  destruct (qrToDataURL env u BusinessCard.qrOptions) as [d|] eqn:Hqr;
    [|discriminate Hrun].
  unfold bind at 1 in Hrun. rewrite onNewCanvas_run in Hrun.
  destruct (BusinessCard.createBusinessCard env _ newCanvas)
    as [[r|e] cv] eqn:Hcreate;
    cbn [fst snd] in Hrun; [|discriminate Hrun].
  unfold setResult, modify in Hrun. injection Hrun as <-.
  exists r, cv. split.
  - unfold with_result, with_events; cbn. rewrite <- !app_assoc. reflexivity.
  - eapply createBusinessCard_embeds; [exact Hcreate | exact Hqr].
Qed.

Lemma Logo_generate_ok env f p p' :
  Logo.generate env f p = (Ok tt, p') ->
  exists before,
    p' = with_result p (Some (canvasToDataURL env before png))
           (font_events env (font_string 700 58 DISPLAY_FONT)
                            (font_string 500 20 BODY_FONT) ++
            [CanvasRun (log (ToDataURL png) before);
             SetResult (Some (canvasToDataURL env before png))]) /\
    filter is_image_or_export (calls before) = [].
Proof.
  unfold Logo.generate. intros Hrun.
  unfold bind at 1 in Hrun. rewrite awaitFonts_run in Hrun.
  destruct (fonts_ok env _ _); [|discriminate Hrun].
  unfold bind at 1 in Hrun. rewrite onNewCanvas_run in Hrun.
  destruct (createLogo_trace env (Logo.payload env f))
    as (before & Hcreate & _ & _ & _ & Hf).
  rewrite Hcreate in Hrun.
  destruct (context2d env); cbn [fst snd] in Hrun; [|discriminate Hrun].
  unfold setResult, modify in Hrun. injection Hrun as <-.
  exists before. split; [|exact Hf].
  unfold with_result, with_events; cbn. rewrite <- !app_assoc. reflexivity.
Qed.

Lemma Poster_generate_ok env f u p p' :
  Poster.generate env f u p = (Ok tt, p') ->
  exists setup canvases rs,
    p' = with_result p rs
           (setup ++ poster_requests_of env f u ++ canvases ++ [SetResult rs]) /\
    forallb is_setup_event setup = true /\
    embedded env u
      (map (Poster.qrOptions
              (Poster.resolveQrSize (toNumber env (Poster.f_size f))))
           (Poster.templates env f))
      canvases (map Poster.posterUrl rs) /\
    map Poster.res_name rs = map Poster.name (Poster.templates env f).
Proof.
  rewrite Poster_generate_run. intros Hrun.
  destruct (fonts_ok env _ _) eqn:Hfonts; [|discriminate Hrun].
  destruct (poster_logo env f) as [logo|e]; [|discriminate Hrun].
  cbv zeta in Hrun.
  destruct (all_of _) as [rs|e] eqn:Hall; [|discriminate Hrun].
  injection Hrun as <-.
  destruct (poster_batch_embedded env f u logo _ _ Hall) as [Hemb Hnames].
  exists (poster_setup env f),
    (flat_map (poster_canvas env f u logo) (Poster.templates env f)), rs.
  split; [|split; [|split]].
  - rewrite <- !app_assoc. reflexivity.
  - unfold poster_setup. rewrite Hfonts, forallb_app.
    apply andb_true_intro. split.
    + unfold font_events. destruct (fontsApi env); reflexivity.
    + destruct (Poster.f_logoUrl f) as [[|c rest]|]; reflexivity.
  - exact Hemb.
  - exact Hnames.
Qed.

(** ** A validated submission in closed form *)

Lemma submitted_run {R} (body : M (Page R) unit) message (cleared : R)
  (p : Page R) (g : outcome R * list (Event R)) :
  body (started cleared p) =
    match fst g with
    | Ok r => (Ok tt, with_result (started cleared p) r (snd g ++ [SetResult r]))
    | Throw e => (Throw e, with_events (started cleared p) (snd g))
    end ->
  try_catch_finally body (setError message) (setLoading false)
    (started cleared p) =
  (Ok tt, submitted cleared message p g).
Proof.
  intros Hbody. unfold try_catch_finally. rewrite Hbody.
  unfold submitted. destruct (fst g) as [r|e].
  - unfold setLoading, modify, with_result, started; cbn.
    rewrite <- !app_assoc. reflexivity.
  - unfold bind, setError, setLoading, modify, with_events, started; cbn.
    rewrite <- !app_assoc. reflexivity.
Qed.




Lemma Poster_handleSubmit_run env f p u rest :
  trim (Poster.f_url f) = u :: rest ->
  Poster.handleSubmit env f p =
  (Ok tt,
   submitted [] Poster.generationError p (poster_generation env f (u :: rest))).
Proof.
  intros Hurl. rewrite (Poster_handleSubmit_started env f p u rest Hurl).
  apply submitted_run. rewrite Poster_generate_run. unfold poster_generation.
  destruct (fonts_ok env _ _); [|reflexivity].
  destruct (poster_logo env f) as [logo|e]; [|reflexivity].
  cbv zeta. cbn [fst snd].
  destruct (all_of _) as [rs|e]; [|reflexivity].
  rewrite <- !app_assoc. reflexivity.
Qed.

(** ** Layouts *)

Lemma layout_loop_calls env text maxWidth fontFamily fontWeight size :
  flat_map geometry (loop_calls env text maxWidth fontFamily fontWeight size)
  = [].
Proof.
  pose proof (loop_calls_probe env text maxWidth fontFamily fontWeight size) as H.
  induction (loop_calls env text maxWidth fontFamily fontWeight size) as [|c l IH].
  - reflexivity.
  - cbn in H. apply andb_prop in H as [Hc Hl].
    cbn [flat_map]. rewrite (IH Hl).
    destruct c; try discriminate Hc; reflexivity.
Qed.

Ltac layout_calls :=
  cbv [calls layout_of];
  repeat first
    [ progress cbn [flat_map app geometry]
    | rewrite flat_map_app
    | rewrite layout_loop_calls ].

(** Bring a returning run, given as the equation [H], together with its
    symbolic execution [Hrun]: a run that threw is impossible, a run that
    returned names the canvas. *)
Ltac returned H Hrun cv :=
  pose proof (eq_trans (eq_sym Hrun) H) as Hsame;
  lazymatch type of Hsame with
  | (Throw _, _) = (Ok _, _) => discriminate Hsame
  | (Ok _, _) = (Ok _, _) =>
      apply (f_equal snd) in Hsame; cbn [snd] in Hsame; subst cv;
      clear H Hrun
  end.

(** Close [lhs = ?G w] by abstracting [w] in [lhs]. *)
Ltac abstract_over w :=
  lazymatch goal with
  | |- ?lhs = ?G w =>
      let f := eval pattern w in lhs in
      change (f = G w); reflexivity
  end.

(** The business card has one layout. *)
Lemma card_layout :
  exists G, forall env p r cv,
    BusinessCard.createBusinessCard env p newCanvas = (Ok r, cv) ->
    layout_of (calls cv) = G.
Proof.
  eexists. intros env p r cv H.
  pose proof (@eq_refl _ (BusinessCard.createBusinessCard env p newCanvas))
    as Hrun.
  unfold BusinessCard.createBusinessCard at 2 in Hrun.
  destruct (context2d env) eqn:Hctx; exec_step Hrun; rewrite Hctx in Hrun;
    exec Hrun; [|returned H Hrun cv].
  destruct (imageLoads env (BusinessCard.qrDataUrl p)) eqn:Himg; exec Hrun;
    returned H Hrun cv.
  layout_calls. reflexivity.
Qed.

(** The banner's layout depends on the payload only through the measured
    width of the call-to-action text, which sizes the pill behind it. *)
Lemma banner_layout :
  exists G, forall env p r cv,
    Banner.createBanner env p newCanvas = (Ok r, cv) ->
    layout_of (calls cv) =
    G (measureText env (font_string 600 18 BODY_FONT) (Banner.cta p)).
Proof.
  eexists. intros env p r cv H.
  pose proof (@eq_refl _ (Banner.createBanner env p newCanvas)) as Hrun.
  unfold Banner.createBanner at 2 in Hrun.
  destruct (context2d env) eqn:Hctx; exec_step Hrun; rewrite Hctx in Hrun;
    exec Hrun; [|returned H Hrun cv].
  destruct (imageLoads env (Banner.qrDataUrl p)) eqn:Himg; exec Hrun;
    returned H Hrun cv.
  layout_calls.
  generalize (measureText env (font_string 600 18 BODY_FONT) (Banner.cta p)).
  intros w. abstract_over w.
Qed.

(** The poster's layout depends on the payload only through the chosen
    QR size and the presence of a logo. *)
Lemma poster_layout :
  exists Gplain Glogo, forall env p r cv,
    Poster.createPoster env p newCanvas = (Ok r, cv) ->
    layout_of (calls cv) =
    match Poster.logoImage p with
    | None => Gplain (Poster.qrSize p)
    | Some _ => Glogo (Poster.qrSize p)
    end.
Proof.
  do 2 eexists. intros env p r cv H.
  pose proof (@eq_refl _ (Poster.createPoster env p newCanvas)) as Hrun.
  unfold Poster.createPoster at 2 in Hrun.
  destruct (context2d env) eqn:Hctx; exec_step Hrun; rewrite Hctx in Hrun;
    exec Hrun; [|returned H Hrun cv].
  destruct (Poster.logoImage p) as [logo|]; exec Hrun;
    destruct (imageLoads env (Poster.qrDataUrl p)) eqn:Himg; exec Hrun;
    returned H Hrun cv;
    layout_calls; generalize (Poster.qrSize p); intros w; abstract_over w.
Qed.

(** The logo has one layout per arrangement, with or without the tagline
    line. *)
Lemma logo_layout :
  exists Gh Ght Gs Gst, forall env p r cv,
    Logo.createLogo env p newCanvas = (Ok r, cv) ->
    layout_of (calls cv) =
    match Logo.layout p, Logo.tagline p with
    | Logo.horizontal, [] => Gh
    | Logo.horizontal, _ :: _ => Ght
    | Logo.stacked, [] => Gs
    | Logo.stacked, _ :: _ => Gst
    end.
Proof.
  do 4 eexists. intros env p r cv H.
  pose proof (@eq_refl _ (Logo.createLogo env p newCanvas)) as Hrun.
  unfold Logo.createLogo at 2 in Hrun.
  destruct (context2d env) eqn:Hctx; exec_step Hrun; rewrite Hctx in Hrun;
    exec Hrun; [|returned H Hrun cv].
  destruct (Logo.layout p); exec Hrun;
    destruct (Logo.tagline p) as [|u rest]; exec Hrun;
    returned H Hrun cv; layout_calls; reflexivity.
Qed.

(** ** The images of a run *)



Lemma In_drawn img x y w h l :
  In (DrawImage img x y w h) l ->
  In (DrawImage img x y w h) (filter is_draw_image l).
Proof. intros H. apply filter_In. split; [exact H | reflexivity]. Qed.

(** Replace a run by its symbolic execution. *)
Ltac run_is Hrun :=
  lazymatch type of Hrun with
  | ?run = _ => subst run; cbn [snd fst]
  end.





(** ** The order of a generation *)

Lemma try_ok {R} (body : M (Page R) unit) message (p p' : Page R) :
  body p = (Ok tt, p') ->
  try_catch_finally body (setError message) (setLoading false) p =
  (Ok tt,
   {| error := error p'; loading := false; result := result p';
      events := events p' ++ [SetLoading false] |}).
Proof.
  intros H. unfold try_catch_finally. rewrite H. reflexivity.
Qed.

Lemma fst_ok {S} (m : outcome unit * S) : fst m = Ok tt -> m = (Ok tt, snd m).
Proof. destruct m as [o s]; cbn. intros ->. reflexivity. Qed.

Lemma encodes_only_no_download {R} u (es : list (Event R)) :
  Forall (encodes_only u) es ->
  forallb (fun e => negb (is_download_event e)) es = true.
Proof.
  induction 1 as [|e es He _ IH]; [reflexivity|].
  cbn. rewrite IH, andb_true_r. destruct e; cbn in *; tauto.
Qed.

Lemma submit_never_downloads {R} u (body : M (Page R) unit) message
  (cleared : R) (p : Page R) :
  sets_result_on_return (encodes_only u) body ->
  never_downloads p
    (snd (try_catch_finally body (setError message) (setLoading false)
            (started cleared p))).
Proof.
  intros Hbody.
  destruct (validated_trace _ body message (started cleared p) Hbody)
    as (es & tail & Hev & HP & Htail).
  exists ([PreventDefault; SetError []; SetLoading true; SetResult cleared]
          ++ es ++ tail).
  split.
  - rewrite Hev. unfold started; cbn [events]. rewrite <- app_assoc.
    reflexivity.
  - cbn. rewrite forallb_app, (encodes_only_no_download u es HP).
    destruct Htail as [-> | ->]; reflexivity.
Qed.

Lemma rejected_never_downloads {R} message (p : Page R) :
  never_downloads p (rejected message p).
Proof. eexists. split; reflexivity. Qed.

Lemma downloadAs_run fileName (p : Page (option jsstring)) u rest :
  result p = Some (u :: rest) ->
  downloadAs fileName p =
  (Ok tt,
   with_events p
     [CreateLink; SetHref (u :: rest); SetDownload fileName; Click]).
Proof.
  intros H. unfold downloadAs. rewrite H.
  unfold bind, emit, modify, with_events; cbn. rewrite <- !app_assoc.
  reflexivity.
Qed.

(** C2, amended.  On the business-card, banner and poster pages a
    generation that returns follows one ordered sequence: the trimmed URL
    is encoded by the QR encoder, then a fresh canvas is drawn on, the QR
    image last of all images, and exported with
    [canvas.toDataURL("image/png")] as its final call; the result is set
    after that.  The banner and business-card pages do this once.  The
    poster page starts one task per template: the three requests to the
    encoder are made first, in the order of the templates, and the three
    canvases follow in the same order, each drawing the answer to the
    request of its own template; a task whose request is rejected runs
    no canvas, the tasks of the other templates run all the same.  The
    logo page follows the same sequence without the encoding step and
    without any image.  No submit handler triggers a download; that is
    done by the download handlers, which only create a link to the
    stored data URL and click it.  The coordinates of the drawing calls
    are fixed by the code: one layout for the business card, one per
    arrangement for the logo; the banner's varies only with the measured
    width of the call-to-action text and the poster's only with the
    chosen QR size and the presence of a logo. *)
Theorem generation_order :
  (forall env f p u rest,
     trim (Banner.f_url f) = u :: rest ->
     fst (Banner.generate env f (u :: rest) (started None p)) = Ok tt ->
     generation_sequence env (u :: rest) None 1
       (fun urls r => exists d, urls = [d] /\ r = Some d)
       p (snd (Banner.handleSubmit env f p))) /\
  (forall env f p u rest,
     trim (BusinessCard.f_website f) = u :: rest ->
     fst (BusinessCard.generate env f (u :: rest) (started None p)) = Ok tt ->
     generation_sequence env (u :: rest) None 1
       (fun urls r => exists d, urls = [d] /\ r = Some d)
       p (snd (BusinessCard.handleSubmit env f p))) /\
  (forall env f p u rest,
     trim (Poster.f_url f) = u :: rest ->
     fst (Poster.generate env f (u :: rest) (started [] p)) = Ok tt ->
     batch_sequence env (u :: rest) [] 3
       (fun urls rs => urls = map Poster.posterUrl rs)
       p (snd (Poster.handleSubmit env f p))) /\
  (forall env f p,
     fst (Logo.generate env f (started None p)) = Ok tt ->
     exists before,
       events (snd (Logo.handleSubmit env f p)) =
         events p ++
         [PreventDefault; SetError []; SetLoading true; SetResult None] ++
         font_events env (font_string 700 58 DISPLAY_FONT)
                         (font_string 500 20 BODY_FONT) ++
         [CanvasRun (log (ToDataURL png) before);
          SetResult (Some (canvasToDataURL env before png));
          SetLoading false] /\
       filter is_image_or_export (calls before) = [] /\
       result (snd (Logo.handleSubmit env f p)) =
         Some (canvasToDataURL env before png)) /\
  (forall env f p, never_downloads p (snd (Banner.handleSubmit env f p))) /\
  (forall env f p,
     never_downloads p (snd (BusinessCard.handleSubmit env f p))) /\
  (forall env f p, never_downloads p (snd (Poster.handleSubmit env f p))) /\
  (forall env f p, never_downloads p (snd (Logo.handleSubmit env f p))) /\
  (forall p u rest,
     result p = Some (u :: rest) ->
     Banner.handleDownload p =
       (Ok tt, with_events p [CreateLink; SetHref (u :: rest);
                              SetDownload (lit "banner.png"); Click]) /\
     BusinessCard.handleDownload p =
       (Ok tt, with_events p [CreateLink; SetHref (u :: rest);
                              SetDownload (lit "business-card.png"); Click]) /\
     Logo.handleDownload p =
       (Ok tt, with_events p [CreateLink; SetHref (u :: rest);
                              SetDownload (lit "logo.png"); Click])) /\
  (forall env poster p,
     exists fileName,
       Poster.handleDownload env poster p =
         (Ok tt, with_events p [CreateLink; SetHref (Poster.posterUrl poster);
                                SetDownload fileName; Click])) /\
  (exists G, forall env p r cv,
     BusinessCard.createBusinessCard env p newCanvas = (Ok r, cv) ->
     layout_of (calls cv) = G) /\
  (exists G, forall env p r cv,
     Banner.createBanner env p newCanvas = (Ok r, cv) ->
     layout_of (calls cv) =
     G (measureText env (font_string 600 18 BODY_FONT) (Banner.cta p))) /\
  (exists Gplain Glogo, forall env p r cv,
     Poster.createPoster env p newCanvas = (Ok r, cv) ->
     layout_of (calls cv) =
     match Poster.logoImage p with
     | None => Gplain (Poster.qrSize p)
     | Some _ => Glogo (Poster.qrSize p)
     end) /\
  (exists Gh Ght Gs Gst, forall env p r cv,
     Logo.createLogo env p newCanvas = (Ok r, cv) ->
     layout_of (calls cv) =
     match Logo.layout p, Logo.tagline p with
     | Logo.horizontal, [] => Gh
     | Logo.horizontal, _ :: _ => Ght
     | Logo.stacked, [] => Gs
     | Logo.stacked, _ :: _ => Gst
     end) /\
  (forall env f p u rest logo,
     trim (Poster.f_url f) = u :: rest ->
     fonts_ok env (font_string 700 48 DISPLAY_FONT)
                  (font_string 500 20 BODY_FONT) = true ->
     poster_logo env f = Ok logo ->
     exists tail,
       events (snd (Poster.handleSubmit env f p)) =
         events p ++
         [PreventDefault; SetError []; SetLoading true; SetResult []] ++
         poster_setup env f ++
         poster_requests_of env f (u :: rest) ++
         flat_map (poster_canvas env f (u :: rest) logo)
           (Poster.templates env f) ++
         tail /\
       (tail = [SetResult (result (snd (Poster.handleSubmit env f p)));
                SetLoading false] \/
        tail = [SetError Poster.generationError; SetLoading false])).
Proof.
  split; [|split; [|split; [|split; [|split; [|split; [|split; [|split; [|split; [|split; [|split; [|split; [|split; [|split]]]]]]]]]]]]].
  - intros env f p u rest Hurl Hok.
    rewrite (Banner_handleSubmit_started env f p u rest Hurl).
    apply fst_ok in Hok. rewrite (try_ok _ _ _ _ Hok). cbn [snd].
    destruct (Banner_generate_ok _ _ _ _ _ Hok) as (r & cv & -> & Hembed).
    exists (font_events env (font_string 700 60 DISPLAY_FONT)
              (font_string 500 24 BODY_FONT)),
      [QrToDataURL (u :: rest) Banner.qrOptions; CanvasRun cv], [r], (Some r).
    split; [|split; [|split; [|split; [|split]]]].
    + cbn. rewrite <- !app_assoc. reflexivity.
    + unfold font_events. destruct (fontsApi env); reflexivity.
    + constructor; [exact Hembed | constructor].
    + reflexivity.
    + reflexivity.
    + exists r. split; reflexivity.
  - intros env f p u rest Hurl Hok.
    rewrite (BusinessCard_handleSubmit_started env f p u rest Hurl).
    apply fst_ok in Hok. rewrite (try_ok _ _ _ _ Hok). cbn [snd].
    destruct (BusinessCard_generate_ok _ _ _ _ _ Hok)
      as (r & cv & -> & Hembed).
    exists (font_events env (font_string 700 44 DISPLAY_FONT)
              (font_string 600 18 BODY_FONT)),
      [QrToDataURL (u :: rest) BusinessCard.qrOptions; CanvasRun cv],
      [r], (Some r).
    split; [|split; [|split; [|split; [|split]]]].
    + cbn. rewrite <- !app_assoc. reflexivity.
    + unfold font_events. destruct (fontsApi env); reflexivity.
    + constructor; [exact Hembed | constructor].
    + reflexivity.
    + reflexivity.
    + exists r. split; reflexivity.
  - intros env f p u rest Hurl Hok.
    rewrite (Poster_handleSubmit_started env f p u rest Hurl).
    apply fst_ok in Hok. rewrite (try_ok _ _ _ _ Hok). cbn [snd].
    destruct (Poster_generate_ok _ _ _ _ _ Hok)
      as (setup & canvases & rs & -> & Hsetup & Hemb & Hnames).
    exists setup,
      (map (Poster.qrOptions
              (Poster.resolveQrSize (toNumber env (Poster.f_size f))))
           (Poster.templates env f)),
      canvases, (map Poster.posterUrl rs), rs.
    split; [|split; [|split; [|split; [|split]]]].
    + cbn [events with_result started]. unfold poster_requests_of.
      rewrite map_map, <- !app_assoc. reflexivity.
    + exact Hsetup.
    + exact Hemb.
    + rewrite length_map. apply (f_equal (@List.length _)) in Hnames.
      rewrite !length_map in Hnames. exact Hnames.
    + reflexivity.
    + reflexivity.
  - intros env f p Hok.
    rewrite (Logo_handleSubmit_started env f p).
    apply fst_ok in Hok. rewrite (try_ok _ _ _ _ Hok). cbn [snd].
    destruct (Logo_generate_ok _ _ _ _ Hok) as (before & -> & Hf).
    exists before. split; [|split; [exact Hf | reflexivity]].
    cbn. rewrite <- !app_assoc. reflexivity.
  - intros env f p.
    destruct (trim (Banner.f_url f)) as [|u rest] eqn:E.
    + rewrite (Banner_handleSubmit_rejected env f p E).
      apply rejected_never_downloads.
    + rewrite (Banner_handleSubmit_started env f p u rest E).
      apply (submit_never_downloads (u :: rest)), Banner_generate_quiet.
  - intros env f p.
    destruct (trim (BusinessCard.f_website f)) as [|u rest] eqn:E.
    + rewrite (BusinessCard_handleSubmit_rejected env f p E).
      apply rejected_never_downloads.
    + rewrite (BusinessCard_handleSubmit_started env f p u rest E).
      apply (submit_never_downloads (u :: rest)),
        BusinessCard_generate_quiet.
  - intros env f p.
    destruct (trim (Poster.f_url f)) as [|u rest] eqn:E.
    + rewrite (Poster_handleSubmit_rejected env f p E).
      apply rejected_never_downloads.
    + rewrite (Poster_handleSubmit_started env f p u rest E).
      apply (submit_never_downloads (u :: rest)), Poster_generate_quiet.
  - intros env f p. rewrite (Logo_handleSubmit_started env f p).
    apply (submit_never_downloads []), Logo_generate_quiet.
  - intros p u rest H. split; [|split]; apply downloadAs_run, H.
  - intros env poster p. eexists. unfold Poster.handleDownload.
    unfold bind, emit, modify, with_events; cbn. rewrite <- !app_assoc.
    reflexivity.
  - exact card_layout.
  - exact banner_layout.
  - exact poster_layout.
  - exact logo_layout.
  - intros env f p u rest logo Hurl Hfonts Hlogo.
    rewrite (Poster_handleSubmit_run env f p u rest Hurl).
    unfold submitted, poster_generation. rewrite Hfonts, Hlogo.
    cbn [fst snd events result].
    destruct (all_of _) as [rs|e]; eexists;
      (split; [rewrite <- !app_assoc; reflexivity|]);
      [left|right]; reflexivity.
Qed.

(** C2 in a working browser, on the banner page and on the poster page,
    and on the poster page of a browser whose encoder rejects the request
    of the first template: the three requests are made all the same, and
    the canvases of the second and third template follow. *)
Lemma generation_order_witness :
  generation_sequence plain_env (lit "https://site2qr.com") None 1
    (fun urls r => exists d, urls = [d] /\ r = Some d)
    (idle None)
    (snd (Banner.handleSubmit plain_env
            (banner_form (lit " https://site2qr.com ")) (idle None))) /\
  batch_sequence plain_env (lit "https://site2qr.com") [] 3
    (fun urls rs => urls = map Poster.posterUrl rs)
    (idle [])
    (snd (Poster.handleSubmit plain_env
            (poster_form (lit " https://site2qr.com ")) (idle []))) /\
  exists tail,
    events (snd (Poster.handleSubmit choosy_env
                   (poster_form (lit " https://site2qr.com ")) (idle []))) =
      events (idle []) ++
      [PreventDefault; SetError []; SetLoading true; SetResult []] ++
      poster_setup choosy_env (poster_form (lit " https://site2qr.com ")) ++
      poster_requests_of choosy_env
        (poster_form (lit " https://site2qr.com "))
        (104%N :: lit "ttps://site2qr.com") ++
      flat_map (poster_canvas choosy_env
                  (poster_form (lit " https://site2qr.com "))
                  (104%N :: lit "ttps://site2qr.com") None)
        (Poster.templates choosy_env
           (poster_form (lit " https://site2qr.com "))) ++
      tail /\
    (tail = [SetResult
               (result (snd (Poster.handleSubmit choosy_env
                               (poster_form (lit " https://site2qr.com "))
                               (idle []))));
             SetLoading false] \/
     tail = [SetError Poster.generationError; SetLoading false]).
Proof.
  assert (Hurl : trim (Banner.f_url (banner_form (lit " https://site2qr.com ")))
                 = 104%N :: lit "ttps://site2qr.com") by reflexivity.
  assert (Hok :
            fst (Banner.generate plain_env
                   (banner_form (lit " https://site2qr.com "))
                   (104%N :: lit "ttps://site2qr.com")
                   (started None (idle None))) = Ok tt)
    by (vm_compute; reflexivity).
  assert (Hposter :
            trim (Poster.f_url (poster_form (lit " https://site2qr.com ")))
            = 104%N :: lit "ttps://site2qr.com") by reflexivity.
  assert (Hposter_ok :
            fst (Poster.generate plain_env
                   (poster_form (lit " https://site2qr.com "))
                   (104%N :: lit "ttps://site2qr.com")
                   (started [] (idle []))) = Ok tt)
    by (vm_compute; reflexivity).
  destruct generation_order
    as (Hbanner & _ & Hbatch & _ & _ & _ & _ & _ & _ & _ & _ & _ & _ & _
        & Htasks).
  split; [|split].
  - exact (Hbanner plain_env _ (idle None) _ _ Hurl Hok).
  - exact (Hbatch plain_env _ (idle []) _ _ Hposter Hposter_ok).
  - exact (Htasks choosy_env _ (idle []) _ _ None Hposter eq_refl eq_refl).
Defined.

(** In that browser the submission asks the encoder three times, runs
    two canvases and ends with the generation error. *)
Lemma rejected_task_does_not_stop_the_others :
  map (fun e => match e with
                | QrToDataURL _ _ => 1%nat
                | CanvasRun _ => 2%nat
                | SetError (_ :: _) => 3%nat
                | _ => 0%nat
                end)
      (events (snd (Poster.handleSubmit choosy_env
                      (poster_form (lit " https://site2qr.com ")) (idle []))))
  = [0; 0; 0; 0; 0; 0; 0; 1; 1; 1; 2; 2; 3; 0]%nat.
Proof. vm_compute. reflexivity. Qed.

(** The claim C2 as worded fails in two ways.  A logo generation that
    succeeds never calls the QR encoder and draws no image; and not all
    coordinates are hard-coded: the corner of the poster's QR image moves
    with the chosen QR size, and the banner's layout changes with the
    measured width of the call-to-action text. *)
Lemma logo_generation_skips_qr :
  (exists r,
     result (snd (Logo.handleSubmit plain_env logo_form (idle None)))
     = Some r) /\
  filter is_qr_event
    (events (snd (Logo.handleSubmit plain_env logo_form (idle None)))) = [] /\
  filter is_draw_image
    (calls (snd (Poster.createPoster plain_env (poster_payload 200) newCanvas)))
  = [DrawImage {| src := lit "data:image/png;qr,https://site2qr.com" |}
       ((1200 - (200 + 90)) / 2 + 45) (260 + 45) 200 200] /\
  filter is_draw_image
    (calls (snd (Poster.createPoster plain_env (poster_payload 360) newCanvas)))
  = [DrawImage {| src := lit "data:image/png;qr,https://site2qr.com" |}
       ((1200 - (360 + 90)) / 2 + 45) (260 + 45) 360 360] /\
  ~ ((1200 - (200 + 90)) / 2 + 45 == (1200 - (360 + 90)) / 2 + 45) /\
  layout_of (calls (snd (Banner.createBanner plain_env banner_payload
                           newCanvas)))
  <> layout_of (calls (snd (Banner.createBanner wide_env banner_payload
                              newCanvas))).
Proof.
  split; [eexists; vm_compute; reflexivity|].
  split; [vm_compute; reflexivity|].
  split; [vm_compute; reflexivity|].
  split; [vm_compute; reflexivity|].
  split; [intros H; vm_compute in H; discriminate H|].
  intros H. vm_compute in H. discriminate H.
Qed.

(** ** The QR image in the output *)







(** ** Square QR images, page by page *)

Section QuietReturn.
Context {R : Type}.
Variable P : Event R -> Prop.

(** [bind] when the continuation may rely on what the first step
    returned. *)
Lemma quiet_bind_ret {A B} (Q : A -> Prop) (m : M (Page R) A)
  (k : A -> M (Page R) B) :
  quiet P m ->
  (forall p a, fst (m p) = Ok a -> Q a) ->
  (forall a, Q a -> quiet P (k a)) ->
  quiet P (bind m k).
Proof.
  intros Hm HQ Hk p. unfold bind.
  destruct (Hm p) as (He & Hl & Hr & es & Hes & HP). specialize (HQ p).
  destruct (m p) as [[a|e] p1]; cbn in *.
  - destruct (Hk a (HQ a eq_refl) p1) as (He' & Hl' & Hr' & es' & Hes' & HP').
    repeat split; try congruence.
    exists (es ++ es'). rewrite Hes', Hes, app_assoc. split; [reflexivity|].
    apply Forall_app; split; assumption.
  - repeat split; try assumption. exists es. split; assumption.
Qed.


End QuietReturn.


(** A canvas run is judged by the canvas it leaves. *)
Lemma quiet_onNewCanvas_left {R A} (P : Event R -> Prop)
  (create : M Canvas A) :
  P (CanvasRun (snd (create newCanvas))) -> quiet P (onNewCanvas create).
Proof.
  intros H p. unfold onNewCanvas.
  destruct (create newCanvas) as [o cv]. cbn [snd] in *.
  split; [reflexivity|]. split; [reflexivity|]. split; [reflexivity|].
  exists [CanvasRun cv]. split; [reflexivity|].
  constructor; [exact H | constructor].
Qed.








(** ** The answer of the encoder is drawn *)












(** ** Validation of the URL field *)




(** ** Determinism of the compositing routines *)

Lemma bind_ext {S A B} (m1 m2 : M S A) (k1 k2 : A -> M S B) :
  (forall s, m1 s = m2 s) ->
  (forall a s, k1 a s = k2 a s) ->
  forall s, bind m1 k1 s = bind m2 k2 s.
Proof.
  intros Hm Hk s. unfold bind. rewrite Hm.
  destruct (m2 s) as [[a|e] s']; [apply Hk | reflexivity].
Qed.

Section SamePlatform.
Variables e1 e2 : Env.
Hypothesis Hsame : same_canvas_platform e1 e2.

Lemma shrinkLoop_ext text maxWidth fontFamily fontWeight :
  forall (n : nat) (size : Z) cv, (Z.to_nat (size - 14) <= n)%nat ->
    shrinkLoop e1 text maxWidth fontFamily fontWeight size cv =
    shrinkLoop e2 text maxWidth fontFamily fontWeight size cv.
Proof.
  destruct Hsame as (Hmeasure & _).
  induction n as [|n IH]; intros size cv Hn;
    rewrite (shrinkLoop_step e1), (shrinkLoop_step e2);
    destruct (Z_lt_dec 14 size) as [Hlt|Hge]; try reflexivity; try lia.
  cbv zeta. rewrite Hmeasure.
  destruct (Qle_bool _ maxWidth); [reflexivity|].
  apply IH. lia.
Qed.

Lemma drawFittedText_ext text maxWidth fontSize fontFamily fontWeight x y
  color align cv :
  drawFittedText e1 text maxWidth fontSize fontFamily fontWeight x y color
    align cv =
  drawFittedText e2 text maxWidth fontSize fontFamily fontWeight x y color
    align cv.
Proof.
  unfold drawFittedText.
  repeat (apply bind_ext; [reflexivity | intros ? ?]).
  apply bind_ext; [|reflexivity].
  intros ?. apply (shrinkLoop_ext _ _ _ _ (Z.to_nat (fontSize - 14))).
  apply le_n.
Qed.

Lemma Poster_drawFittedText_ext text maxWidth fontSize fontFamily fontWeight
  x y color cv :
  Poster.drawFittedText e1 text maxWidth fontSize fontFamily fontWeight x y
    color cv =
  Poster.drawFittedText e2 text maxWidth fontSize fontFamily fontWeight x y
    color cv.
Proof.
  unfold Poster.drawFittedText.
  repeat (apply bind_ext; [reflexivity | intros ? ?]).
  apply bind_ext; [|reflexivity].
  intros ?. apply (shrinkLoop_ext _ _ _ _ (Z.to_nat (fontSize - 14))).
  apply le_n.
Qed.

Lemma getContext_ext cv : getContext e1 cv = getContext e2 cv.
Proof.
  destruct Hsame as (_ & Hctx & _). unfold getContext. rewrite Hctx.
  reflexivity.
Qed.

Lemma loadImage_ext s cv : loadImage e1 call s cv = loadImage e2 call s cv.
Proof.
  destruct Hsame as (_ & _ & Himg & _). unfold loadImage. rewrite Himg.
  reflexivity.
Qed.

Lemma measure_ext text cv : measure e1 text cv = measure e2 text cv.
Proof.
  destruct Hsame as (Hmeasure & _). unfold measure. rewrite Hmeasure.
  reflexivity.
Qed.

Lemma toDataURL_ext mime cv : toDataURL e1 mime cv = toDataURL e2 mime cv.
Proof.
  destruct Hsame as (_ & _ & _ & _ & Hpng). unfold toDataURL. rewrite Hpng.
  reflexivity.
Qed.

Lemma getInitials_ext value : getInitials e1 value = getInitials e2 value.
Proof.
  destruct Hsame as (_ & _ & _ & Hupper & _). unfold getInitials.
  destruct (trim value); [reflexivity|].
  f_equal. apply map_ext. intros [|u w]; [reflexivity|].
  unfold toUpperCase. rewrite Hupper. reflexivity.
Qed.

(** Walk down a chain of binds whose steps are calls, helper routines or
    environment queries, looking at the head of each step only. *)
Ltac same_run :=
  repeat match goal with
  | |- ?a = ?b => constr_eq a b; reflexivity
  | |- bind _ _ _ = bind _ _ _ => apply bind_ext; [intros ? | intros ? ?]
  | |- getContext _ _ = getContext _ _ => apply getContext_ext
  | |- loadImage _ _ _ _ = loadImage _ _ _ _ => apply loadImage_ext
  | |- measure _ _ _ = measure _ _ _ => apply measure_ext
  | |- toDataURL _ _ _ = toDataURL _ _ _ => apply toDataURL_ext
  | |- drawFittedText _ _ _ _ _ _ _ _ _ _ _ = _ => apply drawFittedText_ext
  | |- Poster.drawFittedText _ _ _ _ _ _ _ _ _ _ = _ =>
      apply Poster_drawFittedText_ext
  | |- (match ?x with _ => _ end) _ = _ => destruct x
  end.

Lemma createBanner_ext p cv :
  Banner.createBanner e1 p cv = Banner.createBanner e2 p cv.
Proof. unfold Banner.createBanner. cbv zeta. same_run. Qed.

Lemma createBusinessCard_ext p cv :
  BusinessCard.createBusinessCard e1 p cv =
  BusinessCard.createBusinessCard e2 p cv.
Proof.
  unfold BusinessCard.createBusinessCard. cbv zeta.
  rewrite (getInitials_ext (BusinessCard.brandName p)). same_run.
Qed.

Lemma createPoster_ext p cv :
  Poster.createPoster e1 p cv = Poster.createPoster e2 p cv.
Proof. unfold Poster.createPoster. cbv zeta. same_run. Qed.

Lemma createLogo_ext p cv :
  Logo.createLogo e1 p cv = Logo.createLogo e2 p cv.
Proof.
  unfold Logo.createLogo. cbv zeta.
  rewrite (getInitials_ext (Logo.brandName p)).
  destruct (Logo.layout p); same_run.
Qed.

End SamePlatform.

(** C5.  The compositing routines are deterministic: two runs of
    [createPoster] (likewise [createBanner], [createBusinessCard],
    [createLogo]) on the same payload, in browsers that give the same
    text measurements and otherwise behave alike towards a canvas,
    perform the same sequence of calls, leave the same canvas and return
    the same PNG data URL (or throw the same error). *)
Theorem compositing_deterministic :
  forall e1 e2,
    same_canvas_platform e1 e2 ->
    (forall p, Poster.createPoster e1 p newCanvas =
               Poster.createPoster e2 p newCanvas) /\
    (forall p, Banner.createBanner e1 p newCanvas =
               Banner.createBanner e2 p newCanvas) /\
    (forall p, BusinessCard.createBusinessCard e1 p newCanvas =
               BusinessCard.createBusinessCard e2 p newCanvas) /\
    (forall p, Logo.createLogo e1 p newCanvas =
               Logo.createLogo e2 p newCanvas).
Proof.
  intros e1 e2 Hsame. split; [|split; [|split]]; intros p.
  - apply createPoster_ext, Hsame.
  - apply createBanner_ext, Hsame.
  - apply createBusinessCard_ext, Hsame.
  - apply createLogo_ext, Hsame.
Qed.

Lemma plain_other_same : same_canvas_platform plain_env other_page_env.
Proof. repeat split. Qed.

(** C5 for two browsers that differ in everything a compositing routine
    does not see. *)
Lemma compositing_deterministic_witness :
  Banner.createBanner plain_env banner_payload newCanvas =
  Banner.createBanner other_page_env banner_payload newCanvas.
Proof.
  exact (proj1 (proj2 (compositing_deterministic plain_env other_page_env
                         plain_other_same))
           banner_payload).
Defined.

(** ** The shrink loop of [drawFittedText] *)

(** The loop terminates for every starting size.  Its variable ends at
    the first size of [size, size - 2, ...] that is above 14 and fits, or
    else at the first that is at most 14.  The font left on the context
    is that of the last size the body assigned: the final size when the
    text fits, but the size before it (two more) when the loop ran out,
    and the font found on entry when the body never ran. *)
Lemma shrinkLoop_spec env text maxWidth fontFamily fontWeight :
  forall (n : nat) (size : Z) cv, (Z.to_nat (size - 14) <= n)%nat ->
  exists final cv',
    shrinkLoop env text maxWidth fontFamily fontWeight size cv
      = (Ok final, cv') /\
    (exists k, (0 <= k)%Z /\ final = (size - 2 * k)%Z) /\
    (forall k, (0 <= k)%Z -> (final < size - 2 * k)%Z ->
       (14 < size - 2 * k)%Z /\
       fits env text maxWidth fontFamily fontWeight (size - 2 * k) = false) /\
    ((14 < final)%Z ->
       fits env text maxWidth fontFamily fontWeight final = true /\
       font cv' = font_string fontWeight final fontFamily) /\
    ((final <= 14)%Z -> (14 < size)%Z ->
       (12 < final)%Z /\
       font cv' = font_string fontWeight (final + 2) fontFamily) /\
    ((size <= 14)%Z -> final = size /\ font cv' = font cv).
Proof.
  induction n as [|n IH]; intros size cv Hn; rewrite shrinkLoop_step;
    destruct (Z_lt_dec 14 size) as [Hlt|Hge]; try lia.
  - exists size, cv. split; [reflexivity|].
    split; [exists 0%Z; lia|]. repeat split; try lia; reflexivity.
  - cbv zeta.
    set (fs := font_string fontWeight size fontFamily).
    destruct (Qle_bool (measureText env fs text) maxWidth) eqn:Hfit.
    + eexists size, _. split; [reflexivity|].
      split; [exists 0%Z; lia|].
      split; [intros k Hk Hlt'; lia|].
      split; [intros _; split; [exact Hfit | reflexivity]|].
      split; intros; lia.
    + destruct (IH (size - 2)%Z
                  (log (MeasureText text)
                     (log (SetFont fs) (apply_call (SetFont fs) cv)))
                  ltac:(lia))
        as (final & cv' & Hrun & (k & Hk & Hfinal) & Habove & Hfits & Hout
            & Hskip).
      exists final, cv'. split; [exact Hrun|].
      split; [exists (k + 1)%Z; lia|].
      split.
      { intros j Hj Hlt'. destruct (Z.eq_dec j 0) as [->|Hj0].
        - rewrite Z.mul_0_r, Z.sub_0_r. split; [exact Hlt | exact Hfit].
        - replace (size - 2 * j)%Z with (size - 2 - 2 * (j - 1))%Z by lia.
          apply Habove; lia. }
      split; [exact Hfits|].
      split; [|intros; lia].
      intros Hle _. destruct (Z_lt_dec 14 (size - 2)) as [Hlt2|Hge2].
      * apply Hout; assumption.
      * destruct (Hskip ltac:(lia)) as [-> Hfont].
        split; [lia|]. rewrite Hfont.
        replace (size - 2 + 2)%Z with size by lia. reflexivity.
  - exists size, cv. split; [reflexivity|].
    split; [exists 0%Z; lia|]. repeat split; try lia; reflexivity.
Qed.

(** C10.  The banner draws its URL line with
    [drawFittedText(ctx, url, 1020, 16, BODY_FONT, 500, 120, 520, ...)].
    When the URL is wider than 1020 pixels at 16px the loop assigns the
    16px font, finds that it does not fit, lowers [size] to 14 and stops:
    the loop does terminate and its variable ends at 14, the first size
    of the sequence that is at most 14, but that size is never assigned
    to [ctx.font].  [fillText] draws with the 16px font, at which the
    text is known not to fit.  Called with a size of 14 the body never
    runs: family, weight and size are ignored and the text is drawn in
    the font the context happened to have (["10px sans-serif"] on a
    fresh one), although it would fit. *)
Theorem fitted_text_drawn_at_last_tried_size :
  let url := lit "https://site2qr.com/a-link-too-long-for-the-column" in
  let run :=
    drawFittedText wide_env url 1020 16 BODY_FONT 500 120 520
      (lit "rgba(248, 244, 230, 0.6)") (lit "left") newCanvas in
  let small :=
    drawFittedText plain_env url 1020 14 BODY_FONT 500 120 520
      (lit "rgba(248, 244, 230, 0.6)") (lit "left") newCanvas in
  fits plain_env url 1020 BODY_FONT 500 14 = true /\
  font (snd small) = lit "10px sans-serif" /\
  filter is_text_probe (calls (snd small)) = [] /\
  fst run = Ok tt /\
  loop_final wide_env url 1020 BODY_FONT 500 16 = 14%Z /\
  font (snd run) = font_string 500 16 BODY_FONT /\
  font (snd run) <> font_string 500 14 BODY_FONT /\
  fits wide_env url 1020 BODY_FONT 500 16 = false /\
  calls (snd run) =
    [SetTextAlign (lit "left");
     SetTextBaseline (lit "alphabetic");
     SetFillStyle (Color (lit "rgba(248, 244, 230, 0.6)"));
     SetFont (font_string 500 16 BODY_FONT);
     MeasureText url;
     FillText url 120 520].
Proof.
  cbv zeta.
  split; [vm_compute; reflexivity|].
  split; [vm_compute; reflexivity|].
  split; [vm_compute; reflexivity|].
  split; [vm_compute; reflexivity|].
  split; [vm_compute; reflexivity|].
  split; [vm_compute; reflexivity|].
  split; [intros H; vm_compute in H; discriminate H|].
  split; vm_compute; reflexivity.
Qed.

(** * Further properties of the code *)

(** ** Trimming *)

Lemma trimStart_split s :
  exists lead, s = lead ++ trimStart s /\ forallb is_space lead = true.
Proof.
  induction s as [|u s (lead & Hs & Hlead)]; cbn.
  - exists []. split; reflexivity.
  - destruct (is_space u) eqn:E.
    + exists (u :: lead). cbn. rewrite E, Hlead. split; [|reflexivity].
      f_equal. exact Hs.
    + exists []. split; reflexivity.
Qed.

Lemma trimEnd_split s :
  exists trail, s = trimEnd s ++ trail /\ forallb is_space trail = true.
Proof.
  unfold trimEnd. destruct (trimStart_split (rev s)) as (lead & Hs & Hlead).
  exists (rev lead). split.
  - rewrite <- rev_app_distr, <- Hs, rev_involutive. reflexivity.
  - rewrite forallb_rev. exact Hlead.
Qed.

(** [trim] cuts a whitespace-only prefix and a whitespace-only suffix. *)
Lemma trim_split s :
  exists lead trail,
    s = lead ++ trim s ++ trail /\
    forallb is_space lead = true /\ forallb is_space trail = true.
Proof.
  destruct (trimStart_split s) as (lead & Hs & Hlead).
  destruct (trimEnd_split (trimStart s)) as (trail & Ht & Htrail).
  exists lead, trail. unfold trim. rewrite <- Ht. auto.
Qed.

Lemma trimStart_fixed u s : is_space u = false -> trimStart (u :: s) = u :: s.
Proof. intros H. cbn. rewrite H. reflexivity. Qed.

(** What [trim] returns neither starts nor ends with whitespace. *)
Lemma trim_edges s u rest :
  trim s = u :: rest ->
  is_space u = false /\ is_space (last (u :: rest) u) = false.
Proof.
  intros H. split.
  - destruct (trimEnd_split (trimStart s)) as (trail & Ht & Htrail).
    fold (trim s) in Ht. rewrite H in Ht. cbn in Ht.
    apply (trimStart_head s u (rest ++ trail)). exact Ht.
  - unfold trim, trimEnd in H.
    destruct (trimStart (rev (trimStart s))) as [|w t] eqn:E.
    + discriminate H.
    + apply trimStart_head in E. rewrite <- H. cbn [rev].
      rewrite last_last. exact E.
Qed.

Lemma trim_fixed u rest :
  is_space u = false -> is_space (last (u :: rest) u) = false ->
  trim (u :: rest) = u :: rest.
Proof.
  intros Hu Hlast. unfold trim. rewrite (trimStart_fixed u rest Hu).
  unfold trimEnd.
  destruct (rev (u :: rest)) as [|w t] eqn:E.
  - apply (f_equal (@List.length _)) in E. rewrite length_rev in E.
    discriminate E.
  - assert (Hw : w = last (u :: rest) u).
    { rewrite <- (rev_involutive (u :: rest)), E. cbn [rev].
      rewrite last_last. reflexivity. }
    rewrite (trimStart_fixed w t); [|rewrite Hw; exact Hlast].
    rewrite <- E. apply rev_involutive.
Qed.

Lemma trim_idempotent s : trim (trim s) = trim s.
Proof.
  destruct (trim s) as [|u rest] eqn:E; [reflexivity|].
  destruct (trim_edges s u rest E) as [Hu Hlast].
  apply trim_fixed; assumption.
Qed.

(** ** Colours, once normalised, stay as they are *)

Lemma upper_hex_digit_facts u :
  is_upper_hex_digit u = true ->
  is_hex_digit u = true /\ is_space u = false /\ ascii_upper u = u.
Proof.
  unfold is_upper_hex_digit, is_hex_digit, is_space, ascii_upper.
  intros H. rewrite !orb_true_iff, !andb_true_iff, !N.leb_le in H.
  assert (Hr : (48 <= u <= 70)%N) by lia.
  repeat split.
  - rewrite !orb_true_iff, !andb_true_iff, !N.leb_le. lia.
  - repeat (apply orb_false_intro);
      try (apply N.eqb_neq; lia);
      apply andb_false_iff; rewrite !N.leb_gt; lia.
  - destruct ((97 <=? u) && (u <=? 122))%N eqn:E; [|reflexivity].
    rewrite andb_true_iff, !N.leb_le in E. lia.
Qed.

Lemma Forall_last {A} (P : A -> Prop) l :
  forall d, P d -> Forall P l -> P (last l d).
Proof.
  induction l as [|y l IH]; intros d Hd Hl; [exact Hd|].
  inversion Hl as [|? ? Hy Hl']; subst.
  destruct l as [|z l]; [exact Hy|].
  change (P (last (z :: l) d)). apply IH; assumption.
Qed.

Lemma upper_hex_fixed up r fallback :
  UpperHexColor r -> normalizeHex up r fallback = r.
Proof.
  intros (digits & -> & Hlen & Hall).
  assert (Hfacts : Forall (fun u => is_space u = false /\ ascii_upper u = u)
                     (hash :: digits)).
  { constructor; [split; reflexivity|].
    eapply Forall_impl; [|exact Hall].
    intros u Hu. apply upper_hex_digit_facts in Hu. tauto. }
  assert (Htrim : trim (hash :: digits) = hash :: digits).
  { apply trim_fixed; [reflexivity|].
    apply (Forall_last (fun u => is_space u = false)); [reflexivity|].
    eapply Forall_impl; [|exact Hfacts]. cbn. tauto. }
  assert (Hhex : HexColor (hash :: digits)).
  { exists digits. split; [reflexivity|]. split; [exact Hlen|].
    eapply Forall_impl; [|exact Hall].
    intros u Hu. apply upper_hex_digit_facts, Hu. }
  unfold normalizeHex. rewrite Htrim.
  apply hexPattern_iff in Hhex as Htest. rewrite Htest.
  destruct (toUpperCase_hex up _ Hhex) as [-> _].
  clear - Hfacts. induction Hfacts as [|u l (_ & Hu) _ IH]; [reflexivity|].
  cbn. rewrite Hu, IH. reflexivity.
Qed.

(** X1.  [normalizeHex] is idempotent: a colour it returned is returned
    unchanged when normalised again, whatever the second fallback. *)
Theorem normalizeHex_idempotent :
  forall up value fallback fallback',
    UpperHexColor fallback ->
    normalizeHex up (normalizeHex up value fallback) fallback' =
    normalizeHex up value fallback.
Proof.
  intros up value fallback fallback' Hfb.
  apply upper_hex_fixed, normalizeHex_upper, Hfb.
Qed.

Lemma normalizeHex_idempotent_witness :
  normalizeHex (fun s => s)
    (normalizeHex (fun s => s) (lit " #a0b1c2") DEFAULT_PRIMARY) [] =
  lit "#A0B1C2".
Proof.
  rewrite (normalizeHex_idempotent (fun s => s) (lit " #a0b1c2")
             DEFAULT_PRIMARY [] DEFAULT_PRIMARY_upper).
  reflexivity.
Defined.

(** ** [truncateText] at its limits *)

(** X2.  Truncating twice is truncating once. *)
Theorem truncateText_idempotent :
  forall value maxLength,
    (3 <= maxLength)%Z ->
    truncateText (truncateText value maxLength) maxLength =
    truncateText value maxLength.
Proof.
  intros value maxLength H.
  pose proof (truncateText_bound value maxLength H) as Hb.
  unfold truncateText at 1. apply Z.leb_le in Hb. rewrite Hb. reflexivity.
Qed.

Lemma truncateText_idempotent_witness :
  truncateText (truncateText (lit "abcdefghij") 5) 5 = lit "ab...".
Proof.
  rewrite (truncateText_idempotent (lit "abcdefghij") 5 ltac:(lia)).
  reflexivity.
Defined.

(** X3.  Below a limit of 3 there is no room for the ellipsis: a string that
    is longer than the limit comes back [max (length + maxLength) 3]
    units long, always more than the limit and, for a limit of 1 or 2,
    more than the string itself. *)
Theorem truncateText_small_limit :
  forall value maxLength,
    (maxLength < 3)%Z ->
    (maxLength < str_length value)%Z ->
    str_length (truncateText value maxLength) =
      Z.max (str_length value + maxLength) 3 /\
    (maxLength < str_length (truncateText value maxLength))%Z.
Proof.
  intros value maxLength Hm Hlen.
  assert (Hnn : (0 <= str_length value)%Z) by (unfold str_length; lia).
  assert (Hgoal : str_length (truncateText value maxLength) =
                  Z.max (str_length value + maxLength) 3).
  { unfold truncateText.
    destruct (str_length value <=? maxLength)%Z eqn:E;
      [apply Z.leb_le in E; lia|].
    rewrite str_length_app. unfold slice.
    destruct (0 <? 0)%Z eqn:E0; [discriminate|].
    destruct (maxLength - 3 <? 0)%Z eqn:E3; [|apply Z.ltb_ge in E3; lia].
    rewrite (Z.min_l 0) by lia. cbn [skipn Z.to_nat].
    unfold str_length at 1. rewrite length_firstn.
    unfold str_length in *. cbn [List.length lit map list_ascii_of_string].
    lia. }
  split; [exact Hgoal | lia].
Qed.

Lemma truncateText_small_limit_witness :
  str_length (truncateText (lit "abcdefghij") 2) = 12%Z.
Proof.
  exact (proj1 (truncateText_small_limit (lit "abcdefghij") 2
                  ltac:(lia) ltac:(vm_compute; reflexivity))).
Defined.

(** ** Colour arithmetic of the poster page *)

Lemma check_below (f : code_unit -> bool) (n : nat) :
  forallb f (units_below n) = true ->
  forall u, (u < N.of_nat n)%N -> f u = true.
Proof.
  intros Hall u Hu. rewrite forallb_forall in Hall. apply Hall.
  unfold units_below. rewrite <- (N2Nat.id u). apply in_map, in_seq. lia.
Qed.

Lemma hex_digit_below u : is_hex_digit u = true -> (u < 128)%N.
Proof.
  unfold is_hex_digit.
  rewrite !orb_true_iff, !andb_true_iff, !N.leb_le. lia.
Qed.

Lemma str_eqb_eq a b : str_eqb a b = true -> a = b.
Proof.
  revert b. induction a as [|x a IH]; intros [|y b]; cbn;
    try discriminate; [reflexivity|].
  intros H. apply andb_prop in H as [Hx Hab].
  apply N.eqb_eq in Hx. subst y. f_equal. apply IH, Hab.
Qed.

Lemma all_channels_parse :
  forallb (fun u1 => forallb (channel_parses u1) (units_below 128))
    (units_below 128) = true.
Proof. vm_compute. reflexivity. Qed.

Lemma all_channels_print : forallb channel_prints (units_below 256) = true.
Proof. vm_compute. reflexivity. Qed.

Lemma channel_parse u1 u2 :
  is_hex_digit u1 = true -> is_hex_digit u2 = true ->
  exists v,
    Poster.parseInt16 [u1; u2] = Some v /\
    (0 <= v <= 255)%Z /\
    forallb is_ascii (Poster.toHex (Some v)) = true /\
    map ascii_upper (Poster.toHex (Some v)) = [ascii_upper u1; ascii_upper u2].
Proof.
  intros H1 H2.
  pose proof (check_below _ 128 all_channels_parse u1 (hex_digit_below u1 H1))
    as Hrow.
  pose proof (check_below _ 128 Hrow u2 (hex_digit_below u2 H2)) as Hc.
  unfold channel_parses in Hc. rewrite H1, H2 in Hc. cbn [andb implb] in Hc.
  destruct (Poster.parseInt16 [u1; u2]) as [v|]; [|discriminate Hc].
  rewrite !andb_true_iff, !Z.leb_le in Hc.
  destruct Hc as [[[H0 H255] Hascii] Heq].
  exists v. repeat split; try assumption. apply str_eqb_eq, Heq.
Qed.

Lemma channel_print v :
  (0 <= v <= 255)%Z ->
  exists a b,
    Poster.toHex (Some v) = [a; b] /\
    is_ascii a = true /\ is_ascii b = true /\
    is_upper_hex_digit (ascii_upper a) = true /\
    is_upper_hex_digit (ascii_upper b) = true /\
    Poster.parseInt16 [ascii_upper a; ascii_upper b] = Some v.
Proof.
  intros Hv.
  pose proof (check_below _ 256 all_channels_print (Z.to_N v) ltac:(lia)) as Hc.
  unfold channel_prints in Hc. rewrite Z2N.id in Hc by lia.
  destruct (Poster.toHex (Some v)) as [|a [|b [|c l]]]; try discriminate Hc.
  rewrite !andb_true_iff in Hc. destruct Hc as [[[[Ha Hb] Hua] Hub] Hp].
  destruct (Poster.parseInt16 [ascii_upper a; ascii_upper b]) as [w|] eqn:Hw;
    [|discriminate Hp].
  apply Z.eqb_eq in Hp. subst w.
  exists a, b. repeat split; assumption.
Qed.

(** The six digits of a hex colour. *)
Lemma hex_color_digits c :
  HexColor c ->
  exists d1 d2 d3 d4 d5 d6,
    c = [hash; d1; d2; d3; d4; d5; d6] /\
    is_hex_digit d1 = true /\ is_hex_digit d2 = true /\
    is_hex_digit d3 = true /\ is_hex_digit d4 = true /\
    is_hex_digit d5 = true /\ is_hex_digit d6 = true.
Proof.
  intros (digits & -> & Hlen & Hall).
  destruct digits as [|d1 [|d2 [|d3 [|d4 [|d5 [|d6 [|d7 l]]]]]]];
    try discriminate Hlen.
  exists d1, d2, d3, d4, d5, d6.
  repeat match goal with
         | H : Forall _ (_ :: _) |- _ => inversion H; clear H; subst
         end.
  repeat split; assumption.
Qed.

Lemma hexToRgb_digits d1 d2 d3 d4 d5 d6 :
  Poster.hexToRgb [hash; d1; d2; d3; d4; d5; d6] =
  {| Poster.r := Poster.parseInt16 [d1; d2];
     Poster.g := Poster.parseInt16 [d3; d4];
     Poster.b := Poster.parseInt16 [d5; d6] |}.
Proof. reflexivity. Qed.

Lemma toUpperCase_ascii up s :
  forallb is_ascii s = true -> toUpperCase up s = map ascii_upper s.
Proof. intros H. unfold toUpperCase. rewrite H. reflexivity. Qed.

Lemma upper_is_hex c : UpperHexColor c -> HexColor c.
Proof.
  intros (digits & -> & Hlen & Hall). exists digits.
  split; [reflexivity|]. split; [exact Hlen|].
  eapply Forall_impl; [|exact Hall].
  intros u Hu. apply upper_hex_digit_facts, Hu.
Qed.

(** Printing three channels whose printed forms are known. *)
Lemma rgbToHex_digits env r g b a1 a2 a3 a4 a5 a6 :
  Poster.toHex r = [a1; a2] -> Poster.toHex g = [a3; a4] ->
  Poster.toHex b = [a5; a6] ->
  forallb is_ascii [a1; a2; a3; a4; a5; a6] = true ->
  Poster.rgbToHex env r g b =
  hash :: map ascii_upper [a1; a2; a3; a4; a5; a6].
Proof.
  intros Hr Hg Hb Hascii. unfold Poster.rgbToHex.
  rewrite Hr, Hg, Hb. cbn [app].
  rewrite toUpperCase_ascii; [reflexivity|].
  cbn [forallb]. cbn [forallb] in Hascii. rewrite Hascii. reflexivity.
Qed.

Lemma two_units (s : jsstring) x y :
  map ascii_upper s = [x; y] -> exists a b, s = [a; b].
Proof.
  destruct s as [|a [|b [|c l]]]; cbn; intros H; try discriminate H.
  exists a, b. reflexivity.
Qed.

Lemma hex_round_trip env c :
  HexColor c ->
  Poster.rgbToHex env
    (Poster.r (Poster.hexToRgb c)) (Poster.g (Poster.hexToRgb c))
    (Poster.b (Poster.hexToRgb c)) =
  map ascii_upper c.
Proof.
  intros Hc.
  destruct (hex_color_digits c Hc)
    as (d1 & d2 & d3 & d4 & d5 & d6 & -> & H1 & H2 & H3 & H4 & H5 & H6).
  rewrite hexToRgb_digits. cbn [Poster.r Poster.g Poster.b].
  destruct (channel_parse d1 d2 H1 H2) as (v1 & -> & _ & Ha1 & Hu1).
  destruct (channel_parse d3 d4 H3 H4) as (v2 & -> & _ & Ha2 & Hu2).
  destruct (channel_parse d5 d6 H5 H6) as (v3 & -> & _ & Ha3 & Hu3).
  destruct (two_units _ _ _ Hu1) as (a1 & a2 & E1).
  destruct (two_units _ _ _ Hu2) as (a3 & a4 & E2).
  destruct (two_units _ _ _ Hu3) as (a5 & a6 & E3).
  rewrite E1 in Ha1, Hu1. rewrite E2 in Ha2, Hu2. rewrite E3 in Ha3, Hu3.
  rewrite (rgbToHex_digits env _ _ _ _ _ _ _ _ _ E1 E2 E3).
  - cbn [map] in *.
    injection Hu1 as -> ->. injection Hu2 as -> ->. injection Hu3 as -> ->.
    reflexivity.
  - cbn [forallb] in *.
    apply andb_prop in Ha1 as [-> Ha1]. apply andb_prop in Ha1 as [-> _].
    apply andb_prop in Ha2 as [-> Ha2]. apply andb_prop in Ha2 as [-> _].
    apply andb_prop in Ha3 as [-> Ha3]. apply andb_prop in Ha3 as [-> _].
    reflexivity.
Qed.

(** X4.  Parsing a hex colour and printing the channels gives the colour
    back, in upper case. *)
Theorem rgbToHex_hexToRgb :
  forall env c,
    HexColor c ->
    Poster.rgbToHex env
      (Poster.r (Poster.hexToRgb c)) (Poster.g (Poster.hexToRgb c))
      (Poster.b (Poster.hexToRgb c)) =
    map ascii_upper c.
Proof. intros env c Hc. apply hex_round_trip, Hc. Qed.

Lemma rgbToHex_hexToRgb_witness :
  Poster.rgbToHex plain_env
    (Poster.r (Poster.hexToRgb (lit "#d6b36c")))
    (Poster.g (Poster.hexToRgb (lit "#d6b36c")))
    (Poster.b (Poster.hexToRgb (lit "#d6b36c"))) = lit "#D6B36C".
Proof.
  apply (rgbToHex_hexToRgb plain_env (lit "#d6b36c")).
  exists (lit "d6b36c"). split; [reflexivity|]. split; [reflexivity|].
  repeat constructor.
Defined.

(** Three channels in [0, 255] print as an upper-case hex colour that
    parses back to them. *)
Lemma rgbToHex_channels env r g b :
  (0 <= r <= 255)%Z -> (0 <= g <= 255)%Z -> (0 <= b <= 255)%Z ->
  UpperHexColor (Poster.rgbToHex env (Some r) (Some g) (Some b)) /\
  Poster.hexToRgb (Poster.rgbToHex env (Some r) (Some g) (Some b)) =
  {| Poster.r := Some r; Poster.g := Some g; Poster.b := Some b |}.
Proof.
  intros Hr Hg Hb.
  destruct (channel_print r Hr) as (a1 & a2 & E1 & A1 & A2 & U1 & U2 & P1).
  destruct (channel_print g Hg) as (a3 & a4 & E2 & A3 & A4 & U3 & U4 & P2).
  destruct (channel_print b Hb) as (a5 & a6 & E3 & A5 & A6 & U5 & U6 & P3).
  rewrite (rgbToHex_digits env _ _ _ _ _ _ _ _ _ E1 E2 E3)
    by (cbn [forallb]; rewrite A1, A2, A3, A4, A5, A6; reflexivity).
  cbn [map]. split.
  - eexists. split; [reflexivity|]. split; [reflexivity|].
    repeat constructor; assumption.
  - rewrite hexToRgb_digits, P1, P2, P3. reflexivity.
Qed.

(** X5.  Printing three channels in [0, 255] and parsing the colour gives
    the channels back. *)
Theorem hexToRgb_rgbToHex :
  forall env r g b,
    (0 <= r <= 255)%Z -> (0 <= g <= 255)%Z -> (0 <= b <= 255)%Z ->
    Poster.hexToRgb (Poster.rgbToHex env (Some r) (Some g) (Some b)) =
    {| Poster.r := Some r; Poster.g := Some g; Poster.b := Some b |}.
Proof. intros env r g b Hr Hg Hb. apply rgbToHex_channels; assumption. Qed.

Lemma hexToRgb_rgbToHex_witness :
  Poster.hexToRgb (Poster.rgbToHex plain_env (Some 214) (Some 179) (Some 108))%Z =
  {| Poster.r := Some 214; Poster.g := Some 179; Poster.b := Some 108 |}%Z.
Proof. apply (hexToRgb_rgbToHex plain_env 214 179 108); lia. Defined.

(** The channels of a hex colour are numbers in [0, 255]. *)
Lemma hexToRgb_range c :
  HexColor c ->
  channel_in_range (Poster.r (Poster.hexToRgb c)) /\
  channel_in_range (Poster.g (Poster.hexToRgb c)) /\
  channel_in_range (Poster.b (Poster.hexToRgb c)).
Proof.
  intros Hc.
  destruct (hex_color_digits c Hc)
    as (d1 & d2 & d3 & d4 & d5 & d6 & -> & H1 & H2 & H3 & H4 & H5 & H6).
  rewrite hexToRgb_digits. cbn [Poster.r Poster.g Poster.b].
  destruct (channel_parse d1 d2 H1 H2) as (v1 & -> & R1 & _).
  destruct (channel_parse d3 d4 H3 H4) as (v2 & -> & R2 & _).
  destruct (channel_parse d5 d6 H5 H6) as (v3 & -> & R3 & _).
  repeat split; eexists; (split; [reflexivity | assumption]).
Qed.

Lemma Qfloor_unique (q : Q) (n : Z) :
  inject_Z n <= q -> q < inject_Z (n + 1) -> Qfloor q = n.
Proof.
  intros Hlo Hhi.
  pose proof (Qfloor_le q) as Hf. pose proof (Qlt_floor q) as Hl.
  assert (H1 : (n < Qfloor q + 1)%Z).
  { rewrite Zlt_Qlt. eapply Qle_lt_trans; [exact Hlo | exact Hl]. }
  assert (H2 : (Qfloor q < n + 1)%Z).
  { rewrite Zlt_Qlt. eapply Qle_lt_trans; [exact Hf | exact Hhi]. }
  lia.
Qed.

Lemma mix_range t x y :
  0 <= t -> t <= 1 ->
  (0 <= x <= 255)%Z -> (0 <= y <= 255)%Z ->
  exists v, Poster.mix t (Some x) (Some y) = Some v /\ (0 <= v <= 255)%Z.
Proof.
  intros Ht0 Ht1 [Hx0 Hx1] [Hy0 Hy1]. unfold Poster.mix.
  eexists. split; [reflexivity|].
  rewrite Zle_Qle in Hx0, Hx1, Hy0, Hy1.
  set (qx := inject_Z x) in *. set (qy := inject_Z y) in *.
  change (inject_Z 0) with 0 in *. change (inject_Z 255) with 255 in *.
  assert (Hlo : 0 <= qx + (qy - qx) * t) by nra.
  assert (Hhi : qx + (qy - qx) * t <= 255) by nra.
  split.
  - change 0%Z with (Qfloor 0). apply Qfloor_resp_le. lra.
  - change 255%Z with (Qfloor (255 + (1 # 2))). apply Qfloor_resp_le. lra.
Qed.

Lemma monotone_proper fl x y : monotone fl -> x == y -> fl x == fl y.
Proof.
  intros Hmono Hxy. apply Qle_antisym; apply Hmono; rewrite Hxy; apply Qle_refl.
Qed.

Lemma mix_fl_range fl t x y :
  monotone fl -> keeps_small_integers fl ->
  0 <= t -> t <= 1 ->
  (0 <= x <= 255)%Z -> (0 <= y <= 255)%Z ->
  exists v, Poster.mix_fl fl t (Some x) (Some y) = Some v /\ (0 <= v <= 255)%Z.
Proof.
  intros Hmono Hkeep Ht0 Ht1 Hx Hy. unfold Poster.mix_fl.
  eexists. split; [reflexivity|].
  assert (Hdiff : inject_Z y - inject_Z x == inject_Z (y - x)).
  { unfold Zminus. rewrite inject_Z_plus, inject_Z_opp. reflexivity. }
  assert (H0 : fl 0 == 0) by (apply (Hkeep 0%Z); lia).
  assert (Hd : fl (inject_Z (y - x)) == inject_Z (y - x))
    by (apply Hkeep; lia).
  assert (Hfx : fl (inject_Z x) == inject_Z x) by (apply Hkeep; lia).
  assert (Hfy : fl (inject_Z y) == inject_Z y) by (apply Hkeep; lia).
  set (p := fl ((inject_Z y - inject_Z x) * t)).
  assert (Hsum : forall lo hi,
             (0 <= lo)%Z -> (hi <= 255)%Z ->
             fl (inject_Z lo) == inject_Z lo ->
             fl (inject_Z hi) == inject_Z hi ->
             inject_Z lo <= inject_Z x + p -> inject_Z x + p <= inject_Z hi ->
             (0 <= Qfloor (fl (inject_Z x + p) + (1 # 2))%Q <= 255)%Z).
  { intros lo hi Hlo Hhi Hflo Hfhi Hl Hh.
    apply Hmono in Hl. apply Hmono in Hh. rewrite Hflo in Hl. rewrite Hfhi in Hh.
    rewrite Zle_Qle in Hlo, Hhi.
    change (inject_Z 0) with 0 in Hlo. change (inject_Z 255) with 255 in Hhi.
    split.
    - change 0%Z with (Qfloor 0). apply Qfloor_resp_le. lra.
    - change 255%Z with (Qfloor (255 + (1 # 2))). apply Qfloor_resp_le. lra. }
  destruct (Z_le_gt_dec x y) as [Hxy|Hxy].
  - assert (Hd0 : 0 <= inject_Z (y - x)) by (rewrite <- (Zle_Qle 0); lia).
    assert (Hp0 : 0 <= p).
    { rewrite <- H0. apply Hmono. rewrite Hdiff. nra. }
    assert (Hp1 : p <= inject_Z (y - x)).
    { rewrite <- Hd. apply Hmono. rewrite Hdiff. nra. }
    apply (Hsum x y); [lia | lia | exact Hfx | exact Hfy | lra | lra].
  - assert (Hd0 : inject_Z (y - x) <= 0) by (rewrite <- (Zle_Qle _ 0); lia).
    assert (Hp0 : p <= 0).
    { rewrite <- H0. apply Hmono. rewrite Hdiff. nra. }
    assert (Hp1 : inject_Z (y - x) <= p).
    { rewrite <- Hd. apply Hmono. rewrite Hdiff. nra. }
    apply (Hsum y x); [lia | lia | exact Hfy | exact Hfx | lra | lra].
Qed.

Lemma to_sixteenth_monotone : monotone to_sixteenth.
Proof.
  intros x y Hxy. unfold to_sixteenth.
  apply Qmult_le_compat_r; [|discriminate].
  rewrite <- Zle_Qle. apply Qfloor_resp_le. lra.
Qed.

Lemma to_sixteenth_integers : keeps_small_integers to_sixteenth.
Proof.
  intros n _. unfold to_sixteenth.
  assert (Hfloor : Qfloor (inject_Z n * 16 + (1 # 2)) = (n * 16)%Z).
  { apply Qfloor_unique.
    - rewrite inject_Z_mult. change (inject_Z 16) with 16. lra.
    - rewrite inject_Z_plus, inject_Z_mult.
      change (inject_Z 16) with 16. change (inject_Z 1) with 1. lra. }
  rewrite Hfloor, inject_Z_mult. change (inject_Z 16) with 16. field.
Qed.

(** X6.  A mix of two hex colours by an amount in [0, 1] is a well-formed
    upper-case hex colour, however the product and the sum of [mix] are
    rounded, as long as the rounding is monotone and leaves the integers
    from -255 to 255 alone; rounding to the nearest double is, and so is
    not rounding at all, which gives [mixHex]. *)
Theorem mixHex_well_formed :
  (forall fl env first second amount,
     monotone fl -> keeps_small_integers fl ->
     HexColor first -> HexColor second ->
     0 <= amount -> amount <= 1 ->
     UpperHexColor (Poster.mixHex_fl fl env first second amount)) /\
  (forall env first second amount,
     Poster.mixHex_fl (fun q => q) env first second amount =
     Poster.mixHex env first second amount) /\
  (forall env first second amount,
     HexColor first -> HexColor second ->
     0 <= amount -> amount <= 1 ->
     UpperHexColor (Poster.mixHex env first second amount)).
Proof.
  assert (Hfl : forall fl env first second amount,
             monotone fl -> keeps_small_integers fl ->
             HexColor first -> HexColor second ->
             0 <= amount -> amount <= 1 ->
             UpperHexColor (Poster.mixHex_fl fl env first second amount)).
  { intros fl env c1 c2 t Hmono Hkeep H1 H2 Ht0 Ht1. unfold Poster.mixHex_fl.
    destruct (hexToRgb_range c1 H1)
      as ((r1 & -> & R1) & (g1 & -> & G1) & (b1 & -> & B1)).
    destruct (hexToRgb_range c2 H2)
      as ((r2 & -> & R2) & (g2 & -> & G2) & (b2 & -> & B2)).
    destruct (mix_fl_range fl t r1 r2 Hmono Hkeep Ht0 Ht1 R1 R2) as (r & -> & Hr).
    destruct (mix_fl_range fl t g1 g2 Hmono Hkeep Ht0 Ht1 G1 G2) as (g & -> & Hg).
    destruct (mix_fl_range fl t b1 b2 Hmono Hkeep Ht0 Ht1 B1 B2) as (b & -> & Hb).
    apply rgbToHex_channels; assumption. }
  split; [exact Hfl|]. split; [reflexivity|].
  intros env c1 c2 t H1 H2 Ht0 Ht1.
  apply (Hfl (fun q => q) env c1 c2 t); try assumption.
  - intros x y H. exact H.
  - intros n _. reflexivity.
Qed.

(** X6 for a mix whose sums and products are rounded to sixteenths. *)
Lemma mixHex_well_formed_witness :
  UpperHexColor
    (Poster.mixHex_fl to_sixteenth plain_env (lit "#0B0B10") (lit "#d6b36c")
       0.12).
Proof.
  apply (proj1 mixHex_well_formed to_sixteenth plain_env
           (lit "#0B0B10") (lit "#d6b36c") 0.12).
  - exact to_sixteenth_monotone.
  - exact to_sixteenth_integers.
  - exists (lit "0B0B10"). split; [reflexivity|]. split; [reflexivity|].
    repeat constructor.
  - exists (lit "d6b36c"). split; [reflexivity|]. split; [reflexivity|].
    repeat constructor.
  - vm_compute. discriminate.
  - vm_compute. discriminate.
Defined.

Lemma mix_zero x y : Poster.mix 0 (Some x) (Some y) = Some x.
Proof.
  unfold Poster.mix. f_equal. apply Qfloor_unique.
  - set (qx := inject_Z x). set (qy := inject_Z y). lra.
  - rewrite inject_Z_plus. change (inject_Z 1) with 1.
    set (qx := inject_Z x). set (qy := inject_Z y). lra.
Qed.

Lemma mix_one x y : Poster.mix 1 (Some x) (Some y) = Some y.
Proof.
  unfold Poster.mix. f_equal. apply Qfloor_unique.
  - set (qx := inject_Z x). set (qy := inject_Z y). lra.
  - rewrite inject_Z_plus. change (inject_Z 1) with 1.
    set (qx := inject_Z x). set (qy := inject_Z y). lra.
Qed.

Lemma mix_same t x : Poster.mix t (Some x) (Some x) = Some x.
Proof.
  unfold Poster.mix. f_equal. apply Qfloor_unique.
  - set (qx := inject_Z x). nra.
  - rewrite inject_Z_plus. change (inject_Z 1) with 1.
    set (qx := inject_Z x). nra.
Qed.

(** X7.  The ends of a mix are its arguments, upper-cased, and a colour
    mixed with itself is unchanged by any amount. *)
Theorem mixHex_endpoints :
  forall env first second amount,
    HexColor first -> HexColor second ->
    Poster.mixHex env first second 0 = map ascii_upper first /\
    Poster.mixHex env first second 1 = map ascii_upper second /\
    Poster.mixHex env first first amount = map ascii_upper first.
Proof.
  intros env c1 c2 t H1 H2.
  pose proof (hex_round_trip env c1 H1) as E1.
  pose proof (hex_round_trip env c2 H2) as E2.
  unfold Poster.mixHex.
  destruct (hexToRgb_range c1 H1)
    as ((r1 & Hr1 & _) & (g1 & Hg1 & _) & (b1 & Hb1 & _)).
  destruct (hexToRgb_range c2 H2)
    as ((r2 & Hr2 & _) & (g2 & Hg2 & _) & (b2 & Hb2 & _)).
  rewrite Hr1, Hg1, Hb1 in *. rewrite Hr2, Hg2, Hb2 in *.
  rewrite !mix_zero, !mix_one, !mix_same.
  repeat split; assumption.
Qed.

Lemma mixHex_endpoints_witness :
  Poster.mixHex plain_env (lit "#0b0b10") (lit "#d6b36c") 0 = lit "#0B0B10" /\
  Poster.mixHex plain_env (lit "#0b0b10") (lit "#d6b36c") 1 = lit "#D6B36C" /\
  Poster.mixHex plain_env (lit "#0b0b10") (lit "#0b0b10") 0.4 = lit "#0B0B10".
Proof.
  apply (mixHex_endpoints plain_env (lit "#0b0b10") (lit "#d6b36c") 0.4).
  - exists (lit "0b0b10"). split; [reflexivity|]. split; [reflexivity|].
    repeat constructor.
  - exists (lit "d6b36c"). split; [reflexivity|]. split; [reflexivity|].
    repeat constructor.
Defined.

Lemma literal_upper (digits : jsstring) :
  List.length digits = 6%nat ->
  forallb is_upper_hex_digit digits = true ->
  UpperHexColor (hash :: digits).
Proof.
  intros Hlen Hall. exists digits. split; [reflexivity|]. split; [exact Hlen|].
  apply Forall_forall. rewrite forallb_forall in Hall. exact Hall.
Qed.

Lemma mixHex_upper env first second amount :
  UpperHexColor first -> UpperHexColor second ->
  0 <= amount -> amount <= 1 ->
  UpperHexColor (Poster.mixHex env first second amount).
Proof.
  intros H1 H2 Ht0 Ht1. unfold Poster.mixHex.
  destruct (hexToRgb_range first (upper_is_hex first H1))
    as ((r1 & -> & R1) & (g1 & -> & G1) & (b1 & -> & B1)).
  destruct (hexToRgb_range second (upper_is_hex second H2))
    as ((r2 & -> & R2) & (g2 & -> & G2) & (b2 & -> & B2)).
  destruct (mix_range amount r1 r2 Ht0 Ht1 R1 R2) as (r & -> & Hr).
  destruct (mix_range amount g1 g2 Ht0 Ht1 G1 G2) as (g & -> & Hg).
  destruct (mix_range amount b1 b2 Ht0 Ht1 B1 B2) as (b & -> & Hb).
  apply rgbToHex_channels; assumption.
Qed.

Ltac palette_colour :=
  first
    [ assumption
    | apply literal_upper; reflexivity
    | apply mixHex_upper;
      [ palette_colour | palette_colour
      | vm_compute; discriminate | vm_compute; discriminate ] ].

Lemma buildTemplates_well_formed env primary accent :
  UpperHexColor primary -> UpperHexColor accent ->
  Forall (fun t => palette_well_formed (Poster.palette t))
    (Poster.buildTemplates env primary accent).
Proof.
  intros Hp Ha. unfold Poster.buildTemplates.
  repeat apply Forall_cons; [| | |apply Forall_nil];
    unfold palette_well_formed;
    cbn [Poster.palette Poster.background Poster.backgroundAlt Poster.frame
         Poster.text Poster.muted Poster.accent Poster.glow Poster.card
         Poster.cardBorder Poster.qrDark Poster.qrLight];
    repeat split; palette_colour.
Qed.

(** X8.  Whatever is typed into the two colour fields, every colour of
    every poster template is a well-formed upper-case hex colour. *)
Theorem poster_palettes_well_formed :
  forall env f,
    Forall (fun t => palette_well_formed (Poster.palette t))
      (Poster.templates env f) /\
    List.length (Poster.templates env f) = 3%nat.
Proof.
  intros env f. split; [|reflexivity].
  apply buildTemplates_well_formed; apply normalizeHex_upper.
  - exact DEFAULT_PRIMARY_upper.
  - exact DEFAULT_ACCENT_upper.
Qed.

(** ** The QR size and the rounded rectangle *)

Lemma resolveQrSize_bounds n :
  200 <= Poster.resolveQrSize n /\ Poster.resolveQrSize n <= 360.
Proof.
  destruct n as [| | |q]; cbn [Poster.resolveQrSize];
    try (split; vm_compute; discriminate).
  split.
  - apply Q.min_glb; [apply Q.le_max_r | vm_compute; discriminate].
  - apply Q.le_min_r.
Qed.

(** X9.  Whatever the size field holds, the QR size is between 200 and 360;
    a number in that range is taken as it is, a smaller one other than
    zero gives 200 and a larger one 360; zero, like a text that is no
    number, gives 260, plus infinity 360 and minus infinity 200. *)
Theorem resolveQrSize_clamped :
  (forall n, 200 <= Poster.resolveQrSize n /\ Poster.resolveQrSize n <= 360) /\
  (forall q, 200 <= q -> q <= 360 -> Poster.resolveQrSize (Finite q) == q) /\
  (forall q, q == 0 -> Poster.resolveQrSize (Finite q) = 260) /\
  (forall q, q <= 200 -> ~ q == 0 -> Poster.resolveQrSize (Finite q) == 200) /\
  (forall q, 360 <= q -> Poster.resolveQrSize (Finite q) == 360) /\
  Poster.resolveQrSize NaN = 260 /\
  Poster.resolveQrSize Infinity = 360 /\
  Poster.resolveQrSize NegInfinity = 200.
Proof.
  split; [|split; [|split; [|split; [|split; [|split; [|split]]]]]];
    try reflexivity.
  - exact resolveQrSize_bounds.
  - intros q Hlo Hhi. cbn [Poster.resolveQrSize].
    destruct (Qeq_bool q 0) eqn:E.
    + apply Qeq_bool_eq in E. rewrite E in Hlo. vm_compute in Hlo.
      exfalso. apply Hlo. reflexivity.
    + rewrite Q.max_l by exact Hlo. rewrite Q.min_l by exact Hhi. reflexivity.
  - intros q Hq. cbn [Poster.resolveQrSize].
    rewrite (Qeq_eq_bool q 0 Hq). reflexivity.
  - intros q Hq Hnz. cbn [Poster.resolveQrSize].
    destruct (Qeq_bool q 0) eqn:E; [apply Qeq_bool_eq in E; contradiction|].
    rewrite Q.max_r by exact Hq. reflexivity.
  - intros q Hq. cbn [Poster.resolveQrSize].
    destruct (Qeq_bool q 0) eqn:E.
    + apply Qeq_bool_eq in E. rewrite E in Hq. vm_compute in Hq.
      exfalso. apply Hq. reflexivity.
    + rewrite Q.max_l by (apply Qle_trans with 360; [vm_compute; discriminate | exact Hq]).
      rewrite Q.min_r by exact Hq. reflexivity.
Qed.

Lemma resolveQrSize_clamped_witness :
  Poster.resolveQrSize (Finite 300) == 300.
Proof.
  apply (proj1 (proj2 resolveQrSize_clamped) 300); vm_compute; discriminate.
Defined.

Lemma safeRadius_bounds w h radius :
  0 <= w -> 0 <= h -> 0 <= radius ->
  let s := Qmin (Qmin radius (w / 2)) (h / 2) in
  0 <= s /\ s <= radius /\ s + s <= w /\ s + s <= h.
Proof.
  intros Hw Hh Hr s.
  assert (Hw2 : 0 <= w / 2) by (apply Qle_shift_div_l; [reflexivity | lra]).
  assert (Hh2 : 0 <= h / 2) by (apply Qle_shift_div_l; [reflexivity | lra]).
  assert (Hs1 : s <= Qmin radius (w / 2)) by apply Q.le_min_l.
  assert (Hs2 : s <= h / 2) by apply Q.le_min_r.
  assert (Hs3 : Qmin radius (w / 2) <= radius) by apply Q.le_min_l.
  assert (Hs4 : Qmin radius (w / 2) <= w / 2) by apply Q.le_min_r.
  assert (Hs0 : 0 <= s).
  { apply Q.min_glb; [apply Q.min_glb|]; assumption. }
  assert (Ew : w / 2 + w / 2 == w) by field.
  assert (Eh : h / 2 + h / 2 == h) by field.
  repeat split; lra.
Qed.

(** X10.  A rounded rectangle with non-negative sides and radius is one
    closed path of eleven calls that returns to its starting point, and
    all its end points and control points lie in the rectangle; nothing
    else of the canvas changes. *)
Theorem drawRoundedRect_in_box :
  forall x y w h radius cv,
    0 <= w -> 0 <= h -> 0 <= radius ->
    exists path,
      drawRoundedRect x y w h radius cv =
        (Ok tt,
         {| width := width cv; height := height cv; font := font cv;
            saved := saved cv; calls := calls cv ++ path |}) /\
      List.length path = 11%nat /\
      last path BeginPath = ClosePath /\
      Forall (in_box x y w h) (flat_map path_points path) /\
      path_end path None = path_start path /\
      path_start path <> None.
Proof.
  intros x y w h radius cv Hw Hh Hr.
  destruct (safeRadius_bounds w h radius Hw Hh Hr) as (Hs0 & Hsr & Hsw & Hsh).
  unfold drawRoundedRect.
  set (s := Qmin (Qmin radius (w / 2)) (h / 2)) in *.
  eexists. split.
  - cbv beta iota zeta delta
      [bind call modify log apply_call ret width height font saved calls
       fst snd].
    rewrite <- !app_assoc. cbn [app]. reflexivity.
  - split; [reflexivity|]. split; [reflexivity|].
    split; [|split; [reflexivity | discriminate]].
    cbn [flat_map path_points app].
    repeat constructor; cbn [fst snd]; lra.
Qed.

Lemma drawRoundedRect_in_box_witness :
  exists path,
    drawRoundedRect 510 260 350 350 28 newCanvas =
      (Ok tt,
       {| width := 300; height := 150; font := lit "10px sans-serif";
          saved := []; calls := [] ++ path |}) /\
    List.length path = 11%nat /\
    last path BeginPath = ClosePath /\
    Forall (in_box 510 260 350 350) (flat_map path_points path) /\
    path_end path None = path_start path /\
    path_start path <> None.
Proof.
  apply (drawRoundedRect_in_box 510 260 350 350 28 newCanvas);
    vm_compute; discriminate.
Defined.

(** ** What the compositing routines print and save *)

Lemma texts_loop_calls env text maxWidth fontFamily fontWeight size :
  flat_map text_of (loop_calls env text maxWidth fontFamily fontWeight size)
  = [].
Proof.
  pose proof (loop_calls_probe env text maxWidth fontFamily fontWeight size) as H.
  induction (loop_calls env text maxWidth fontFamily fontWeight size) as [|c l IH].
  - reflexivity.
  - cbn in H. apply andb_prop in H as [Hc Hl].
    cbn [flat_map]. rewrite (IH Hl).
    destruct c; try discriminate Hc; reflexivity.
Qed.

Ltac texts_calls :=
  cbv [calls texts];
  repeat first
    [ progress cbn [flat_map app text_of]
    | rewrite flat_map_app
    | rewrite texts_loop_calls ].

Lemma Poster_texts_run env p :
  texts (calls (snd (Poster.createPoster env p newCanvas))) =
  if context2d env then
    [Poster.brandName p; Poster.tagline p; Poster.cta (Poster.template p)] ++
    (if imageLoads env (Poster.qrDataUrl p)
     then [truncateText (Poster.url p) 52; Poster.name (Poster.template p)]
     else [])
  else [].
Proof.
  remember (Poster.createPoster env p newCanvas) as run eqn:Hrun.
  unfold Poster.createPoster in Hrun.
  destruct (context2d env) eqn:Hctx; exec_step Hrun; rewrite Hctx in Hrun;
    exec Hrun; [|run_is Hrun; reflexivity].
  destruct (Poster.logoImage p) as [logo|]; exec Hrun;
    destruct (imageLoads env (Poster.qrDataUrl p)) eqn:Himg; exec Hrun;
    run_is Hrun; texts_calls; reflexivity.
Qed.

Lemma Banner_texts_run env p :
  texts (calls (snd (Banner.createBanner env p newCanvas))) =
  if context2d env then
    [Banner.brandName p; Banner.headline p; Banner.subheadline p;
     Banner.cta p; Banner.url p] ++
    (if imageLoads env (Banner.qrDataUrl p)
     then [lit "Scan to visit"] else [])
  else [].
Proof.
  remember (Banner.createBanner env p newCanvas) as run eqn:Hrun.
  unfold Banner.createBanner in Hrun.
  destruct (context2d env) eqn:Hctx; exec_step Hrun; rewrite Hctx in Hrun;
    exec Hrun; [|run_is Hrun; reflexivity].
  destruct (imageLoads env (Banner.qrDataUrl p)) eqn:Himg; exec Hrun;
    run_is Hrun; texts_calls; reflexivity.
Qed.

Lemma BusinessCard_texts_run env p :
  texts (calls (snd (BusinessCard.createBusinessCard env p newCanvas))) =
  if context2d env then
    [getInitials env (BusinessCard.brandName p); BusinessCard.brandName p;
     BusinessCard.fullName p; BusinessCard.role p; BusinessCard.email p;
     BusinessCard.phone p; BusinessCard.website p] ++
    (if imageLoads env (BusinessCard.qrDataUrl p)
     then [lit "Scan for contact"] else [])
  else [].
Proof.
  remember (BusinessCard.createBusinessCard env p newCanvas) as run eqn:Hrun.
  unfold BusinessCard.createBusinessCard in Hrun.
  destruct (context2d env) eqn:Hctx; exec_step Hrun; rewrite Hctx in Hrun;
    exec Hrun; [|run_is Hrun; reflexivity].
  destruct (imageLoads env (BusinessCard.qrDataUrl p)) eqn:Himg; exec Hrun;
    run_is Hrun; texts_calls; reflexivity.
Qed.

Lemma Logo_texts_run env p :
  texts (calls (snd (Logo.createLogo env p newCanvas))) =
  if context2d env then
    [getInitials env (Logo.brandName p); Logo.brandName p] ++
    match Logo.tagline p with
    | [] => []
    | u :: rest => [u :: rest]
    end
  else [].
Proof.
  remember (Logo.createLogo env p newCanvas) as run eqn:Hrun.
  unfold Logo.createLogo in Hrun.
  destruct (context2d env) eqn:Hctx; exec_step Hrun; rewrite Hctx in Hrun;
    exec Hrun; [|run_is Hrun; reflexivity].
  destruct (Logo.layout p); exec Hrun;
    destruct (Logo.tagline p) as [|u rest]; exec Hrun;
    run_is Hrun; texts_calls; reflexivity.
Qed.

(** X11.  The texts of a poster, in order: brand, tagline, the template's
    call to action and, once the QR image has loaded, the URL cut to 52
    code units and the template's name. *)
Theorem createPoster_texts :
  forall env p,
    texts (calls (snd (Poster.createPoster env p newCanvas))) =
    (if context2d env then
       [Poster.brandName p; Poster.tagline p; Poster.cta (Poster.template p)] ++
       (if imageLoads env (Poster.qrDataUrl p)
        then [truncateText (Poster.url p) 52;
              Poster.name (Poster.template p)]
        else [])
     else []) /\
    (str_length (truncateText (Poster.url p) 52) <= 52)%Z.
Proof.
  intros env p. split; [apply Poster_texts_run | apply truncateText_bound; lia].
Qed.

(** X12.  The texts of a banner, of a business card and of a logo, in
    order.  The caption under the QR card is printed only once the QR
    image has loaded; the logo prints its tagline only when it is not
    empty. *)
Theorem page_texts :
  forall env,
    (forall p,
       texts (calls (snd (Banner.createBanner env p newCanvas))) =
       if context2d env then
         [Banner.brandName p; Banner.headline p; Banner.subheadline p;
          Banner.cta p; Banner.url p] ++
         (if imageLoads env (Banner.qrDataUrl p)
          then [lit "Scan to visit"] else [])
       else []) /\
    (forall p,
       texts (calls (snd (BusinessCard.createBusinessCard env p newCanvas))) =
       if context2d env then
         [getInitials env (BusinessCard.brandName p); BusinessCard.brandName p;
          BusinessCard.fullName p; BusinessCard.role p; BusinessCard.email p;
          BusinessCard.phone p; BusinessCard.website p] ++
         (if imageLoads env (BusinessCard.qrDataUrl p)
          then [lit "Scan for contact"] else [])
       else []) /\
    (forall p,
       texts (calls (snd (Logo.createLogo env p newCanvas))) =
       if context2d env then
         [getInitials env (Logo.brandName p); Logo.brandName p] ++
         match Logo.tagline p with
         | [] => []
         | u :: rest => [u :: rest]
         end
       else []).
Proof.
  intros env. split; [|split]; intros p.
  - apply Banner_texts_run.
  - apply BusinessCard_texts_run.
  - apply Logo_texts_run.
Qed.

(** *** [save] and [restore] *)

Lemma probe_not_save c : is_text_probe c = true -> is_save_restore c = false.
Proof. destruct c; cbn; congruence. Qed.

Lemma depth_after_filter cs :
  forall d, depth_after cs d = depth_after (filter is_save_restore cs) d.
Proof.
  induction cs as [|c cs IH]; intros d; [reflexivity|].
  destruct c; cbn [filter is_save_restore depth_after]; try apply IH.
  destruct d; [reflexivity | apply IH].
Qed.

Ltac saves_calls :=
  cbv [calls];
  repeat first
    [ progress cbn [filter app is_save_restore]
    | rewrite filter_app
    | rewrite (filter_loop_calls is_save_restore) by (exact probe_not_save) ].

(** X13.  In every run of every compositing routine, also one that throws,
    each [restore] finds a saved state and none is left at the end. *)
Theorem save_restore_balanced :
  forall env,
    (forall p,
       depth_after (calls (snd (Poster.createPoster env p newCanvas))) 0
         = Some 0%nat /\
       saved (snd (Poster.createPoster env p newCanvas)) = []) /\
    (forall p,
       depth_after (calls (snd (Banner.createBanner env p newCanvas))) 0
         = Some 0%nat /\
       saved (snd (Banner.createBanner env p newCanvas)) = []) /\
    (forall p,
       depth_after
         (calls (snd (BusinessCard.createBusinessCard env p newCanvas))) 0
         = Some 0%nat /\
       saved (snd (BusinessCard.createBusinessCard env p newCanvas)) = []) /\
    (forall p,
       depth_after (calls (snd (Logo.createLogo env p newCanvas))) 0
         = Some 0%nat /\
       saved (snd (Logo.createLogo env p newCanvas)) = []).
Proof.
  intros env. split; [|split; [|split]]; intros p.
  - remember (Poster.createPoster env p newCanvas) as run eqn:Hrun.
    unfold Poster.createPoster in Hrun.
    destruct (context2d env) eqn:Hctx; exec_step Hrun; rewrite Hctx in Hrun;
      exec Hrun; [|run_is Hrun; split; reflexivity].
    destruct (Poster.logoImage p) as [logo|]; exec Hrun;
      destruct (imageLoads env (Poster.qrDataUrl p)) eqn:Himg; exec Hrun;
      run_is Hrun; (split; [|reflexivity]);
      rewrite depth_after_filter; saves_calls; reflexivity.
  - remember (Banner.createBanner env p newCanvas) as run eqn:Hrun.
    unfold Banner.createBanner in Hrun.
    destruct (context2d env) eqn:Hctx; exec_step Hrun; rewrite Hctx in Hrun;
      exec Hrun; [|run_is Hrun; split; reflexivity].
    destruct (imageLoads env (Banner.qrDataUrl p)) eqn:Himg; exec Hrun;
      run_is Hrun; (split; [|reflexivity]);
      rewrite depth_after_filter; saves_calls; reflexivity.
  - remember (BusinessCard.createBusinessCard env p newCanvas) as run eqn:Hrun.
    unfold BusinessCard.createBusinessCard in Hrun.
    destruct (context2d env) eqn:Hctx; exec_step Hrun; rewrite Hctx in Hrun;
      exec Hrun; [|run_is Hrun; split; reflexivity].
    destruct (imageLoads env (BusinessCard.qrDataUrl p)) eqn:Himg; exec Hrun;
      run_is Hrun; (split; [|reflexivity]);
      rewrite depth_after_filter; saves_calls; reflexivity.
  - remember (Logo.createLogo env p newCanvas) as run eqn:Hrun.
    unfold Logo.createLogo in Hrun.
    destruct (context2d env) eqn:Hctx; exec_step Hrun; rewrite Hctx in Hrun;
      exec Hrun; [|run_is Hrun; split; reflexivity].
    destruct (Logo.layout p); exec Hrun;
      destruct (Logo.tagline p) as [|u rest]; exec Hrun;
      run_is Hrun; (split; [|reflexivity]);
      rewrite depth_after_filter; saves_calls; reflexivity.
Qed.

(** ** [drawFittedText] in closed form *)






(** ** [getInitials] *)

Lemma split_first s :
  forall word, exists pre ws,
    split_spaces false word s = (rev word ++ pre) :: ws.
Proof.
  induction s as [|c s IH]; intros word; cbn [split_spaces].
  - exists [], []. rewrite app_nil_r. reflexivity.
  - destruct (is_space c).
    + exists [], (split_spaces true [] s). rewrite app_nil_r. reflexivity.
    + destruct (IH (c :: word)) as (pre & ws & ->).
      exists (c :: pre), ws. cbn [rev]. rewrite <- app_assoc. reflexivity.
Qed.

Lemma split_units (Q : code_unit -> Prop) s :
  (forall c, In c s -> is_space c = false -> Q c) ->
  forall b word, Forall Q word ->
    Forall (Forall Q) (split_spaces b word s).
Proof.
  induction s as [|c s IH]; intros Hs b word Hword; cbn [split_spaces].
  - constructor; [|constructor]. apply Forall_rev, Hword.
  - assert (Hs' : forall c', In c' s -> is_space c' = false -> Q c').
    { intros c' Hin. apply Hs. right. exact Hin. }
    destruct (is_space c) eqn:E.
    + destruct b.
      * apply IH; assumption.
      * constructor; [apply Forall_rev, Hword|].
        apply IH; [exact Hs' | constructor].
    + apply IH; [exact Hs'|]. constructor; [|exact Hword].
      apply Hs; [left; reflexivity | exact E].
Qed.

(** A string without whitespace is one word. *)
Lemma split_one_word s :
  forall word, existsb is_space s = false ->
    split_spaces false word s = [rev word ++ s].
Proof.
  induction s as [|c s IH]; intros word H; cbn [split_spaces].
  - rewrite app_nil_r. reflexivity.
  - cbn [existsb] in H. apply orb_false_elim in H as [Hc Hs].
    rewrite Hc, (IH _ Hs). cbn [rev]. rewrite <- app_assoc. reflexivity.
Qed.

(** After a separator, a string that does not end in whitespace starts a
    word that is not empty. *)
Lemma split_next_word s :
  forall d, s <> [] -> is_space (last s d) = false ->
    exists c w ws, split_spaces true [] s = (c :: w) :: ws.
Proof.
  induction s as [|c s IH]; intros d Hne Hlast; [contradiction|].
  cbn [split_spaces]. destruct (is_space c) eqn:E.
  - destruct s as [|c' s'].
    + cbn in Hlast. congruence.
    + apply (IH d); [discriminate | exact Hlast].
  - destruct (split_first s [c]) as (pre & ws & ->).
    exists c, pre, ws. reflexivity.
Qed.

(** A string with whitespace that does not end in whitespace has at
    least two words, the second not empty. *)
Lemma split_two_words s :
  forall word d, existsb is_space s = true -> is_space (last s d) = false ->
    exists w1 c w ws, split_spaces false word s = w1 :: (c :: w) :: ws.
Proof.
  induction s as [|c s IH]; intros word d H Hlast; [discriminate H|].
  cbn [split_spaces]. destruct (is_space c) eqn:E.
  - destruct s as [|c' s'].
    + cbn in Hlast. congruence.
    + destruct (split_next_word (c' :: s') d ltac:(discriminate) Hlast)
        as (c2 & w & ws & ->).
      exists (rev word), c2, w, ws. reflexivity.
  - cbn [existsb] in H. rewrite E in H. cbn [orb] in H.
    destruct s as [|c' s']; [discriminate H|].
    apply (IH (c :: word) d H Hlast).
Qed.

Lemma upper_of_ascii :
  forallb (fun u => implb (negb (is_space u))
                      (negb (is_space (ascii_upper u)) &&
                       (ascii_upper (ascii_upper u) =? ascii_upper u)%N &&
                       is_ascii (ascii_upper u)))
    (units_below 128) = true.
Proof. vm_compute. reflexivity. Qed.

Lemma initial_unit u :
  is_ascii u = true -> is_space u = false ->
  is_space (ascii_upper u) = false /\
  ascii_upper (ascii_upper u) = ascii_upper u /\
  is_ascii (ascii_upper u) = true.
Proof.
  intros Ha Hs.
  assert (Hu : (u < N.of_nat 128)%N) by (apply N.ltb_lt in Ha; exact Ha).
  pose proof (check_below _ 128 upper_of_ascii u Hu) as H.
  cbv beta in H. rewrite Hs in H. cbn [negb implb] in H.
  rewrite !andb_true_iff, negb_true_iff, N.eqb_eq in H. tauto.
Qed.

Lemma Forall_trim (Q : code_unit -> Prop) s : Forall Q s -> Forall Q (trim s).
Proof.
  intros H. destruct (trim_split s) as (lead & trail & Hs & _ & _).
  rewrite Hs in H. apply Forall_app in H as [_ H].
  apply Forall_app in H as [H _]. exact H.
Qed.

(** A word in front of the rest of the string is read into the current
    word. *)
Lemma split_word_then w :
  forall word rest, existsb is_space w = false ->
    split_spaces false word (w ++ rest) =
    split_spaces false (rev w ++ word) rest.
Proof.
  induction w as [|c w IH]; intros word rest H; [reflexivity|].
  cbn [existsb] in H. apply orb_false_elim in H as [Hc Hw].
  cbn [app split_spaces]. rewrite Hc, (IH _ _ Hw).
  cbn [rev]. rewrite <- app_assoc. reflexivity.
Qed.

(** Inside a separator further whitespace is skipped. *)
Lemma split_skip sep :
  forall rest, forallb is_space sep = true ->
    split_spaces true [] (sep ++ rest) = split_spaces true [] rest.
Proof.
  induction sep as [|c sep IH]; intros rest H; [reflexivity|].
  cbn [forallb] in H. apply andb_prop in H as [Hc Hsep].
  cbn [app split_spaces]. rewrite Hc. apply IH, Hsep.
Qed.

(** The first two words of a word, a separator and what follows it. *)
Lemma split_word_separator w sep c more :
  existsb is_space w = false ->
  sep <> [] -> forallb is_space sep = true ->
  is_space c = false ->
  exists pre ws, split (w ++ sep ++ c :: more) = w :: (c :: pre) :: ws.
Proof.
  intros Hw Hne Hsep Hc. unfold split. rewrite (split_word_then w [] _ Hw).
  destruct sep as [|s0 sep]; [contradiction|].
  cbn [forallb] in Hsep. apply andb_prop in Hsep as [Hs0 Hsep].
  cbn [app split_spaces]. rewrite Hs0, (split_skip sep _ Hsep).
  cbn [split_spaces]. rewrite Hc.
  destruct (split_first more [c]) as (pre & ws & ->).
  exists pre, ws. rewrite app_nil_r, rev_involutive. reflexivity.
Qed.

(** A string that does not end in whitespace is some whitespace and then
    a character that is none. *)
Lemma leading_spaces s :
  forall d, s <> [] -> is_space (last s d) = false ->
    exists sep c more,
      s = sep ++ c :: more /\ forallb is_space sep = true /\
      is_space c = false.
Proof.
  induction s as [|a s IH]; intros d Hne Hlast; [contradiction|].
  destruct (is_space a) eqn:E.
  - destruct s as [|a' s'].
    + cbn in Hlast. congruence.
    + destruct (IH d ltac:(discriminate) Hlast)
        as (sep & c & more & Hs & Hsep & Hc).
      exists (a :: sep), c, more. rewrite Hs. split; [reflexivity|].
      split; [|exact Hc]. cbn [forallb]. rewrite E. exact Hsep.
  - exists [], a, s. split; [reflexivity|]. split; [reflexivity | exact E].
Qed.

(** A string with whitespace that does not end in whitespace is a word,
    a separator and a character that is no whitespace, and the rest. *)
Lemma word_separator s :
  forall d, existsb is_space s = true -> is_space (last s d) = false ->
    exists w sep c more,
      s = w ++ sep ++ c :: more /\ existsb is_space w = false /\
      sep <> [] /\ forallb is_space sep = true /\ is_space c = false.
Proof.
  induction s as [|a s IH]; intros d H Hlast; [discriminate H|].
  destruct (is_space a) eqn:E.
  - destruct s as [|a' s'].
    + cbn in Hlast. congruence.
    + destruct (leading_spaces (a' :: s') d ltac:(discriminate) Hlast)
        as (sep & c & more & Hs & Hsep & Hc).
      exists [], (a :: sep), c, more. rewrite Hs.
      split; [reflexivity|]. split; [reflexivity|].
      split; [discriminate|]. split; [|exact Hc].
      cbn [forallb]. rewrite E. exact Hsep.
  - cbn [existsb] in H. rewrite E in H. cbn [orb] in H.
    destruct s as [|a' s']; [discriminate H|].
    destruct (IH d H Hlast) as (w & sep & c & more & Hs & Hw & Hne & Hsep & Hc).
    exists (a :: w), sep, c, more. rewrite Hs.
    split; [reflexivity|]. split; [|auto].
    cbn [existsb]. rewrite E. exact Hw.
Qed.

(** X15.  The initials of an ASCII name.  A blank name gives ["QR"].
    A name of one word gives the upper case of its first character.  A
    name of more words gives that followed by the upper case of the
    first character of the second word: the first character that is not
    whitespace after the first separator.  A trimmed name with
    whitespace in it always has such a second word.  No unit of the
    result is whitespace or a lower-case letter. *)
Theorem getInitials_ascii :
  forall env value,
    forallb is_ascii value = true ->
    match trim value with
    | [] => getInitials env value = lit "QR"
    | u :: rest =>
        (exists tail,
           getInitials env value = ascii_upper u :: tail /\
           List.length tail =
             (if existsb is_space (u :: rest) then 1 else 0)%nat /\
           Forall (fun c => is_space c = false /\ ascii_upper c = c /\
                            is_ascii c = true)
                  (ascii_upper u :: tail)) /\
        is_space u = false /\
        (existsb is_space rest = false ->
         getInitials env value = [ascii_upper u]) /\
        (forall w sep c more,
           rest = w ++ sep ++ c :: more ->
           existsb is_space w = false ->
           sep <> [] -> forallb is_space sep = true ->
           is_space c = false ->
           getInitials env value = [ascii_upper u; ascii_upper c]) /\
        (existsb is_space rest = true ->
         exists w sep c more,
           rest = w ++ sep ++ c :: more /\
           existsb is_space w = false /\
           sep <> [] /\ forallb is_space sep = true /\
           is_space c = false)
    end.
Proof.
  intros env value Hascii. unfold getInitials.
  destruct (trim value) as [|u rest] eqn:Htrim; [reflexivity|].
  assert (Hall : Forall (fun c => is_ascii c = true) (u :: rest)).
  { rewrite <- Htrim. apply Forall_trim, Forall_forall.
    rewrite forallb_forall in Hascii. exact Hascii. }
  destruct (trim_edges value u rest Htrim) as [Hu Hlast].
  assert (Hua : is_ascii u = true) by (inversion Hall; assumption).
  pose proof (split_units (fun c => is_ascii c = true /\ is_space c = false)
                (u :: rest)) as Hwords.
  specialize (Hwords ltac:(intros c Hin Hc; split; [|exact Hc];
                           rewrite Forall_forall in Hall; apply Hall, Hin)
                     false [] ltac:(constructor)).
  fold (split (u :: rest)) in Hwords.
  assert (Hone : forall c, is_ascii c = true ->
                   toUpperCase (unicodeUpper env) [c] = [ascii_upper c]).
  { intros c Hc. apply toUpperCase_ascii. cbn. rewrite Hc. reflexivity. }
  assert (Hsingle : existsb is_space rest = false ->
                    concat
                      (map (fun word =>
                              match word with
                              | [] => []
                              | u0 :: _ => toUpperCase (unicodeUpper env) [u0]
                              end)
                           (firstn 2 (split (u :: rest)))) = [ascii_upper u]).
  { intros Hrest. unfold split. cbn [split_spaces]. rewrite Hu.
    rewrite (split_one_word rest [u] Hrest).
    cbn [rev app firstn map concat]. rewrite (Hone u Hua). reflexivity. }
  split; [|split; [exact Hu|split; [exact Hsingle|split]]].
  - destruct (existsb is_space (u :: rest)) eqn:Hsp.
    + destruct (split_two_words (u :: rest) [] u Hsp Hlast)
        as (w1 & c & w & ws & Hsplit).
      destruct (split_first rest [u]) as (pre & ws' & Hfirst).
      assert (Hw1 : w1 = u :: pre).
      { unfold split in *. cbn [split_spaces] in Hsplit. rewrite Hu in Hsplit.
        rewrite Hfirst in Hsplit. cbn in Hsplit. congruence. }
      subst w1. unfold split in *. rewrite Hsplit in *.
      cbn [firstn map concat app]. rewrite (Hone u Hua).
      inversion Hwords as [|? ? _ Hrest]; subst.
      inversion Hrest as [|? ? Hcw _]; subst.
      inversion Hcw as [|? ? [Hca Hcs] _]; subst.
      rewrite (Hone c Hca). cbn [app].
      exists [ascii_upper c]. split; [reflexivity|]. split; [reflexivity|].
      constructor; [apply initial_unit; assumption|].
      constructor; [apply initial_unit; assumption | constructor].
    + cbn [existsb] in Hsp. apply orb_false_elim in Hsp as [_ Hrest].
      rewrite (Hsingle Hrest).
      exists []. split; [reflexivity|]. split; [reflexivity|].
      constructor; [apply initial_unit; assumption | constructor].
  - intros w sep c more Hrest Hw Hne Hsep Hc.
    assert (Hword : existsb is_space (u :: w) = false)
      by (cbn [existsb]; rewrite Hu; exact Hw).
    destruct (split_word_separator (u :: w) sep c more Hword Hne Hsep Hc)
      as (pre & ws & Hsplit).
    assert (Hca : is_ascii c = true).
    { rewrite Forall_forall in Hall. apply Hall. right. rewrite Hrest.
      apply in_or_app. right. apply in_or_app. right. left. reflexivity. }
    rewrite Hrest. change (u :: w ++ sep ++ c :: more)
      with ((u :: w) ++ sep ++ c :: more).
    rewrite Hsplit. cbn [firstn map concat app].
    rewrite (Hone u Hua), (Hone c Hca). reflexivity.
  - intros Hsp.
    assert (Hne : rest <> []) by (intros ->; discriminate Hsp).
    apply (word_separator rest u Hsp).
    destruct rest as [|r0 rest']; [contradiction|]. exact Hlast.
Qed.

(** X15 on a name with blanks around and between its two words. *)
Lemma getInitials_ascii_witness :
  getInitials plain_env (lit "  site2qr   studio ") = lit "SS".
Proof.
  apply (proj1 (proj2 (proj2 (proj2
           (getInitials_ascii plain_env (lit "  site2qr   studio ")
              eq_refl))))
           (lit "ite2qr") (lit "   ") 115%N (lit "tudio"));
    first [reflexivity | discriminate].
Defined.
(** ** What a submission asks of the encoder and draws *)





(** A validated submission appends only events of a class that holds
    the handler's own state updates and what the body appends. *)
Lemma submit_all {R} (P : Event R -> Prop) (body : M (Page R) unit) message
  (cleared : R) (p : Page R) :
  sets_result_on_return P body ->
  P PreventDefault -> (forall m, P (SetError m)) ->
  (forall b, P (SetLoading b)) -> P (SetResult cleared) ->
  exists es,
    events (snd (try_catch_finally body (setError message) (setLoading false)
                   (started cleared p))) = events p ++ es /\
    Forall P es.
Proof.
  intros Hbody H1 H2 H3 H4.
  destruct (validated_trace _ body message (started cleared p) Hbody)
    as (es & tail & Hev & HP & Htail).
  exists ([PreventDefault; SetError []; SetLoading true; SetResult cleared]
          ++ es ++ tail).
  split.
  - rewrite Hev. unfold started; cbn [events]. rewrite <- app_assoc.
    reflexivity.
  - repeat (constructor; [auto|]).
    apply Forall_app. split; [exact HP|].
    destruct Htail as [-> | ->]; repeat constructor; auto.
Qed.

Lemma rejected_all {R} (P : Event R -> Prop) message (p : Page R) :
  P PreventDefault -> (forall m, P (SetError m)) ->
  exists es,
    events (rejected message p) = events p ++ es /\ Forall P es.
Proof.
  intros H1 H2. eexists. split; [reflexivity|]. repeat constructor; auto.
Qed.














(** ** Blank fields never reach the canvas *)

Lemma or_else_nonempty a b : b <> [] -> or_else a b <> [].
Proof. intros Hb. destruct a; [exact Hb | discriminate]. Qed.

Lemma truncateText_nonempty value maxLength :
  value <> [] -> truncateText value maxLength <> [].
Proof.
  intros Hv. unfold truncateText.
  destruct (str_length value <=? maxLength)%Z; [exact Hv|].
  intros H. apply app_eq_nil in H as [_ H]. discriminate H.
Qed.

Lemma templates_named env primary accent t :
  In t (Poster.buildTemplates env primary accent) ->
  Poster.cta t <> [] /\ Poster.name t <> [].
Proof.
  intros [<-|[<-|[<-|[]]]]; split; discriminate.
Qed.

Lemma Poster_generate_no_blank env f u rest :
  sets_result_on_return prints_no_blank (Poster.generate env f (u :: rest)).
Proof.
  unfold Poster.generate.
  apply sets_result_bind;
    [apply quiet_awaitFonts; [exact I | intros; exact I] | intros _].
  apply sets_result_bind.
  { destruct (Poster.f_logoUrl f) as [[|c rest']|]; try apply quiet_ret.
    apply quiet_bind; [apply quiet_loadImage; intros; exact I | intros img].
    apply quiet_ret. }
  intros logo.
  apply sets_result_bind;
    [|intros posters; apply sets_result_setResult; exact I].
  apply (quiet_promiseAll _ (fun _ _ => True));
    [intros t _; apply quiet_qrEncode; exact I | intros; exact I |].
  intros t d Ht _.
  destruct (templates_named _ _ _ _ Ht) as [Hcta Hname].
  apply quiet_bind; [|intros r; apply quiet_ret].
  apply quiet_onNewCanvas_left. cbn [prints_no_blank].
  rewrite Poster_texts_run.
  cbn [Poster.brandName Poster.tagline Poster.template Poster.url
       Poster.qrDataUrl].
  destruct (context2d env); [|constructor].
  repeat (constructor; [first [apply or_else_nonempty; discriminate
                              | exact Hcta]|]).
  destruct (imageLoads env d); [|constructor].
  constructor; [apply truncateText_nonempty; discriminate|].
  constructor; [exact Hname | constructor].
Qed.

Lemma Banner_generate_no_blank env f u rest :
  sets_result_on_return prints_no_blank (Banner.generate env f (u :: rest)).
Proof.
  unfold Banner.generate.
  apply sets_result_bind;
    [apply quiet_awaitFonts; [exact I | intros; exact I] | intros _].
  apply sets_result_bind; [apply quiet_qrEncode; exact I | intros d].
  apply sets_result_bind; [|intros r; apply sets_result_setResult; exact I].
  apply quiet_onNewCanvas_left. cbn [prints_no_blank].
  rewrite Banner_texts_run. unfold Banner.payload.
  cbn [Banner.brandName Banner.headline Banner.subheadline Banner.cta
       Banner.url Banner.qrDataUrl].
  destruct (context2d env); [|constructor].
  repeat (constructor; [first [apply or_else_nonempty; discriminate
                              | discriminate]|]).
  destruct (imageLoads env d); repeat constructor. discriminate.
Qed.

(** X18.  Whatever the form holds, every text a poster or banner submission
    prints on a canvas is non-empty: blank fields are replaced by their
    defaults before they reach the compositing routine. *)
Theorem no_blank_text :
  (forall env f p,
     exists es,
       events (snd (Poster.handleSubmit env f p)) = events p ++ es /\
       Forall prints_no_blank es) /\
  (forall env f p,
     exists es,
       events (snd (Banner.handleSubmit env f p)) = events p ++ es /\
       Forall prints_no_blank es).
Proof.
  split; intros env f p.
  - destruct (trim (Poster.f_url f)) as [|u rest] eqn:Hurl.
    + rewrite (Poster_handleSubmit_rejected env f p Hurl). cbn [snd].
      apply rejected_all; [exact I | intros; exact I].
    + rewrite (Poster_handleSubmit_started env f p u rest Hurl).
      apply (submit_all _ (Poster.generate env f (u :: rest))
               Poster.generationError [] p
               (Poster_generate_no_blank env f u rest));
        try exact I; intros; exact I.
  - destruct (trim (Banner.f_url f)) as [|u rest] eqn:Hurl.
    + rewrite (Banner_handleSubmit_rejected env f p Hurl). cbn [snd].
      apply rejected_all; [exact I | intros; exact I].
    + rewrite (Banner_handleSubmit_started env f p u rest Hurl).
      apply (submit_all _ (Banner.generate env f (u :: rest))
               Banner.generationError None p
               (Banner_generate_no_blank env f u rest));
        try exact I; intros; exact I.
Qed.

(** ** Downloads *)

Lemma lower_of_ascii :
  forallb (fun u => implb (negb (is_space u))
                      (negb (is_space (ascii_lower u)) &&
                       (ascii_lower (ascii_lower u) =? ascii_lower u)%N))
    (units_below 128) = true.
Proof. vm_compute. reflexivity. Qed.

Lemma lower_unit u :
  is_ascii u = true -> is_space u = false ->
  is_space (ascii_lower u) = false /\ ascii_lower (ascii_lower u) = ascii_lower u.
Proof.
  intros Ha Hs.
  assert (Hu : (u < N.of_nat 128)%N) by (apply N.ltb_lt in Ha; exact Ha).
  pose proof (check_below _ 128 lower_of_ascii u Hu) as H.
  cbv beta in H. rewrite Hs in H. cbn [negb implb] in H.
  rewrite !andb_true_iff, negb_true_iff, N.eqb_eq in H. exact H.
Qed.

(** [replace(/\s+/g, "-")] leaves no whitespace, keeps ASCII strings
    ASCII and does not lengthen the string. *)
Lemma dash_spaces_units s :
  forall b,
    Forall (fun c => is_space c = false) (Poster.dash_spaces b s) /\
    (forallb is_ascii s = true -> forallb is_ascii (Poster.dash_spaces b s) = true) /\
    (List.length (Poster.dash_spaces b s) <= List.length s)%nat.
Proof.
  induction s as [|u s IH]; intros b; cbn [Poster.dash_spaces].
  - split; [constructor|]. split; [reflexivity | apply le_n].
  - destruct (is_space u) eqn:E.
    + destruct b.
      * destruct (IH true) as (H1 & H2 & H3). split; [exact H1|].
        split; [|cbn [List.length]; lia].
        cbn [forallb]. intros H. apply andb_prop in H as [_ H]. apply H2, H.
      * destruct (IH true) as (H1 & H2 & H3).
        split; [constructor; [reflexivity | exact H1]|].
        split; [|rewrite length_app; cbn; lia].
        rewrite forallb_app. cbn [forallb]. intros H. apply andb_prop in H as [_ H].
        rewrite (H2 H). reflexivity.
    + destruct (IH false) as (H1 & H2 & H3).
      split; [constructor; [exact E | exact H1]|].
      split; [|cbn [List.length]; lia].
      cbn [forallb]. intros H. apply andb_prop in H as [Hu H].
      rewrite Hu, (H2 H). reflexivity.
Qed.

Lemma toLowerCase_ascii low s :
  forallb is_ascii s = true -> toLowerCase low s = map ascii_lower s.
Proof. intros H. unfold toLowerCase. rewrite H. reflexivity. Qed.

Lemma Poster_handleDownload_run env poster (p : Page (list Poster.PosterResult)) :
  Poster.handleDownload env poster p =
  (Ok tt,
   with_events p
     [CreateLink; SetHref (Poster.posterUrl poster);
      SetDownload
        (toLowerCase (unicodeLower env)
           (Poster.dash_spaces false (Poster.res_name poster)) ++ lit ".png");
      Click]).
Proof.
  unfold Poster.handleDownload, bind, emit, modify, with_events; cbn.
  rewrite <- !app_assoc. reflexivity.
Qed.

(** X19.  The download of a poster whose name is ASCII: a link to the
    poster's data URL is created and clicked, and the file name is a
    stem followed by [".png"], where the stem holds no whitespace and no
    upper-case letter and is no longer than the name; nothing else of
    the page changes. *)
Theorem poster_file_name :
  forall env poster p,
    forallb is_ascii (Poster.res_name poster) = true ->
    exists stem,
      Poster.handleDownload env poster p =
      (Ok tt,
       with_events p
         [CreateLink; SetHref (Poster.posterUrl poster);
          SetDownload (stem ++ lit ".png"); Click]) /\
      Forall (fun c => is_space c = false /\ ascii_lower c = c) stem /\
      (List.length stem <= List.length (Poster.res_name poster))%nat.
Proof.
  intros env poster p Hascii.
  destruct (dash_spaces_units (Poster.res_name poster) false)
    as (Hsp & Has & Hlen).
  specialize (Has Hascii).
  exists (map ascii_lower (Poster.dash_spaces false (Poster.res_name poster))).
  split; [|split].
  - rewrite Poster_handleDownload_run, (toLowerCase_ascii _ _ Has).
    reflexivity.
  - rewrite forallb_forall in Has. rewrite Forall_forall in Hsp.
    apply Forall_forall. intros c Hin. apply in_map_iff in Hin as (u & <- & Hu).
    apply lower_unit; [apply Has, Hu | apply Hsp, Hu].
  - rewrite length_map. exact Hlen.
Qed.

Lemma poster_file_name_witness :
  exists stem,
    Poster.handleDownload plain_env
      {| Poster.res_id := lit "gilt"; Poster.res_name := lit "Gilt  Plaque";
         Poster.res_description := []; Poster.posterUrl := lit "data:," |}
      (idle []) =
    (Ok tt,
     with_events (idle [])
       [CreateLink; SetHref (lit "data:,");
        SetDownload (stem ++ lit ".png"); Click]) /\
    Forall (fun c => is_space c = false /\ ascii_lower c = c) stem /\
    (List.length stem <= 12)%nat.
Proof.
  apply (poster_file_name plain_env
           {| Poster.res_id := lit "gilt"; Poster.res_name := lit "Gilt  Plaque";
              Poster.res_description := []; Poster.posterUrl := lit "data:," |}
           (idle [])).
  vm_compute. reflexivity.
Defined.

(** X20.  After a submission that ended with the generation error on the
    banner, business-card or logo page there is nothing to download:
    the download handler returns at once. *)
Theorem nothing_to_download_after_failure :
  (forall env f p,
     let final := snd (Banner.handleSubmit env f p) in
     error final = Banner.generationError ->
     result final = None /\ Banner.handleDownload final = (Ok tt, final)) /\
  (forall env f p,
     let final := snd (BusinessCard.handleSubmit env f p) in
     error final = BusinessCard.generationError ->
     result final = None /\
     BusinessCard.handleDownload final = (Ok tt, final)) /\
  (forall env f p,
     let final := snd (Logo.handleSubmit env f p) in
     error final = Logo.generationError ->
     result final = None /\ Logo.handleDownload final = (Ok tt, final)).
Proof.
  assert (Hnone : forall fileName (q : Page (option jsstring)),
            result q = None -> downloadAs fileName q = (Ok tt, q)).
  { intros fileName q H. unfold downloadAs. rewrite H. reflexivity. }
  assert (Htry : forall (body : M (Page (option jsstring)) unit) P message p,
            sets_result_on_return P body -> message <> [] ->
            let final := snd (try_catch_finally body (setError message)
                                (setLoading false) (started None p)) in
            error final = message -> result final = None).
  { intros body P message p Hbody Hmsg final Herr.
    destruct (try_generate P body message (started None p) Hbody)
      as (_ & Hthrow & Hok & _).
    destruct (fst (body (started None p))) as [a|e] eqn:Hfst.
    - destruct (Hok a eq_refl) as [He _]. fold final in He.
      rewrite Herr in He. cbn in He. contradiction.
    - destruct (Hthrow e eq_refl) as [_ Hr]. exact Hr. }
  split; [|split]; intros env f p; cbv zeta.
  - destruct (trim (Banner.f_url f)) as [|u rest] eqn:Hurl.
    + rewrite (Banner_handleSubmit_rejected env f p Hurl). cbn [snd].
      intros H. discriminate H.
    + rewrite (Banner_handleSubmit_started env f p u rest Hurl). intros H.
      assert (Hmsg : Banner.generationError <> []) by (intros E; discriminate E).
      pose proof (Htry _ _ _ p (Banner_generate_quiet env f (u :: rest))
                    Hmsg H) as Hr.
      split; [exact Hr | apply (Hnone _ _ Hr)].
  - destruct (trim (BusinessCard.f_website f)) as [|u rest] eqn:Hurl.
    + rewrite (BusinessCard_handleSubmit_rejected env f p Hurl). cbn [snd].
      intros H. discriminate H.
    + rewrite (BusinessCard_handleSubmit_started env f p u rest Hurl). intros H.
      assert (Hmsg : BusinessCard.generationError <> [])
        by (intros E; discriminate E).
      pose proof (Htry _ _ _ p (BusinessCard_generate_quiet env f (u :: rest))
                    Hmsg H) as Hr.
      split; [exact Hr | apply (Hnone _ _ Hr)].
  - rewrite (Logo_handleSubmit_started env f p). intros H.
    assert (Hmsg : Logo.generationError <> []) by (intros E; discriminate E).
    pose proof (Htry _ _ _ p (Logo_generate_quiet env f []) Hmsg H) as Hr.
    split; [exact Hr | apply (Hnone _ _ Hr)].
Qed.

Lemma nothing_to_download_after_failure_witness :
  let final :=
    snd (Banner.handleSubmit no_canvas_env
           (banner_form (lit "https://site2qr.com")) (idle (Some (lit "old")))) in
  result final = None /\ Banner.handleDownload final = (Ok tt, final).
Proof.
  apply (proj1 nothing_to_download_after_failure no_canvas_env
           (banner_form (lit "https://site2qr.com")) (idle (Some (lit "old")))).
  vm_compute. reflexivity.
Defined.

(** X21.  After a poster submission that ended without an error message
    the page holds one poster per template, and their downloads are
    named after the templates: ["gilt-plaque.png"], ["noir-accent.png"]
    and ["ivory-studio.png"], each a link to that poster's data URL. *)
Theorem poster_downloads_after_submit :
  forall env f p,
    let final := snd (Poster.handleSubmit env f p) in
    error final = [] ->
    Forall2
      (fun poster fileName =>
         forall q,
           Poster.handleDownload env poster q =
           (Ok tt,
            with_events q
              [CreateLink; SetHref (Poster.posterUrl poster);
               SetDownload fileName; Click]))
      (result final)
      [lit "gilt-plaque.png"; lit "noir-accent.png"; lit "ivory-studio.png"].
Proof.
  intros env f p final. subst final.
  destruct (trim (Poster.f_url f)) as [|u rest] eqn:Hurl.
  - rewrite (Poster_handleSubmit_rejected env f p Hurl). cbn [snd].
    intros H. discriminate H.
  - rewrite (Poster_handleSubmit_started env f p u rest Hurl). intros Herr.
    destruct (try_generate _ _ Poster.generationError (started [] p)
                (Poster_generate_quiet env f (u :: rest)))
      as (_ & Hthrow & Hok & _).
    destruct (Poster.generate env f (u :: rest) (started [] p))
      as [[[]|e] p'] eqn:Hrun; cbn [fst snd] in Hthrow, Hok.
    + destruct (Hok tt eq_refl) as [_ Hr]. rewrite Hr.
      destruct (Poster_generate_ok env f (u :: rest) _ _ Hrun)
        as (setup & es & rs & -> & _ & _ & Hnames).
      cbn [result with_result].
      change (map Poster.name (Poster.templates env f))
        with [lit "Gilt Plaque"; lit "Noir Accent"; lit "Ivory Studio"]
        in Hnames.
      destruct rs as [|r1 [|r2 [|r3 [|r4 rs]]]]; try discriminate Hnames.
      injection Hnames as H1 H2 H3.
      repeat constructor; intros q; rewrite Poster_handleDownload_run;
        rewrite ?H1, ?H2, ?H3; reflexivity.
    + destruct (Hthrow e eq_refl) as [He _]. rewrite Herr in He.
      discriminate He.
Qed.

Lemma poster_downloads_after_submit_witness :
  Forall2
    (fun poster fileName =>
       forall q,
         Poster.handleDownload plain_env poster q =
         (Ok tt,
          with_events q
            [CreateLink; SetHref (Poster.posterUrl poster);
             SetDownload fileName; Click]))
    (result (snd (Poster.handleSubmit plain_env
                    (poster_form (lit "https://site2qr.com")) (idle []))))
    [lit "gilt-plaque.png"; lit "noir-accent.png"; lit "ivory-studio.png"].
Proof.
  apply (poster_downloads_after_submit plain_env
           (poster_form (lit "https://site2qr.com")) (idle [])).
  vm_compute. reflexivity.
Defined.


(** ** Object URLs of the uploaded logo *)

Lemma str_eqb_refl s : str_eqb s s = true.
Proof.
  induction s as [|u s IH]; [reflexivity|].
  cbn. rewrite N.eqb_refl, IH. reflexivity.
Qed.

Lemma str_eqb_neq a b : a <> b -> str_eqb a b = false.
Proof.
  intros H. destruct (str_eqb a b) eqn:E; [|reflexivity].
  apply str_eqb_eq in E. contradiction.
Qed.

Section ObjectUrls.
Variable objectUrl : nat -> jsstring.
Hypothesis minted_nonempty : forall n, objectUrl n <> [].
Hypothesis minted_fresh : forall m n, objectUrl m = objectUrl n -> m = n.

Lemma revoke_if_nonempty u st :
  u <> [] ->
  LogoUpload.revoke_if (Some u) st = LogoUpload.revokeObjectURL u st.
Proof. destruct u; [contradiction | reflexivity]. Qed.

Lemma act_tidy a st :
  LogoUpload.tidy objectUrl st ->
  LogoUpload.tidy objectUrl (LogoUpload.act objectUrl a st).
Proof.
  intros [Hlive Hminted].
  destruct st as [[u|] lv n cs]; cbn [LogoUpload.logoUrl LogoUpload.live
    LogoUpload.minted] in *; subst lv.
  - destruct Hminted as (k & Hk & ->).
    pose proof (minted_nonempty k) as Hne.
    destruct a as [[|]|]; cbn [LogoUpload.act].
    + unfold LogoUpload.handleLogoChange, LogoUpload.setLogoUrl.
      cbn [LogoUpload.logoUrl LogoUpload.live LogoUpload.minted
           LogoUpload.url_calls LogoUpload.same_url].
      assert (Hdiff : objectUrl n <> objectUrl k).
      { intros E. apply minted_fresh in E. lia. }
      rewrite (str_eqb_neq _ _ (not_eq_sym Hdiff)).
      rewrite !(revoke_if_nonempty _ _ Hne).
      unfold LogoUpload.revokeObjectURL, LogoUpload.tidy.
      cbn [LogoUpload.logoUrl LogoUpload.live LogoUpload.minted filter].
      rewrite (str_eqb_neq _ _ Hdiff), str_eqb_refl. cbn [negb filter].
      rewrite (str_eqb_neq _ _ Hdiff). cbn [negb].
      split; [reflexivity|]. exists n. split; [lia | reflexivity].
    + split; [reflexivity|]. exists k. split; [exact Hk | reflexivity].
    + unfold LogoUpload.handleLogoClear, LogoUpload.setLogoUrl.
      cbn [LogoUpload.logoUrl LogoUpload.same_url].
      rewrite !(revoke_if_nonempty _ _ Hne).
      unfold LogoUpload.revokeObjectURL, LogoUpload.tidy.
      cbn [LogoUpload.logoUrl LogoUpload.live LogoUpload.minted filter].
      rewrite str_eqb_refl. cbn [negb filter]. split; [reflexivity | exact I].
  - pose proof (minted_nonempty n) as Hne.
    destruct a as [[|]|]; cbn [LogoUpload.act].
    + unfold LogoUpload.handleLogoChange, LogoUpload.setLogoUrl,
        LogoUpload.tidy.
      cbn. split; [reflexivity|]. exists n. split; [lia | reflexivity].
    + split; [reflexivity | exact I].
    + split; [reflexivity | exact I].
Qed.

Lemma run_tidy actions :
  forall st, LogoUpload.tidy objectUrl st ->
             LogoUpload.tidy objectUrl (LogoUpload.run objectUrl actions st).
Proof.
  induction actions as [|a actions IH]; intros st H; [exact H|].
  cbn [LogoUpload.run fold_left]. apply IH, act_tidy, H.
Qed.

Lemma unmount_tidy st :
  LogoUpload.tidy objectUrl st -> LogoUpload.live (LogoUpload.unmount st) = [].
Proof.
  intros [Hlive Hminted]. unfold LogoUpload.unmount.
  destruct (LogoUpload.logoUrl st) as [u|] eqn:E; [|exact Hlive].
  destruct Hminted as (k & _ & ->).
  rewrite (revoke_if_nonempty _ _ (minted_nonempty k)).
  unfold LogoUpload.revokeObjectURL. cbn [LogoUpload.live].
  rewrite Hlive. cbn [filter]. rewrite str_eqb_refl. reflexivity.
Qed.

End ObjectUrls.

(** X22.  Object URLs of the uploaded logo do not leak.  If the browser
    never mints an empty URL nor the same URL twice, then after any
    sequence of logo choices and clears the only live object URL is the
    one in [logoUrl] (none when there is no logo), it is one the
    browser minted, and unmounting the page revokes it. *)
Theorem logo_urls_never_leak :
  forall objectUrl actions,
    (forall n, objectUrl n <> []) ->
    (forall m n, objectUrl m = objectUrl n -> m = n) ->
    let st := LogoUpload.run objectUrl actions LogoUpload.initial in
    LogoUpload.tidy objectUrl st /\
    LogoUpload.live (LogoUpload.unmount st) = [].
Proof.
  intros objectUrl actions Hne Hfresh st.
  assert (H : LogoUpload.tidy objectUrl st).
  { apply run_tidy; [exact Hne | exact Hfresh|]. split; [reflexivity | exact I]. }
  split; [exact H | apply (unmount_tidy objectUrl Hne), H].
Qed.

Lemma logo_urls_never_leak_witness :
  let objectUrl := fun n => repeat 98%N (S n) in
  let st :=
    LogoUpload.run objectUrl
      [LogoUpload.LogoChange true; LogoUpload.LogoChange false;
       LogoUpload.LogoChange true; LogoUpload.LogoClear;
       LogoUpload.LogoChange true]
      LogoUpload.initial in
  LogoUpload.tidy objectUrl st /\
  LogoUpload.live (LogoUpload.unmount st) = [].
Proof.
  apply (logo_urls_never_leak (fun n => repeat 98%N (S n))).
  - intros n. discriminate.
  - intros m n H. apply (f_equal (@List.length _)) in H.
    rewrite !repeat_length in H. lia.
Defined.


(** ** The two bottom lines of a poster *)

Lemma text_lines_loop_calls env text maxWidth fontFamily fontWeight size :
  flat_map text_line (loop_calls env text maxWidth fontFamily fontWeight size)
  = [].
Proof.
  pose proof (loop_calls_probe env text maxWidth fontFamily fontWeight size) as H.
  induction (loop_calls env text maxWidth fontFamily fontWeight size) as [|c l IH].
  - reflexivity.
  - cbn in H. apply andb_prop in H as [Hc Hl].
    cbn [flat_map]. rewrite (IH Hl).
    destruct c; try discriminate Hc; reflexivity.
Qed.

Ltac text_lines_calls :=
  cbv [calls text_lines];
  repeat first
    [ progress cbn [flat_map app text_line]
    | rewrite flat_map_app
    | rewrite text_lines_loop_calls ].

(** X23.  A poster that is exported prints five lines, all centred on
    x = 600: the brand at y = 128, the tagline at 162, the call to
    action at 220, the URL caption at [qrSize + 400] and the template's
    name at 738.  The caption's baseline therefore moves down with the
    QR size while the name's stays: from a QR size of 338 on the caption
    is printed at or below the name. *)
Theorem poster_caption_baseline :
  forall env p,
    context2d env = true ->
    imageLoads env (Poster.qrDataUrl p) = true ->
    exists x1 x2 x3 x4 x5 y4 y5,
      text_lines (calls (snd (Poster.createPoster env p newCanvas))) =
        [(Poster.brandName p, x1, 128); (Poster.tagline p, x2, 162);
         (Poster.cta (Poster.template p), x3, 220);
         (truncateText (Poster.url p) 52, x4, y4);
         (Poster.name (Poster.template p), x5, y5)] /\
      Forall (fun x => x == 600) [x1; x2; x3; x4; x5] /\
      y4 == Poster.qrSize p + 400 /\ y5 == 738 /\
      (338 <= Poster.qrSize p -> y5 <= y4).
Proof.
  intros env p Hctx Himg.
  remember (Poster.createPoster env p newCanvas) as run eqn:Hrun.
  unfold Poster.createPoster in Hrun.
  exec_step Hrun; rewrite Hctx in Hrun; exec Hrun.
  destruct (Poster.logoImage p) as [logo|]; exec Hrun;
    rewrite Himg in Hrun; exec Hrun;
    run_is Hrun; text_lines_calls;
    unfold Poster.displayUrl;
    do 7 eexists; (split; [reflexivity|]);
    unfold Poster.POSTER_WIDTH, Poster.POSTER_HEIGHT, Qdiv;
    change (/ 2) with (1 # 2);
    generalize (Poster.qrSize p); intros s;
    (split; [repeat constructor; lra|]);
    repeat split; try intros Hs; lra.
Qed.

Lemma poster_caption_baseline_witness :
  exists x1 x2 x3 x4 x5 y4 y5,
    text_lines (calls (snd (Poster.createPoster plain_env (poster_payload 340)
                              newCanvas))) =
      [(Poster.brandName (poster_payload 340), x1, 128);
       (Poster.tagline (poster_payload 340), x2, 162);
       (Poster.cta (Poster.template (poster_payload 340)), x3, 220);
       (truncateText (Poster.url (poster_payload 340)) 52, x4, y4);
       (Poster.name (Poster.template (poster_payload 340)), x5, y5)] /\
    Forall (fun x => x == 600) [x1; x2; x3; x4; x5] /\
    y4 == Poster.qrSize (poster_payload 340) + 400 /\ y5 == 738 /\
    (338 <= Poster.qrSize (poster_payload 340) -> y5 <= y4).
Proof.
  apply (poster_caption_baseline plain_env (poster_payload 340));
    reflexivity.
Defined.
